(** * make_concept_subset: a shallow embedding and its specification

    The development follows [axbench/scripts/make_concept_subset.py]. The
    script filters a JSON-lines metadata file and two parquet tables by a
    set of concept ids, and mirrors every other file of the two known
    sub-locations ([generate], [inference]) of each requested subdirectory.

    The script is a sequence of library calls on files. The libraries are
    modelled by what they do to decoded content:
    - a text file is the list of its lines, each line being blank, a
      decoded JSON value, or one that [json.loads] refuses ([json.loads],
      [json.dumps], [str.strip]); a file that is not UTF-8 to its end is
      the list of the lines that the text decoder yields before it fails;
    - a parquet file is the data frame it holds ([pd.read_parquet],
      [DataFrame.to_parquet]);
    - the filesystem is a finite map from paths to files and directories
      ([pathlib], [open], [shutil.copy2]); the theorems hold for every such
      map, so in particular for those in which the parent of every entry is
      a directory.
    Exceptions are values: a computation returns the filesystem it leaves
    together with its result or the exception raised, so that what a failed
    run has written stays visible.

    Layout:
    - Python values, exceptions, [int()] and [dict.get];
    - data frames and the boolean-mask operations the script uses;
    - the filesystem, the state-and-exception monad, the library calls;
    - the five functions of the script;
    - the vocabulary of the specification and of the proofs;
    - properties: the columnar filter (C2, C7, C10), the record filter
      (C1, C4, C6), footprints, skipped sub-locations (C9), a missing
      subdirectory (C5), the latent-eval table (C3), running twice (C8). *)

From stdpp Require Import gmap strings list fin_maps sets.
From Stdlib Require Import ZArith Ascii String.

#[global] Set Warnings "-register-all".

(** ** Python values *)

Module Py.

(** A finite float is [m * 2^e]; [int()] truncates it exactly. *)
Inductive pyfloat :=
  | FFinite (m e : Z)
  | FInf (negative : bool)
  | FNan.

(** What [json.loads] can return. A [PDict] lists its items in insertion
    order; [json.loads] never produces two items with one key. A [PStr]
    holds code points below 256. A [PInt] that [json.loads] returns has at
    most 4300 digits: it refuses a longer literal, see [json_error]. *)
Inductive pyval :=
  | PNone
  | PBool (b : bool)
  | PInt (z : Z)
  | PFloat (f : pyfloat)
  | PStr (s : string)
  | PList (xs : list pyval)
  | PDict (items : list (string * pyval)).

Abbreviation path := (list string).

Inductive exn :=
  | FileNotFoundError (p : path)
  | FileExistsError (p : path)
  | NotADirectoryError (p : path)
  | IsADirectoryError (p : path)
  | SameFileError (p : path)
  | ArrowInvalid (p : path)
  | JSONDecodeError
  | UnicodeDecodeError
  | RecursionError
  | AttributeError
  | TypeError
  | ValueError
  | OverflowError
  | KeyError (k : string).

Inductive result (A : Type) :=
  | Ok (a : A)
  | Raise (e : exn).
Arguments Ok {A} a.
Arguments Raise {A} e.

Definition is_ok {A} (r : result A) : bool :=
  match r with Ok _ => true | Raise _ => false end.

Definition is_raise {A} (r : result A) : bool := negb (is_ok r).

(** *** [int(x)] *)

(** The characters that [int()] skips at both ends of a string, among the
    code points below 256: tab, line feed, vertical tab, form feed,
    carriage return and space, and the two that are whitespace outside
    ASCII (133, 160), which [int()] first turns into spaces. The separators
    28 to 31 are whitespace for [str.isspace] but not for [int()]:
    [int] of the separator 28 followed by a digit raises [ValueError]. *)
Definition is_space (c : ascii) : bool :=
  let n := nat_of_ascii c in
  ((9 <=? n) && (n <=? 13)) || (n =? 32) || (n =? 133) || (n =? 160).

Definition digit_of (c : ascii) : option Z :=
  let n := nat_of_ascii c in
  if (48 <=? n) && (n <=? 57) then Some (Z.of_nat (n - 48)) else None.

Fixpoint lstrip (s : list ascii) : list ascii :=
  match s with
  | c :: s' => if is_space c then lstrip s' else s
  | [] => []
  end.

Definition strip (s : list ascii) : list ascii :=
  rev (lstrip (rev (lstrip s))).

(** Decimal digits, single underscores allowed between two digits. *)
Fixpoint digits (acc : Z) (after_digit : bool) (s : list ascii) : option Z :=
  match s with
  | [] => if after_digit then Some acc else None
  | c :: s' =>
      match digit_of c with
      | Some d => digits (10 * acc + d)%Z true s'
      | None =>
          if (nat_of_ascii c =? 95) && after_digit
          then digits acc false s' else None
      end
  end.

(** [sys.get_int_max_str_digits()]: CPython 3.11 and later refuse to convert
    a string of more digits, unless the limit is changed, which the script
    does not do. *)
Definition int_max_str_digits : nat := 4300.

(** The digits counted against the limit: leading zeros count, the sign
    and the underscores do not. *)
Definition digit_count (s : list ascii) : nat :=
  List.length (List.filter (fun c => bool_decide (is_Some (digit_of c))) s).

Definition unsigned_of_str (s : list ascii) : option Z :=
  if digit_count s <=? int_max_str_digits then digits 0 false s else None.

(** [int(s)] for a string: [None] stands for [ValueError]. *)
Definition int_of_str (s : string) : option Z :=
  match strip (list_ascii_of_string s) with
  | c :: s' =>
      if nat_of_ascii c =? 45 then Z.opp <$> unsigned_of_str s'
      else if nat_of_ascii c =? 43 then unsigned_of_str s'
      else unsigned_of_str (c :: s')
  | [] => None
  end.

Definition float_trunc (m e : Z) : Z :=
  if (0 <=? e)%Z then (m * 2 ^ e)%Z else Z.quot m (2 ^ (- e)).

Definition int (v : pyval) : result Z :=
  match v with
  | PInt z => Ok z
  | PBool b => Ok (if b then 1 else 0)%Z
  | PFloat (FFinite m e) => Ok (float_trunc m e)
  | PFloat (FInf _) => Raise OverflowError
  | PFloat FNan => Raise ValueError
  | PStr s =>
      match int_of_str s with
      | Some z => Ok z
      | None => Raise ValueError
      end
  | PNone | PList _ | PDict _ => Raise TypeError
  end.

(** *** [d.get(key, default)] *)

Fixpoint assoc (k : string) (items : list (string * pyval)) : option pyval :=
  match items with
  | (k', v) :: items' => if String.eqb k k' then Some v else assoc k items'
  | [] => None
  end.

(** Only a dict has a [get] method. *)
Definition get (record : pyval) (k : string) (dflt : pyval) : result pyval :=
  match record with
  | PDict items => Ok (default dflt (assoc k items))
  | _ => Raise AttributeError
  end.

End Py.
Export Py.

(** ** Data frames *)

Module Pandas.

(** A cell of an integer column, of a string column, or a missing value. *)
Inductive cell :=
  | CInt (z : Z)
  | CStr (s : string)
  | CNull.

(** A frame lists its column labels and its rows; a row has one cell per
    label. *)
Record DataFrame := { columns : list string; rows : list (list cell) }.

Fixpoint index_of (label : string) (labels : list string) : option nat :=
  match labels with
  | l :: labels' =>
      if String.eqb label l then Some 0 else S <$> index_of label labels'
  | [] => None
  end.

(** [df[label]] *)
Definition getitem (df : DataFrame) (label : string) : result (list cell) :=
  match index_of label (columns df) with
  | Some i => Ok (map (fun r => nth i r CNull) (rows df))
  | None => Raise (KeyError label)
  end.

(** [series.isin(values)] *)
Definition isin (series : list cell) (values : gset Z) : list bool :=
  map (fun c => match c with CInt z => bool_decide (z ∈ values) | _ => false end)
      series.

(** [series == k] *)
Definition eq_scalar (series : list cell) (k : Z) : list bool :=
  map (fun c => match c with CInt z => bool_decide (z = k) | _ => false end)
      series.

(** [mask.any()] *)
Definition any (mask : list bool) : bool := existsb id mask.

(** [mask |= other] *)
Definition ior (mask other : list bool) : list bool := zip_with orb mask other.

Fixpoint select {A} (xs : list A) (mask : list bool) : list A :=
  match xs, mask with
  | x :: xs', b :: mask' =>
      if b then x :: select xs' mask' else select xs' mask'
  | _, _ => []
  end.

(** [df.loc[mask]] *)
Definition loc (df : DataFrame) (mask : list bool) : DataFrame :=
  {| columns := columns df; rows := select (rows df) mask |}.

End Pandas.
Export Pandas.

(** ** The filesystem *)

Module FS.

(** Why [json.loads] refuses a line: the text is not JSON
    ([JSONDecodeError]); it holds an integer literal of more digits than
    [int_max_str_digits] ([ValueError], from the [int()] that reads the
    literal); it is nested beyond the recursion limit ([RecursionError]). *)
Inductive json_error :=
  | NotJson
  | IntTooLong
  | TooDeep.

Definition exn_of_json_error (why : json_error) : exn :=
  match why with
  | NotJson => JSONDecodeError
  | IntTooLong => ValueError
  | TooDeep => RecursionError
  end.

(** A line of a text file, as the record loop sees it: [line.strip()] is
    empty; or [json.loads(line)] returns [v]; or [json.loads(line)] raises,
    for the reason given. The line [json.dumps(v) + "\n"] is [Json v]. A
    [line] is a line that the text decoder has yielded: a failure of the
    decoder is not a line, see [content]. *)
Inductive line :=
  | Blank
  | Json (v : pyval)
  | Junk (why : json_error).

(** What a file holds.
    - [Text lines]: a file, not a parquet file, that decodes as UTF-8 to
      its end; iterating over it yields [lines] and stops.
    - [Table df]: a parquet file; [pd.read_parquet] returns [df].
    - [Bytes b lines]: any other file, [b] standing for its bytes. It does
      not decode as UTF-8 to its end. The text decoder works on buffered
      chunks: iterating over the file yields [lines], the lines complete
      before the chunk that holds the first undecodable byte, and then
      raises [UnicodeDecodeError]. The lines of that chunk are not yielded,
      so they are not in [lines]: a file whose first chunk fails has
      [lines = []]. *)
Inductive content :=
  | Text (lines : list line)
  | Table (df : DataFrame)
  | Bytes (b : string) (lines : list line).

Inductive node :=
  | File (c : content)
  | Dir.

(** The filesystem maps every existing path to its node. *)
Abbreviation fs := (gmap path node).

(** [p.parent] and [p.name] *)
Definition parent (p : path) : path := removelast p.
Definition name (p : path) : string := List.last p EmptyString.

(** [prefixes p] lists the ancestors of [p], the root first, and [p] itself
    last. *)
Fixpoint prefixes (p : path) : list path :=
  match p with
  | [] => [[]]
  | x :: p' => [] :: map (cons x) (prefixes p')
  end.

Fixpoint child_name (p q : path) : option string :=
  match p, q with
  | [], [n] => Some n
  | x :: p', y :: q' => if decide (x = y) then child_name p' q' else None
  | _, _ => None
  end.

(** The entries of directory [p], in the order they are listed. *)
Definition listdir (s : fs) (p : path) : list string :=
  elements (set_omap (child_name p) (dom s) : gset string).

Definition is_dir (s : fs) (p : path) : bool :=
  match s !! p with Some Dir => true | _ => false end.

Definition is_file_at (s : fs) (p : path) : bool :=
  match s !! p with Some (File _) => true | _ => false end.

Definition mkdirs (s : fs) (p : path) : fs :=
  foldr (fun q m => <[q := Dir]> m) s (prefixes p).

(** *** State and exceptions *)

(** A computation takes the filesystem and returns the filesystem it leaves,
    together with a value or the exception it raised. *)
Definition M (A : Type) : Type := fs -> fs * result A.

#[global] Instance M_ret : MRet M := fun A a s => (s, Ok a).

#[global] Instance M_bind : MBind M := fun A B f m s =>
  match m s with
  | (s', Ok a) => f a s'
  | (s', Raise e) => (s', Raise e)
  end.

Definition raise {A} (e : exn) : M A := fun s => (s, Raise e).

Definition lift {A} (r : result A) : M A := fun s => (s, r).

(** [for x in xs: body] *)
Fixpoint for_ {A} (xs : list A) (body : A -> M unit) : M unit :=
  match xs with
  | [] => mret tt
  | x :: xs' => body x ;; for_ xs' body
  end.

(** *** pathlib, open, shutil, pandas I/O *)

(** [p.exists()] *)
Definition exists_ (p : path) : M bool :=
  fun s => (s, Ok (bool_decide (is_Some (s !! p)))).

(** [p.is_file()] *)
Definition is_file (p : path) : M bool :=
  fun s => (s, Ok (is_file_at s p)).

(** [p.iterdir()]: the directory is listed once, when the loop starts. *)
Definition iterdir (p : path) : M (list path) := fun s =>
  match s !! p with
  | Some Dir => (s, Ok (map (fun n => p ++ [n]) (listdir s p)))
  | Some (File _) => (s, Raise (NotADirectoryError p))
  | None => (s, Raise (FileNotFoundError p))
  end.

(** [p.mkdir(parents=True, exist_ok=True)]: nothing is created when [p] or
    an ancestor is a file. *)
Definition mkdir (p : path) : M unit := fun s =>
  if is_file_at s p then (s, Raise (FileExistsError p))
  else if existsb (is_file_at s) (prefixes p)
       then (s, Raise (NotADirectoryError p))
       else (mkdirs s p, Ok tt).

(** Opening [p] for writing creates or truncates the file; the whole
    [content] is then written. *)
Definition write_file (p : path) (c : content) : M unit := fun s =>
  match s !! p with
  | Some Dir => (s, Raise (IsADirectoryError p))
  | _ =>
      match s !! parent p with
      | Some Dir => (<[p := File c]> s, Ok tt)
      | Some (File _) => (s, Raise (NotADirectoryError p))
      | None => (s, Raise (FileNotFoundError p))
      end
  end.

(** [p.open("r")] *)
Definition open_r (p : path) : M unit := fun s =>
  match s !! p with
  | Some (File _) => (s, Ok tt)
  | Some Dir => (s, Raise (IsADirectoryError p))
  | None => (s, Raise (FileNotFoundError p))
  end.

(** [p.open("w")] *)
Definition open_w (p : path) : M unit := write_file p (Text []).

(** The lines that iterating over an open file yields, and how the
    iteration ends: at the end of the file, or with the failure of the text
    decoder. A parquet file is binary and is taken to fail in its first
    chunk: its page headers are Thrift-encoded, and a page size of 64 bytes
    or more is written there as two bytes that are not UTF-8. *)
Definition lines_of (c : content) : list line :=
  match c with
  | Text ls => ls
  | Bytes _ ls => ls
  | Table _ => []
  end.

Definition end_of (c : content) : result unit :=
  match c with
  | Text _ => Ok tt
  | Bytes _ _ | Table _ => Raise UnicodeDecodeError
  end.

(** [for line in fin], for the file opened at [p]: the lines the loop gets,
    and the end of the iteration. *)
Definition readlines (p : path) : M (list line * result unit) := fun s =>
  match s !! p with
  | Some (File c) => (s, Ok (lines_of c, end_of c))
  | _ => (s, Ok ([], Ok tt))
  end.

(** [fout.write(l)], on the file opened at [p] *)
Definition write (p : path) (l : line) : M unit := fun s =>
  match s !! p with
  | Some (File (Text ls)) => (<[p := File (Text (ls ++ [l]))]> s, Ok tt)
  | _ => (s, Ok tt)
  end.

(** [pd.read_parquet(p)]; a directory is not read as a dataset. *)
Definition read_parquet (p : path) : M DataFrame := fun s =>
  match s !! p with
  | Some (File (Table df)) => (s, Ok df)
  | Some (File _) => (s, Raise (ArrowInvalid p))
  | Some Dir => (s, Raise (IsADirectoryError p))
  | None => (s, Raise (FileNotFoundError p))
  end.

(** [df.to_parquet(p, index=False)] *)
Definition to_parquet (df : DataFrame) (p : path) : M unit :=
  write_file p (Table df).

(** [shutil.copy2(src, dst)]: into [dst] when it is a directory; refuses to
    copy a file onto itself. Timestamps and permissions are not modelled. *)
Definition copy2 (src dst : path) : M unit := fun s =>
  let dst := if is_dir s dst then dst ++ [name src] else dst in
  if bool_decide (src = dst) && bool_decide (is_Some (s !! src))
  then (s, Raise (SameFileError src))
  else
    match s !! src with
    | Some (File c) => write_file dst c s
    | Some Dir => (s, Raise (IsADirectoryError src))
    | None => (s, Raise (FileNotFoundError src))
    end.

(** [json.loads(line)] and [json.dumps(record) + "\n"] *)
Definition json_loads (l : line) : M pyval :=
  match l with
  | Json v => mret v
  | Junk why => raise (exn_of_json_error why)
  | Blank => raise JSONDecodeError
  end.

Definition json_dumps (record : pyval) : line := Json record.

(** [not line.strip()] *)
Definition is_blank (l : line) : bool :=
  match l with Blank => true | _ => false end.

End FS.
Export FS.

(** ** The script *)

Definition _write_filtered_metadata (src dst : path) (keep_ids : gset Z)
  : M unit :=
  mkdir (parent dst) ;;
  open_r src ;;
  open_w dst ;;
  fin ← readlines src ;
  for_ fin.1 (fun line =>
    if is_blank line then mret tt
    else
      record ← json_loads line ;
      field ← lift (get record "concept_id" (PInt (-1))) ;
      concept_id ← lift (int field) ;
      if bool_decide (concept_id ∈ keep_ids)
      then write dst (json_dumps record)
      else mret tt) ;;
  lift fin.2.

Definition _filter_parquet (src dst : path) (keep_ids : gset Z)
    (keep_negative : bool) : M unit :=
  mkdir (parent dst) ;;
  df ← read_parquet src ;
  ids ← lift (getitem df "concept_id") ;
  let mask := isin ids keep_ids in
  mask ← (if keep_negative
          then ids ← lift (getitem df "concept_id") ;
               if any (eq_scalar ids (-1))
               then ids ← lift (getitem df "concept_id") ;
                    mret (ior mask (eq_scalar ids (-1)))
               else mret mask
          else mret mask) ;
  to_parquet (loc df mask) dst.

Definition _mirror_misc_files (src_dir dst_dir : path) (handled : gset string)
  : M unit :=
  items ← iterdir src_dir ;
  for_ items (fun item =>
    if bool_decide (name item ∈ handled) then mret tt
    else
      f ← is_file item ;
      if f : bool
      then mkdir dst_dir ;; copy2 item (dst_dir ++ [name item])
      else mret tt).

(** The [generate] block of [subset_single_directory]. *)
Definition subset_generate (src_base dst_base : path) (keep_ids : gset Z)
    (keep_negative : bool) : M unit :=
  let generate_src := src_base ++ ["generate"] in
  b ← exists_ generate_src ;
  if b : bool then
    let generate_dst := dst_base ++ ["generate"] in
    let handled : gset string := ∅ in
    let metadata_src := generate_src ++ ["metadata.jsonl"] in
    b ← exists_ metadata_src ;
    handled ← (if b : bool
               then _write_filtered_metadata metadata_src
                      (generate_dst ++ ["metadata.jsonl"]) keep_ids ;;
                    mret (handled ∪ {["metadata.jsonl"]})
               else mret handled) ;
    let parquet_src := generate_src ++ ["train_data.parquet"] in
    b ← exists_ parquet_src ;
    handled ← (if b : bool
               then _filter_parquet parquet_src
                      (generate_dst ++ ["train_data.parquet"]) keep_ids
                      keep_negative ;;
                    mret (handled ∪ {["train_data.parquet"]})
               else mret handled) ;
    _mirror_misc_files generate_src generate_dst handled
  else mret tt.

(** The [inference] block of [subset_single_directory]. *)
Definition subset_inference (src_base dst_base : path) (keep_ids : gset Z)
  : M unit :=
  let inference_src := src_base ++ ["inference"] in
  b ← exists_ inference_src ;
  if b : bool then
    let inference_dst := dst_base ++ ["inference"] in
    let handled : gset string := ∅ in
    let latent_src := inference_src ++ ["latent_eval_data.parquet"] in
    b ← exists_ latent_src ;
    handled ← (if b : bool
               then _filter_parquet latent_src
                      (inference_dst ++ ["latent_eval_data.parquet"]) keep_ids
                      false ;;
                    mret (handled ∪ {["latent_eval_data.parquet"]})
               else mret handled) ;
    _mirror_misc_files inference_src inference_dst handled
  else mret tt.

Definition subset_single_directory (src_base dst_base : path)
    (keep_ids : gset Z) (keep_negative : bool) : M unit :=
  subset_generate src_base dst_base keep_ids keep_negative ;;
  subset_inference src_base dst_base keep_ids.

(** The parsed command line. A name of [subdirs] is one path component.
    The default of [--source-root] is filled in by the parser. *)
Record args := {
  source_root : path;
  target_root : path;
  subdirs : list string;
  concept_ids : list Z;
  drop_negative : bool
}.

(** Standard output is not part of the state: [print] leaves it alone. *)
Definition print (subdir : string) (dst_base : path) : M unit := mret tt.

Definition main (a : args) : M unit :=
  let keep_ids : gset Z := list_to_set (concept_ids a) in
  let keep_negative := negb (drop_negative a) in
  for_ (subdirs a) (fun subdir : string =>
    let src_base := source_root a ++ [subdir] in
    b ← exists_ src_base ;
    if negb b then raise (FileNotFoundError src_base)
    else
      let dst_base := target_root a ++ [subdir] in
      subset_single_directory src_base dst_base keep_ids keep_negative ;;
      print subdir dst_base).

(** ** Vocabulary of the specification *)

(** The concept id of a record: the integer value of its [concept_id]
    field, [-1] when the record has no such field. *)
Definition concept_id_of (record : pyval) : result Z :=
  match record with
  | PDict items =>
      match assoc "concept_id" items with
      | Some field => int field
      | None => Ok (-1)%Z
      end
  | _ => Raise AttributeError
  end.

(** A line the record loop gets past: blank, or an object whose concept id
    is an integer. *)
Definition readable (l : line) : bool :=
  match l with
  | Blank => true
  | Json v => is_ok (concept_id_of v)
  | Junk _ => false
  end.

(** The records of a file: its lines that decode. *)
Definition records (ls : list line) : list pyval :=
  omap (fun l => match l with Json v => Some v | _ => None end) ls.

(** The record's concept id is a member of [K]. *)
Definition member (K : gset Z) (record : pyval) : bool :=
  match concept_id_of record with
  | Ok z => bool_decide (z ∈ K)
  | Raise _ => false
  end.

(** The records the loop writes before it stops, and how it stops. *)
Fixpoint scan (K : gset Z) (ls : list line) : list pyval * result unit :=
  match ls with
  | [] => ([], Ok tt)
  | Blank :: ls' => scan K ls'
  | Junk why :: _ => ([], Raise (exn_of_json_error why))
  | Json v :: ls' =>
      match concept_id_of v with
      | Ok z =>
          let '(out, r) := scan K ls' in
          (if bool_decide (z ∈ K) then v :: out else out, r)
      | Raise e => ([], Raise e)
      end
  end.

(** The same for a file: after the last line that is yielded, the loop ends
    as the iteration over the file ends. *)
Definition scan_file (K : gset Z) (c : content) : list pyval * result unit :=
  ((scan K (lines_of c)).1,
   match (scan K (lines_of c)).2 with
   | Ok _ => end_of c
   | Raise e => Raise e
   end).

(** A non-blank line that does not decode as an object, and the exception
    the loop raises on it. *)
Definition undecodable (l : line) : bool :=
  match l with
  | Junk _ => true
  | Json (PDict _) => false
  | Json _ => true
  | Blank => false
  end.

Definition decode_error (l : line) : exn :=
  match l with
  | Junk why => exn_of_json_error why
  | _ => AttributeError
  end.

(** [dst] can be created or overwritten as a file: it is not the root, no
    directory stands in its place and no file stands in place of one of
    its ancestors. *)
Definition writable (s : fs) (dst : path) : bool :=
  bool_decide (dst ≠ []) && negb (is_dir s dst)
  && negb (existsb (is_file_at s) (prefixes (parent dst))).

(** The cell of a row in column [i]. *)
Definition cell_at (i : nat) (row : list cell) : cell := nth i row CNull.

Definition cell_in (K : gset Z) (c : cell) : bool :=
  match c with CInt z => bool_decide (z ∈ K) | _ => false end.

Definition is_sentinel (c : cell) : bool :=
  match c with CInt z => bool_decide (z = (-1)%Z) | _ => false end.

Definition has_sentinel (i : nat) (df : DataFrame) : bool :=
  existsb (fun row => is_sentinel (cell_at i row)) (rows df).

(** The rows the columnar filter is specified to keep. *)
Definition row_kept (K : gset Z) (keep_negative : bool) (i : nat)
    (df : DataFrame) (row : list cell) : bool :=
  cell_in K (cell_at i row)
  || (keep_negative && has_sentinel i df && is_sentinel (cell_at i row)).

(** The variant of the columnar filter without the [any()] guard. *)
Definition _filter_parquet_unguarded (src dst : path) (keep_ids : gset Z)
    (keep_negative : bool) : M unit :=
  mkdir (parent dst) ;;
  df ← read_parquet src ;
  ids ← lift (getitem df "concept_id") ;
  let mask := isin ids keep_ids in
  mask ← (if keep_negative
          then ids ← lift (getitem df "concept_id") ;
               mret (ior mask (eq_scalar ids (-1)))
          else mret mask) ;
  to_parquet (loc df mask) dst.

(** The mask that lines 26 to 28 compute from the [concept_id] column. *)
Definition mask_of (ids : list cell) (K : gset Z) (keep_negative : bool)
  : list bool :=
  if keep_negative && any (eq_scalar ids (-1))
  then ior (isin ids K) (eq_scalar ids (-1))
  else isin ids K.

(** ** Footprints *)

(** [change D W s s']: going from [s] to [s'], a path either keeps its node,
    or is a new directory at a path of [D], or is a file at a path of [W]
    that was not a directory before. Directories are never removed or
    replaced. *)
Definition change (D W : path -> Prop) (s s' : fs) : Prop :=
  forall q,
    s' !! q = s !! q
    \/ (D q /\ s !! q = None /\ s' !! q = Some Dir)
    \/ (W q /\ s !! q ≠ Some Dir /\ exists c, s' !! q = Some (File c)).

(** Every run of [m] changes the filesystem within [D] and [W], whether it
    returns or raises. *)
Definition footprint {A} (m : M A) (D W : path -> Prop) : Prop :=
  forall s s' r, m s = (s', r) -> change D W s s'.

(** Neither path is a prefix of the other. *)
Definition apart (p q : path) : Prop :=
  ¬ p `prefix_of` q /\ ¬ q `prefix_of` p.

(** The command line [a] with another list of subdirectories. *)
Definition with_subdirs (a : args) (names : list string) : args :=
  {| source_root := source_root a; target_root := target_root a;
     subdirs := names; concept_ids := concept_ids a;
     drop_negative := drop_negative a |}.

(** ** Settled states *)

(** Two filesystems hold the same nodes at and below [root]. *)
Definition agree_under (root : path) (s t : fs) : Prop :=
  forall q, root `prefix_of` q -> s !! q = t !! q.

(** [d] and all its ancestors are directories. *)
Definition all_dirs (s : fs) (d : path) : Prop :=
  forall q, q `prefix_of` d -> s !! q = Some Dir.

(** [m] keeps the invariant [I]. *)
Definition invariant (I : fs -> Prop) (m : M unit) : Prop :=
  forall s s' r, I s -> m s = (s', r) -> I s'.

(** [m] keeps [Q] once it holds. *)
Definition preserves (I : fs -> Prop) (m : M unit) (Q : fs -> Prop) : Prop :=
  forall s s' r, I s -> Q s -> m s = (s', r) -> Q s'.

(** [m] settles in [P]: a run that returns establishes [P]; in a state where
    [P] holds [m] returns and changes nothing; and a run that raises leaves
    a state in which [m] raises the same exception and changes nothing. *)
Record settles (I : fs -> Prop) (m : M unit) (P : fs -> Prop) : Prop := {
  settles_ok : forall s s', I s -> m s = (s', Ok tt) -> P s';
  settles_fix : forall s, I s -> P s -> m s = (s, Ok tt);
  settles_fail :
    forall s s' e, I s -> m s = (s', Raise e) -> m s' = (s', Raise e);
  settles_inv : invariant I m
}.

(** Create the directory [dd], then either raise, or write [c] to [p] and
    finish with [r]. *)
Definition put (dd p : path) (o : result content) (r : result unit)
  : M unit :=
  mkdir dd ;;
  match o with
  | Ok c => write_file p c ;; lift r
  | Raise e => raise e
  end.

Definition put_done (dd p : path) (o : result content) (r : result unit)
    (s : fs) : Prop :=
  match o, r with
  | Ok c, Ok _ => all_dirs s dd /\ s !! p = Some (File c)
  | _, _ => False
  end.

(** Create the directory [dd], then write [c] to [dd/n], or to [dd/n/n]
    when [dd/n] is a directory. *)
Definition write_into (dd : path) (n : string) (c : content) : M unit :=
  fun s =>
    write_file (if is_dir s (dd ++ [n]) then (dd ++ [n]) ++ [n]
                else dd ++ [n]) c s.

Definition put_into (dd : path) (n : string) (c : content) : M unit :=
  mkdir dd ;; write_into dd n c.

Definition put_into_done (dd : path) (n : string) (c : content) (s : fs)
  : Prop :=
  all_dirs s dd
  /\ ((s !! (dd ++ [n]) = Some Dir
       /\ s !! ((dd ++ [n]) ++ [n]) = Some (File c))
      \/ s !! (dd ++ [n]) = Some (File c)).

(** What [_write_filtered_metadata] makes of the source node at [src]: the
    content it writes, if it gets to write, and the result it ends with. *)
Definition metadata_plan (K : gset Z) (src : path) (nd : node)
  : result content * result unit :=
  match nd with
  | File c =>
      (Ok (Text (Json <$> (scan_file K c).1)), (scan_file K c).2)
  | Dir => (Raise (IsADirectoryError src), Ok tt)
  end.

(** What [_filter_parquet] makes of the source node at [src]. *)
Definition parquet_plan (K : gset Z) (kn : bool) (src : path) (nd : node)
  : result content * result unit :=
  (match nd with
   | File (Table df) =>
       match getitem df "concept_id" with
       | Ok ids => Ok (Table (loc df (mask_of ids K kn)))
       | Raise e => Raise e
       end
   | File _ => Raise (ArrowInvalid src)
   | Dir => Raise (IsADirectoryError src)
   end, Ok tt).

(** One pass of the mirror loop, with the source read from [src0]. *)
Definition mirror_item (src0 : fs) (sd dd : path) (handled : gset string)
    (n : string) : M unit :=
  if bool_decide (n ∈ handled) then mret tt
  else
    match src0 !! (sd ++ [n]) with
    | Some (File c) => put_into dd n c
    | _ => mret tt
    end.

Definition mirror_item_done (src0 : fs) (sd dd : path)
    (handled : gset string) (n : string) (s : fs) : Prop :=
  if bool_decide (n ∈ handled) then True
  else
    match src0 !! (sd ++ [n]) with
    | Some (File c) => put_into_done dd n c s
    | _ => True
    end.

(** A handled file of a sub-location, with the source read from [src0]:
    nothing to do when the source has no such file. *)
Definition opt_put (src0 : fs) (sd dd : path) (n : string)
    (plan : path -> node -> result content * result unit) : M unit :=
  match src0 !! (sd ++ [n]) with
  | Some nd =>
      put dd (dd ++ [n]) (plan (sd ++ [n]) nd).1 (plan (sd ++ [n]) nd).2
  | None => mret tt
  end.

Definition opt_put_done (src0 : fs) (sd dd : path) (n : string)
    (plan : path -> node -> result content * result unit) (s : fs) : Prop :=
  match src0 !! (sd ++ [n]) with
  | Some nd =>
      put_done dd (dd ++ [n]) (plan (sd ++ [n]) nd).1
        (plan (sd ++ [n]) nd).2 s
  | None => True
  end.

Definition mirror_done (src0 : fs) (sd dd : path) (handled : gset string)
    (s : fs) : Prop :=
  match src0 !! sd with
  | Some Dir =>
      forall n, n ∈ listdir src0 sd -> mirror_item_done src0 sd dd handled n s
  | _ => False
  end.

(** [P] survives every change that writes no file at or below [dd]. *)
Definition closed_under (dd : path) (P : fs -> Prop) : Prop :=
  forall D W s s',
    change D W s s' -> (forall q, dd `prefix_of` q -> ¬ W q) -> P s -> P s'.

(** The handled set after the step for file [n]. *)
Definition handled_if (src0 : fs) (sd : path) (h : gset string) (n : string)
  : gset string :=
  if bool_decide (is_Some (src0 !! (sd ++ [n]))) then h ∪ {[n]} else h.

Definition generate_handled (src0 : fs) (sd : path) : gset string :=
  handled_if src0 sd (handled_if src0 sd ∅ "metadata.jsonl")
    "train_data.parquet".

Definition generate_done (K : gset Z) (kn : bool) (src0 : fs)
    (sb db : path) (s : fs) : Prop :=
  let sd := sb ++ ["generate"] in
  let dd := db ++ ["generate"] in
  match src0 !! sd with
  | Some _ =>
      opt_put_done src0 sd dd "metadata.jsonl" (metadata_plan K) s
      /\ opt_put_done src0 sd dd "train_data.parquet" (parquet_plan K kn) s
      /\ mirror_done src0 sd dd (generate_handled src0 sd) s
  | None => True
  end.

Definition inference_done (K : gset Z) (src0 : fs) (sb db : path) (s : fs)
  : Prop :=
  let sd := sb ++ ["inference"] in
  let dd := db ++ ["inference"] in
  match src0 !! sd with
  | Some _ =>
      opt_put_done src0 sd dd "latent_eval_data.parquet"
        (parquet_plan K false) s
      /\ mirror_done src0 sd dd
           (handled_if src0 sd ∅ "latent_eval_data.parquet") s
  | None => True
  end.

(** Everything [main] writes for the subdirectory [x] is in place. *)
Definition subdir_done (a : args) (src0 : fs) (x : string) (s : fs) : Prop :=
  let K : gset Z := list_to_set (concept_ids a) in
  match src0 !! (source_root a ++ [x]) with
  | Some _ =>
      generate_done K (negb (drop_negative a)) src0 (source_root a ++ [x])
        (target_root a ++ [x]) s
      /\ inference_done K src0 (source_root a ++ [x]) (target_root a ++ [x]) s
  | None => False
  end.

(** The body of the loop of [main]. *)
Definition main_body (a : args) (subdir : string) : M unit :=
  let keep_ids : gset Z := list_to_set (concept_ids a) in
  let keep_negative := negb (drop_negative a) in
  let src_base := source_root a ++ [subdir] in
  b ← exists_ src_base ;
  if negb b then raise (FileNotFoundError src_base)
  else
    let dst_base := target_root a ++ [subdir] in
    subset_single_directory src_base dst_base keep_ids keep_negative ;;
    print subdir dst_base.

(** ** Well-formed filesystems *)

(** Every entry but the root lies in a directory. *)
Definition well_formed (s : fs) : Prop :=
  map_Forall (fun p _ => p ≠ [] -> is_dir s (parent p) = true) s.

(** The directories [main] writes into: [target_root/x/generate] and
    [target_root/x/inference], for a requested [x]. *)
Definition output_dir (a : args) (d : path) : Prop :=
  exists x loc,
    x ∈ subdirs a /\ loc ∈ ["generate"; "inference"]
    /\ d = (target_root a ++ [x]) ++ [loc].

(** ** Outcomes *)

Definition is_not_found (e : exn) : bool :=
  match e with FileNotFoundError _ => true | _ => false end.

(** Started in a state of [P], [m] returns a value and a state in [R], or
    raises an exception and leaves a state in [Q]. *)
Definition ends {A : Type} (P : fs -> Prop) (m : M A) (R : A -> fs -> Prop)
    (Q : exn -> fs -> Prop) : Prop :=
  forall s s' r,
    P s -> m s = (s', r) ->
    match r with Ok a => R a s' | Raise e => Q e s' end.

(** The exception is not [FileNotFoundError]. *)
Definition found (e : exn) (s : fs) : Prop := is_not_found e = false.

(** ** A small filesystem to run the script on *)

Module Demo.

Definition record (k : Z) : pyval :=
  PDict [("concept_id", PInt k); ("text", PStr "t")].

Definition metadata : list line :=
  [Json (record 0); Blank; Json (record 3); Json (record 1);
   Json (PDict [("text", PStr "no id")]); Json (record (-1))].

Definition table : DataFrame :=
  {| columns := ["input"; "concept_id"];
     rows := [[CStr "r0"; CInt 0]; [CStr "r1"; CInt (-1)];
              [CStr "r2"; CInt 5]; [CStr "r3"; CInt 1];
              [CStr "r4"; CInt (-1)]] |}.

(** Two files that the script only copies: a JSON document on one line,
    and a few lines of prose. *)
Definition config : content := Text [Json (PDict [("seed", PInt 7)])].

Definition notes : content := Text [Junk NotJson; Blank; Junk NotJson].

Definition tree : fs :=
  list_to_map
    [([], Dir); (["S"], Dir); (["S"; "a"], Dir);
     (["S"; "a"; "generate"], Dir);
     (["S"; "a"; "generate"; "metadata.jsonl"], File (Text metadata));
     (["S"; "a"; "generate"; "train_data.parquet"], File (Table table));
     (["S"; "a"; "generate"; "config.json"], File config);
     (["S"; "a"; "generate"; "cache"], Dir);
     (["S"; "a"; "inference"], Dir);
     (["S"; "a"; "inference"; "latent_eval_data.parquet"],
      File (Table table));
     (["S"; "a"; "inference"; "notes.txt"], File notes);
     (["S"; "b"], Dir)].

Definition K : gset Z := {[0%Z; 1%Z]}.

Definition cli (names : list string) (drop : bool) : args :=
  {| source_root := ["S"]; target_root := ["T"]; subdirs := names;
     concept_ids := [0; 1]%Z; drop_negative := drop |}.

(** A metadata file whose first record has a [concept_id] that is not a
    number. *)
Definition malformed : fs :=
  <[["S"; "a"; "generate"; "metadata.jsonl"] :=
      File (Text [Json (PDict [("concept_id", PStr "n/a")]);
                  Json (record 0)])]> tree.

End Demo.

(** * Properties *)

(** ** The model at work *)

Example int_samples :
  int (PStr " -1_0 ") = Ok (-10)%Z /\ int (PStr "1__0") = Raise ValueError
  /\ int (PFloat (FFinite 7 (-2))) = Ok 1%Z
  /\ int (PFloat (FFinite (-7) (-2))) = Ok (-1)%Z
  /\ int (PBool true) = Ok 1%Z /\ int PNone = Raise TypeError
  /\ int (PStr "abc") = Raise ValueError /\ int (PStr "") = Raise ValueError.
Proof. repeat split; reflexivity. Qed.

(** [int()] skips the whitespace of ASCII and the two further spaces below
    256, not the separators 28 to 31; it accepts 4300 digits and refuses
    4301, leading zeros counted, underscores not counted. *)
Example int_whitespace_and_limit :
  int (PStr (String (ascii_of_nat 28) "5")) = Raise ValueError
  /\ int (PStr (String (ascii_of_nat 31) "5")) = Raise ValueError
  /\ int (PStr (String (ascii_of_nat 133) "5")) = Ok 5%Z
  /\ int (PStr (String (ascii_of_nat 160) "5")) = Ok 5%Z
  /\ int (PStr (String (ascii_of_nat 12) "5")) = Ok 5%Z
  /\ unsigned_of_str (repeat "0"%char 4300) = Some 0%Z
  /\ unsigned_of_str (repeat "0"%char 4301) = None
  /\ unsigned_of_str (repeat "1"%char 4301) = None
  /\ unsigned_of_str ("0"%char :: "_"%char :: repeat "0"%char 4299)
     = Some 0%Z.
Proof. repeat apply conj; vm_compute; reflexivity. Qed.

(** A source that is not UTF-8 to its end: the records of the lines that
    the decoder yields are filtered and written, then the loop raises
    [UnicodeDecodeError]. A file whose first chunk fails, and a parquet
    file, leave an empty output. A line that [json.loads] refuses stops
    the loop with the exception of [json.loads]. *)
Example decoder_failure :
  let src := ["S"; "a"; "generate"; "metadata.jsonl"] in
  let dst := ["T"; "out"] in
  let run c := _write_filtered_metadata src dst Demo.K
                 (<[src := File c]> Demo.tree) in
  (run (Bytes "b" [Json (Demo.record 1); Json (Demo.record 3)])).2
    = Raise UnicodeDecodeError
  /\ (run (Bytes "b" [Json (Demo.record 1); Json (Demo.record 3)])).1 !! dst
     = Some (File (Text [Json (Demo.record 1)]))
  /\ (run (Bytes "b" [])).2 = Raise UnicodeDecodeError
  /\ (run (Bytes "b" [])).1 !! dst = Some (File (Text []))
  /\ (run (Table Demo.table)).2 = Raise UnicodeDecodeError
  /\ (run (Text [Json (Demo.record 1); Junk IntTooLong])).2
     = Raise ValueError
  /\ (run (Text [Junk NotJson; Json (Demo.record 1)])).2
     = Raise JSONDecodeError
  /\ (run (Text [Junk TooDeep])).2 = Raise RecursionError.
Proof. intros src dst run. repeat apply conj; vm_compute; reflexivity. Qed.

(** The end-to-end example of the specification: ids 0 and 1 are kept, the
    record filter drops the -1 record, the training table keeps its -1 rows
    unless [--drop-negative] is given, the latent-eval table never does, and
    other files are copied. *)
Example demo_run :
  let s' := (main (Demo.cli ["a"] false) Demo.tree).1 in
  (main (Demo.cli ["a"] false) Demo.tree).2 = Ok tt
  /\ s' !! ["T"; "a"; "generate"; "metadata.jsonl"]
     = Some (File (Text [Json (Demo.record 0); Json (Demo.record 1)]))
  /\ s' !! ["T"; "a"; "generate"; "train_data.parquet"]
     = Some (File (Table {| columns := ["input"; "concept_id"];
                            rows := [[CStr "r0"; CInt 0];
                                     [CStr "r1"; CInt (-1)];
                                     [CStr "r3"; CInt 1];
                                     [CStr "r4"; CInt (-1)]] |}))
  /\ s' !! ["T"; "a"; "inference"; "latent_eval_data.parquet"]
     = Some (File (Table {| columns := ["input"; "concept_id"];
                            rows := [[CStr "r0"; CInt 0];
                                     [CStr "r3"; CInt 1]] |}))
  /\ s' !! ["T"; "a"; "generate"; "config.json"] = Some (File Demo.config)
  /\ s' !! ["T"; "a"; "generate"; "cache"] = None.
Proof. repeat split; vm_compute; reflexivity. Qed.

Example demo_run_drop_negative :
  (main (Demo.cli ["a"] true) Demo.tree).1
    !! ["T"; "a"; "generate"; "train_data.parquet"]
  = Some (File (Table {| columns := ["input"; "concept_id"];
                         rows := [[CStr "r0"; CInt 0];
                                  [CStr "r3"; CInt 1]] |})).
Proof. vm_compute; reflexivity. Qed.

(** ** The monad *)

Section monad.
Context {A B : Type}.
Implicit Types (m : M A) (f : A -> M B) (s : fs).

Lemma bind_ok m f s s' a : m s = (s', Ok a) -> (m ≫= f) s = f a s'.
Proof. intros H. unfold mbind, M_bind. by rewrite H. Qed.

Lemma bind_raise m f s s' e :
  m s = (s', Raise e) -> (m ≫= f) s = (s', Raise e).
Proof. intros H. unfold mbind, M_bind. by rewrite H. Qed.

Lemma bind_unfold m f s :
  (m ≫= f) s = match m s with
               | (s', Ok a) => f a s'
               | (s', Raise e) => (s', Raise e)
               end.
Proof. done. Qed.

Lemma bind_ret (a : A) f s : (mret a ≫= f) s = f a s.
Proof. done. Qed.

Lemma bind_lift_ok (a : A) f s : (lift (Ok a) ≫= f) s = f a s.
Proof. done. Qed.

Lemma bind_lift_raise e f s : (lift (Raise e) ≫= f) s = (s, Raise e).
Proof. done. Qed.
End monad.

(** ** Paths *)

Lemma parent_snoc (p : path) (n : string) : parent (p ++ [n]) = p.
Proof. apply removelast_last. Qed.

Lemma name_snoc (p : path) (n : string) : name (p ++ [n]) = n.
Proof. apply last_last. Qed.

Lemma elem_of_prefixes (q p : path) : q ∈ prefixes p <-> q `prefix_of` p.
Proof.
  revert q. induction p as [|x p IH]; intros q; simpl.
  - rewrite list_elem_of_singleton. split.
    + intros ->. done.
    + intros H. by apply prefix_nil_inv in H.
  - rewrite elem_of_cons, list_elem_of_fmap. split.
    + intros [-> | (q' & -> & Hq)]; [apply prefix_nil|].
      apply prefix_cons, IH, Hq.
    + destruct q as [|y q]; [by left|]. intros H. right.
      pose proof (prefix_cons_inv_1 _ _ _ _ H) as ->.
      apply prefix_cons_inv_2 in H. exists q. split; [done|]. by apply IH.
Qed.

Lemma lookup_foldr_insert_dir (s : fs) (l : list path) (q : path) :
  foldr (fun r m => <[r := Dir]> m) s l !! q
  = if decide (q ∈ l) then Some Dir else s !! q.
Proof.
  induction l as [|r rs IH].
  - rewrite decide_False by apply not_elem_of_nil. done.
  - cbn [foldr]. rewrite lookup_insert. destruct (decide (r = q)) as [->|Hr].
    + rewrite decide_True; [done|]. left.
    + rewrite IH. destruct (decide (q ∈ rs)) as [H1|H1].
      * rewrite decide_True; [done|]. by right.
      * rewrite decide_False; [done|].
        intros [->|H2]%elem_of_cons; done.
Qed.

Lemma lookup_mkdirs (s : fs) (p q : path) :
  mkdirs s p !! q = if decide (q `prefix_of` p) then Some Dir else s !! q.
Proof.
  unfold mkdirs. rewrite lookup_foldr_insert_dir.
  case_decide as H1; case_decide as H2; try done.
  - apply elem_of_prefixes in H1. done.
  - exfalso. apply H1, elem_of_prefixes, H2.
Qed.

(** ** Primitive operations *)

Lemma existsb_false_elem {A} (f : A -> bool) (l : list A) (x : A) :
  existsb f l = false -> x ∈ l -> f x = false.
Proof.
  intros H Hx. destruct (f x) eqn:E; [|done].
  rewrite <- H. symmetry. apply existsb_exists. exists x.
  by rewrite <- list_elem_of_In.
Qed.

Lemma mkdir_ok (s : fs) (p : path) :
  existsb (is_file_at s) (prefixes p) = false ->
  mkdir p s = (mkdirs s p, Ok tt).
Proof.
  intros H. unfold mkdir. rewrite H.
  by rewrite (existsb_false_elem _ _ p H) by by apply elem_of_prefixes.
Qed.

Lemma mkdir_fail (s : fs) (p : path) :
  existsb (is_file_at s) (prefixes p) = true ->
  exists e, mkdir p s = (s, Raise e).
Proof.
  intros H. unfold mkdir. rewrite H. destruct (is_file_at s p); eauto.
Qed.

Lemma mkdirs_file (s : fs) (p q : path) (c : content) :
  existsb (is_file_at s) (prefixes p) = false ->
  s !! q = Some (File c) -> mkdirs s p !! q = Some (File c).
Proof.
  intros H Hq. rewrite lookup_mkdirs. case_decide as Hp; [|done].
  apply elem_of_prefixes in Hp.
  pose proof (existsb_false_elem _ _ _ H Hp) as Hf.
  unfold is_file_at in Hf. by rewrite Hq in Hf.
Qed.

Lemma parent_length (p : path) : p ≠ [] -> S (List.length (parent p)) = List.length p.
Proof.
  intros H. destruct (exists_last H) as (q & n & ->).
  rewrite parent_snoc, length_app. simpl. lia.
Qed.

Lemma not_prefix_parent (p : path) : p ≠ [] -> ¬ p `prefix_of` parent p.
Proof.
  intros H Hp. apply prefix_length in Hp.
  pose proof (parent_length p H). lia.
Qed.

Lemma write_file_ok (s : fs) (p : path) (c : content) :
  is_dir s p = false -> s !! parent p = Some Dir ->
  write_file p c s = (<[p := File c]> s, Ok tt).
Proof.
  unfold write_file, is_dir. intros H ->.
  by destruct (s !! p) as [[]|].
Qed.

Lemma write_file_mkdirs (s : fs) (p : path) (c : content) :
  p ≠ [] -> is_dir s p = false ->
  write_file p c (mkdirs s (parent p))
  = (<[p := File c]> (mkdirs s (parent p)), Ok tt).
Proof.
  intros Hne Hd. apply write_file_ok.
  - unfold is_dir in *. rewrite lookup_mkdirs.
    rewrite decide_False by by apply not_prefix_parent. done.
  - rewrite lookup_mkdirs. by rewrite decide_True.
Qed.

Lemma writable_spec (s : fs) (dst : path) :
  writable s dst = true <->
  dst ≠ [] /\ is_dir s dst = false
  /\ existsb (is_file_at s) (prefixes (parent dst)) = false.
Proof.
  unfold writable. rewrite !andb_true_iff, !negb_true_iff, bool_decide_eq_true.
  tauto.
Qed.

(** ** The columnar filter *)

Lemma select_map {A} (f : A -> bool) (xs : list A) :
  select xs (map f xs) = List.filter f xs.
Proof.
  induction xs as [|x xs IH]; [done|]. simpl. rewrite IH. done.
Qed.

Lemma ior_map {A} (f g : A -> bool) (xs : list A) :
  ior (map f xs) (map g xs) = map (fun x => f x || g x) xs.
Proof.
  unfold ior. induction xs as [|x xs IH]; [done|]. simpl. by rewrite IH.
Qed.

Lemma any_map {A} (f : A -> bool) (xs : list A) :
  any (map f xs) = existsb f xs.
Proof.
  unfold any. induction xs as [|x xs IH]; [done|]. simpl. by rewrite IH.
Qed.

Lemma filter_parquet_run (s : fs) (src dst : path) (K : gset Z)
    (keep_negative : bool) (df : DataFrame) :
  s !! src = Some (File (Table df)) ->
  existsb (is_file_at s) (prefixes (parent dst)) = false ->
  _filter_parquet src dst K keep_negative s
  = match getitem df "concept_id" with
    | Ok ids =>
        write_file dst (Table (loc df (mask_of ids K keep_negative)))
          (mkdirs s (parent dst))
    | Raise e => (mkdirs s (parent dst), Raise e)
    end.
Proof.
  intros Hsrc Hmk. unfold _filter_parquet.
  rewrite (bind_ok _ _ _ _ _ (mkdir_ok _ _ Hmk)).
  assert (read_parquet src (mkdirs s (parent dst))
          = (mkdirs s (parent dst), Ok df)) as Hr.
  { unfold read_parquet. by rewrite (mkdirs_file _ _ _ _ Hmk Hsrc). }
  rewrite (bind_ok _ _ _ _ _ Hr). cbv beta.
  destruct (getitem df "concept_id") as [ids|e]; [|done].
  rewrite bind_lift_ok. cbv beta zeta. unfold mask_of, to_parquet.
  destruct keep_negative; cbn [andb]; [|done].
  rewrite bind_unfold, (bind_lift_ok ids). cbv beta.
  destruct (any (eq_scalar ids (-1))); done.
Qed.

Lemma any_sentinel (i : nat) (df : DataFrame) :
  any (eq_scalar (map (fun r => nth i r CNull) (rows df)) (-1))
  = has_sentinel i df.
Proof. unfold eq_scalar. by rewrite map_map, any_map. Qed.

Lemma mask_of_rows (K : gset Z) (keep_negative : bool) (i : nat)
    (df : DataFrame) :
  select (rows df)
    (mask_of (map (fun r => nth i r CNull) (rows df)) K keep_negative)
  = List.filter (row_kept K keep_negative i df) (rows df).
Proof.
  unfold mask_of. rewrite any_sentinel. unfold isin, eq_scalar.
  rewrite !map_map.
  destruct (keep_negative && has_sentinel i df) eqn:E.
  - rewrite ior_map, select_map. apply filter_ext. intros r.
    unfold row_kept. by rewrite E.
  - rewrite select_map. apply filter_ext. intros r.
    unfold row_kept. rewrite E. cbn [andb]. by rewrite orb_false_r.
Qed.

(** C2. On a source table with a [concept_id] column, [_filter_parquet]
    writes the source's columns unchanged and exactly the rows whose
    concept id is in the keep-set, together with the rows whose concept id
    is -1 when [keep_negative] is set and such a row exists; the rows keep
    the source's order and multiplicity. *)
Theorem filter_parquet_rows (s : fs) (src dst : path) (K : gset Z)
    (keep_negative : bool) (df : DataFrame) (i : nat) :
  s !! src = Some (File (Table df)) ->
  index_of "concept_id" (columns df) = Some i ->
  writable s dst = true ->
  _filter_parquet src dst K keep_negative s
  = (<[dst := File (Table {| columns := columns df;
                             rows := List.filter
                                       (row_kept K keep_negative i df)
                                       (rows df) |})]>
       (mkdirs s (parent dst)), Ok tt).
Proof.
  intros Hsrc Hi (Hne & Hd & Hmk)%writable_spec.
  rewrite (filter_parquet_run _ _ _ _ _ _ Hsrc Hmk).
  unfold getitem. rewrite Hi.
  rewrite (write_file_mkdirs _ _ _ Hne Hd).
  unfold loc. cbn [columns rows]. by rewrite mask_of_rows.
Qed.

Lemma filter_parquet_rows_witness :
  _filter_parquet ["S"; "a"; "generate"; "train_data.parquet"]
    ["T"; "a"; "generate"; "train_data.parquet"] Demo.K true Demo.tree
  = (<[["T"; "a"; "generate"; "train_data.parquet"] :=
         File (Table {| columns := columns Demo.table;
                        rows := List.filter (row_kept Demo.K true 1 Demo.table)
                                  (rows Demo.table) |})]>
       (mkdirs Demo.tree (parent ["T"; "a"; "generate"; "train_data.parquet"])),
     Ok tt)
  /\ List.filter (row_kept Demo.K true 1 Demo.table) (rows Demo.table)
     = [[CStr "r0"; CInt 0]; [CStr "r1"; CInt (-1)]; [CStr "r3"; CInt 1];
        [CStr "r4"; CInt (-1)]].
Proof.
  split.
  - apply (filter_parquet_rows Demo.tree _ _ Demo.K true Demo.table 1);
      vm_compute; reflexivity.
  - vm_compute; reflexivity.
Defined.

Lemma index_of_None (label : string) (labels : list string) :
  index_of label labels = None <-> label ∉ labels.
Proof.
  induction labels as [|l labels IH]; simpl.
  - split; [intros _; apply not_elem_of_nil|done].
  - rewrite not_elem_of_cons. destruct (String.eqb_spec label l) as [->|Hne].
    + split; [done|]. intros [? _]. done.
    + destruct (index_of label labels); simpl.
      * split; [done|]. intros [_ H]. by apply IH in H.
      * split; [|done]. intros _. split; [done|]. by apply IH.
Qed.

(** C7. On a source table without a [concept_id] column, [_filter_parquet]
    raises, whatever the keep-set and the flag; when the destination
    directory can be created the exception is the [KeyError] of the column
    lookup, and no table is written. *)
Theorem filter_parquet_no_column (s : fs) (src dst : path) (K : gset Z)
    (keep_negative : bool) (df : DataFrame) :
  s !! src = Some (File (Table df)) ->
  "concept_id" ∉ columns df ->
  is_raise (snd (_filter_parquet src dst K keep_negative s)) = true
  /\ (existsb (is_file_at s) (prefixes (parent dst)) = false ->
      _filter_parquet src dst K keep_negative s
      = (mkdirs s (parent dst), Raise (KeyError "concept_id"))).
Proof.
  intros Hsrc Hcol%index_of_None.
  assert (existsb (is_file_at s) (prefixes (parent dst)) = false ->
          _filter_parquet src dst K keep_negative s
          = (mkdirs s (parent dst), Raise (KeyError "concept_id"))) as Hrun.
  { intros Hmk. rewrite (filter_parquet_run _ _ _ _ _ _ Hsrc Hmk).
    unfold getitem. by rewrite Hcol. }
  split; [|done].
  destruct (existsb (is_file_at s) (prefixes (parent dst))) eqn:Hmk.
  - destruct (mkdir_fail _ _ Hmk) as [e He].
    unfold _filter_parquet. by rewrite (bind_raise _ _ _ _ _ He).
  - by rewrite Hrun.
Qed.

Lemma filter_parquet_no_column_witness :
  is_raise (snd (_filter_parquet ["S"; "t.parquet"] ["T"; "t.parquet"]
                   Demo.K true
                   (<[["S"; "t.parquet"] :=
                        File (Table {| columns := ["input"];
                                       rows := [[CStr "r0"]] |})]>
                      Demo.tree))) = true.
Proof.
  refine (proj1 (filter_parquet_no_column _ _ _ _ _
                   {| columns := ["input"]; rows := [[CStr "r0"]] |} _ _)).
  - vm_compute; reflexivity.
  - cbn [columns]. rewrite list_elem_of_singleton. discriminate.
Defined.

Lemma ior_all_false (mask other : list bool) :
  List.length mask = List.length other -> any other = false ->
  ior mask other = mask.
Proof.
  unfold ior, any. revert other.
  induction mask as [|b mask IH]; intros [|c other]; simpl; try done.
  intros [= Hlen] [-> Hany]%orb_false_iff.
  rewrite orb_false_r. f_equal. by apply IH.
Qed.

(** C10. [_filter_parquet] and its variant without the
    [(df["concept_id"] == -1).any()] guard leave the same filesystem and
    return the same result, on every filesystem and for every argument. *)
Theorem filter_parquet_guard_redundant (s : fs) (src dst : path)
    (K : gset Z) (keep_negative : bool) :
  _filter_parquet src dst K keep_negative s
  = _filter_parquet_unguarded src dst K keep_negative s.
Proof.
  unfold _filter_parquet, _filter_parquet_unguarded.
  rewrite !(bind_unfold (mkdir _)).
  destruct (mkdir (parent dst) s) as [s1 [[]|e]]; [|done].
  rewrite !(bind_unfold (read_parquet _)).
  destruct (read_parquet src s1) as [s2 [df|e]]; [|done].
  destruct (getitem df "concept_id") as [ids|e]; [|done].
  rewrite !(bind_lift_ok ids). cbv beta zeta.
  destruct keep_negative; [|done].
  rewrite !(bind_unfold _ _ s2). unfold lift. cbv beta iota.
  destruct (any (eq_scalar ids (-1))) eqn:Hany; [done|].
  unfold mret, M_ret.
  rewrite ior_all_false; [done| |done].
  unfold isin, eq_scalar. by rewrite !length_map.
Qed.

(** ** The record filter *)

Lemma write_file_inv (s s' : fs) (p : path) (c : content) :
  write_file p c s = (s', Ok tt) -> s' = <[p := File c]> s.
Proof.
  unfold write_file. intros H.
  destruct (s !! p) as [[]|]; destruct (s !! parent p) as [[]|];
    by simplify_eq.
Qed.

Lemma write_file_raise (s s' : fs) (p : path) (c : content) (e : exn) :
  write_file p c s = (s', Raise e) -> s' = s.
Proof.
  unfold write_file. intros H.
  destruct (s !! p) as [[]|]; destruct (s !! parent p) as [[]|];
    by simplify_eq.
Qed.

Lemma concept_id_step {A} (v : pyval) (k : Z -> M A) (s : fs) :
  (field ← lift (get v "concept_id" (PInt (-1))) ;
   concept_id ← lift (int field) ; k concept_id) s
  = match concept_id_of v with
    | Ok z => k z s
    | Raise e => (s, Raise e)
    end.
Proof.
  destruct v; try done. cbn [get concept_id_of]. rewrite bind_lift_ok.
  destruct (assoc "concept_id" items) as [field|]; cbn [default]; [|done].
  unfold id. by destruct (int field).
Qed.

Lemma record_loop (dst : path) (K : gset Z) (ls : list line)
    (acc : list line) (s : fs) :
  s !! dst = Some (File (Text acc)) ->
  for_ ls (fun line =>
    if is_blank line then mret tt
    else
      record ← json_loads line ;
      field ← lift (get record "concept_id" (PInt (-1))) ;
      concept_id ← lift (int field) ;
      if bool_decide (concept_id ∈ K)
      then write dst (json_dumps record)
      else mret tt) s
  = (<[dst := File (Text (acc ++ (Json <$> (scan K ls).1)))]> s,
     (scan K ls).2).
Proof.
  revert acc s. induction ls as [|l ls IH]; intros acc s Hdst.
  - cbn. rewrite app_nil_r, insert_id; done.
  - cbn [for_]. rewrite bind_unfold. destruct l as [|v|]; cbn [is_blank].
    + unfold mret at 1, M_ret at 1. cbn [scan]. by apply IH.
    + cbn [json_loads]. rewrite bind_ret, concept_id_step. cbn [scan].
      destruct (concept_id_of v) as [z|e].
      * destruct (scan K ls) as [out r] eqn:Hscan.
        destruct (bool_decide (z ∈ K)).
        -- unfold write, json_dumps. rewrite Hdst.
           rewrite (IH (acc ++ [Json v])) by apply lookup_insert_eq.
           rewrite insert_insert_eq. cbn.
           by rewrite <- app_assoc.
        -- unfold mret at 1, M_ret at 1. by rewrite (IH acc) by done.
      * cbn. rewrite app_nil_r, insert_id; done.
    + cbn. rewrite app_nil_r, insert_id; done.
Qed.

Lemma metadata_run_file (s : fs) (src dst : path) (K : gset Z)
    (c : content) :
  s !! src = Some (File c) ->
  src ≠ dst ->
  existsb (is_file_at s) (prefixes (parent dst)) = false ->
  _write_filtered_metadata src dst K s
  = match write_file dst (Text []) (mkdirs s (parent dst)) with
    | (s2, Ok _) =>
        (<[dst := File (Text (Json <$> (scan_file K c).1))]> s2,
         (scan_file K c).2)
    | (s2, Raise e) => (s2, Raise e)
    end.
Proof.
  set (ls := lines_of c).
  intros Hsrc Hne Hmk. unfold _write_filtered_metadata.
  rewrite (bind_ok _ _ _ _ _ (mkdir_ok _ _ Hmk)). cbv beta.
  pose proof (mkdirs_file _ _ _ _ Hmk Hsrc) as Hsrc1.
  assert (open_r src (mkdirs s (parent dst))
          = (mkdirs s (parent dst), Ok tt)) as Hr.
  { unfold open_r. by rewrite Hsrc1. }
  rewrite (bind_ok _ _ _ _ _ Hr). cbv beta.
  rewrite bind_unfold. unfold open_w.
  destruct (write_file dst (Text []) (mkdirs s (parent dst)))
    as [s2 [[]|e]] eqn:Hw; [|done].
  apply write_file_inv in Hw. subst s2.
  assert (readlines src (<[dst := File (Text [])]> (mkdirs s (parent dst)))
          = (<[dst := File (Text [])]> (mkdirs s (parent dst)),
             Ok (ls, end_of c))) as Hl.
  { unfold readlines. rewrite lookup_insert_ne by done. by rewrite Hsrc1. }
  rewrite (bind_ok _ _ _ _ _ Hl). cbn [fst snd]. rewrite bind_unfold.
  rewrite (record_loop dst K ls []) by apply lookup_insert_eq.
  unfold scan_file. fold ls. cbn [fst snd app].
  by destruct (scan K ls).2 as [[]|e].
Qed.

Lemma scan_file_text (K : gset Z) (ls : list line) :
  scan_file K (Text ls) = scan K ls.
Proof.
  unfold scan_file. cbn [lines_of end_of].
  destruct (scan K ls) as [out [[]|e]]; done.
Qed.

Lemma metadata_run (s : fs) (src dst : path) (K : gset Z) (ls : list line) :
  s !! src = Some (File (Text ls)) ->
  src ≠ dst ->
  existsb (is_file_at s) (prefixes (parent dst)) = false ->
  _write_filtered_metadata src dst K s
  = match write_file dst (Text []) (mkdirs s (parent dst)) with
    | (s2, Ok _) =>
        (<[dst := File (Text (Json <$> (scan K ls).1))]> s2, (scan K ls).2)
    | (s2, Raise e) => (s2, Raise e)
    end.
Proof.
  intros Hsrc Hne Hmk. rewrite (metadata_run_file _ _ _ _ _ Hsrc Hne Hmk).
  by rewrite scan_file_text.
Qed.

Lemma metadata_run_writable (s : fs) (src dst : path) (K : gset Z)
    (ls : list line) :
  s !! src = Some (File (Text ls)) ->
  src ≠ dst ->
  writable s dst = true ->
  _write_filtered_metadata src dst K s
  = (<[dst := File (Text (Json <$> (scan K ls).1))]> (mkdirs s (parent dst)),
     (scan K ls).2).
Proof.
  intros Hsrc Hne (Hnil & Hd & Hmk)%writable_spec.
  rewrite (metadata_run _ _ _ _ _ Hsrc Hne Hmk).
  rewrite (write_file_mkdirs _ _ _ Hnil Hd). by rewrite insert_insert_eq.
Qed.

Lemma scan_app_readable (K : gset Z) (pre rest : list line) :
  forallb readable pre = true ->
  scan K (pre ++ rest)
  = (List.filter (member K) (records pre) ++ (scan K rest).1, (scan K rest).2).
Proof.
  induction pre as [|l pre IH]; intros Hpre.
  - cbn. by destruct (scan K rest).
  - cbn in Hpre. apply andb_true_iff in Hpre as [Hl Hpre].
    specialize (IH Hpre). destruct l as [|v|]; cbn in Hl |- *; try done.
    unfold member. destruct (concept_id_of v) as [z|e]; [|done].
    rewrite IH. by destruct (bool_decide (z ∈ K)).
Qed.

Lemma scan_readable (K : gset Z) (ls : list line) :
  forallb readable ls = true ->
  scan K ls = (List.filter (member K) (records ls), Ok tt).
Proof.
  intros H. rewrite <- (app_nil_r ls) at 1.
  rewrite (scan_app_readable _ _ _ H). cbn. by rewrite app_nil_r.
Qed.

Lemma kept_sublist (K : gset Z) (ls : list line) :
  (Json <$> List.filter (member K) (records ls)) `sublist_of` ls.
Proof.
  induction ls as [|l ls IH]; [done|].
  destruct l as [|v|]; cbn; try by apply sublist_cons.
  destruct (member K v); cbn; [by apply sublist_skip|by apply sublist_cons].
Qed.

Lemma scan_sound (K : gset Z) (ls : list line) :
  (Json <$> (scan K ls).1) `sublist_of` ls
  /\ Forall (fun v => member K v = true) (scan K ls).1.
Proof.
  induction ls as [|l ls [IH1 IH2]]; [by split|].
  destruct l as [|v|]; cbn [scan].
  - split; [by apply sublist_cons|done].
  - unfold member at 1. destruct (concept_id_of v) as [z|e] eqn:Hv.
    + destruct (scan K ls) as [out r]. cbn [fst] in *.
      case_bool_decide as Hz.
      * split; [by apply sublist_skip|]. constructor; [|done].
        unfold member. rewrite Hv. by apply bool_decide_eq_true.
      * split; [by apply sublist_cons|done].
    + split; [apply sublist_nil_l|done].
  - split; [apply sublist_nil_l|done].
Qed.

(** C1. For every keep-set and every source file, the file that
    [_write_filtered_metadata] writes holds records only: a subsequence of
    the source's lines (so no blank line, no record that is not in the
    source, and the source's order), each with its concept id (-1 when the
    field is absent) in the keep-set. When every non-blank line of the
    source decodes to an object whose [concept_id] is absent or an integer,
    the call returns normally and the output is exactly the source's records
    with concept id in the keep-set: one output line for each such source
    line, the same record, in the source's order. *)
Theorem write_filtered_metadata_exact (s : fs) (src dst : path)
    (K : gset Z) (ls : list line) :
  s !! src = Some (File (Text ls)) ->
  src ≠ dst ->
  writable s dst = true ->
  exists (out : list pyval) (r : result unit),
    _write_filtered_metadata src dst K s
    = (<[dst := File (Text (Json <$> out))]> (mkdirs s (parent dst)), r)
    /\ (Json <$> out) `sublist_of` ls
    /\ (Blank ∉ (Json <$> out))
    /\ Forall (fun v => member K v = true) out
    /\ (forallb readable ls = true ->
        out = List.filter (member K) (records ls) /\ r = Ok tt).
Proof.
  intros Hsrc Hne Hw. exists (scan K ls).1, (scan K ls).2.
  split; [by apply metadata_run_writable|].
  split; [apply scan_sound|].
  split; [rewrite list_elem_of_fmap; by intros (v & ? & _)|].
  split; [apply scan_sound|].
  intros Hls. by rewrite (scan_readable _ _ Hls).
Qed.

Lemma write_filtered_metadata_exact_witness :
  let src := ["S"; "a"; "generate"; "metadata.jsonl"] in
  let dst := ["T"; "a"; "generate"; "metadata.jsonl"] in
  _write_filtered_metadata src dst Demo.K Demo.tree
  = (<[dst := File (Text [Json (Demo.record 0); Json (Demo.record 1)])]>
       (mkdirs Demo.tree (parent dst)), Ok tt).
Proof.
  intros src dst.
  destruct (write_filtered_metadata_exact Demo.tree src dst Demo.K
              Demo.metadata)
    as (out & r & Hrun & _ & _ & _ & Hexact).
  - vm_compute; reflexivity.
  - discriminate.
  - vm_compute; reflexivity.
  - destruct Hexact as [-> ->]; [vm_compute; reflexivity|].
    rewrite Hrun. do 4 f_equal.
Defined.

Lemma scan_undecodable (K : gset Z) (pre post : list line) (bad : line) :
  undecodable bad = true ->
  is_raise (scan K (pre ++ bad :: post)).2 = true.
Proof.
  intros Hbad. induction pre as [|l pre IH].
  - destruct bad as [|[]|]; done.
  - destruct l as [|v|]; cbn [app scan]; try done.
    destruct (concept_id_of v); [|done].
    by destruct (scan K (pre ++ bad :: post)).
Qed.

Lemma scan_stops (K : gset Z) (bad : line) (post : list line) :
  undecodable bad = true ->
  scan K (bad :: post) = ([], Raise (decode_error bad)).
Proof. destruct bad as [|[]|]; done. Qed.

(** C6. When a non-blank line of the source does not decode as an object,
    [_write_filtered_metadata] raises. Up to the first such line the file
    is filtered as usual; nothing after it is read or written: the output
    holds the kept records of the lines before it, and the exception is the
    decoding error of that line. *)
Theorem write_filtered_metadata_aborts (s : fs) (src dst : path)
    (K : gset Z) (pre post : list line) (bad : line) :
  s !! src = Some (File (Text (pre ++ bad :: post))) ->
  src ≠ dst ->
  undecodable bad = true ->
  is_raise (snd (_write_filtered_metadata src dst K s)) = true
  /\ (writable s dst = true ->
      forallb readable pre = true ->
      _write_filtered_metadata src dst K s
      = (<[dst := File (Text (Json <$> List.filter (member K) (records pre)))]>
           (mkdirs s (parent dst)),
         Raise (decode_error bad))).
Proof.
  intros Hsrc Hne Hbad. split.
  - destruct (existsb (is_file_at s) (prefixes (parent dst))) eqn:Hmk.
    + destruct (mkdir_fail _ _ Hmk) as [e He].
      unfold _write_filtered_metadata. by rewrite (bind_raise _ _ _ _ _ He).
    + rewrite (metadata_run _ _ _ _ _ Hsrc Hne Hmk).
      destruct (write_file dst (Text []) (mkdirs s (parent dst)))
        as [s2 [[]|e]]; [|done].
      by apply scan_undecodable.
  - intros Hw Hpre. rewrite (metadata_run_writable _ _ _ _ _ Hsrc Hne Hw).
    rewrite (scan_app_readable _ _ _ Hpre), (scan_stops _ _ _ Hbad). cbn.
    by rewrite app_nil_r.
Qed.

Lemma write_filtered_metadata_aborts_witness :
  let src := ["S"; "a"; "generate"; "metadata.jsonl"] in
  let dst := ["T"; "a"; "generate"; "metadata.jsonl"] in
  let s := <[src := File (Text ([Json (Demo.record 1); Json (Demo.record 7)]
                                ++ Json (PList []) :: [Json (Demo.record 0)]))]>
             Demo.tree in
  _write_filtered_metadata src dst Demo.K s
  = (<[dst := File (Text (Json <$> List.filter (member Demo.K)
                            (records [Json (Demo.record 1);
                                      Json (Demo.record 7)])))]>
       (mkdirs s (parent dst)),
     Raise AttributeError).
Proof.
  intros src dst s.
  refine (proj2 (write_filtered_metadata_aborts s src dst Demo.K
                   [Json (Demo.record 1); Json (Demo.record 7)]
                   [Json (Demo.record 0)] (Json (PList [])) _ _ _) _ _).
  - apply lookup_insert_eq.
  - discriminate.
  - reflexivity.
  - vm_compute; reflexivity.
  - vm_compute; reflexivity.
Defined.

(** C4, as the code has it. A record without a [concept_id] field is
    filtered as if the field were -1: it is written when -1 is in the
    keep-set and dropped otherwise, and the loop goes on with the next
    line. A record whose [concept_id] is present but is not accepted by
    [int()] makes [_write_filtered_metadata] raise the exception of
    [int()]; the output then holds the kept records of the lines before
    it. *)
Theorem concept_id_absent_or_malformed (s : fs) (src dst : path)
    (K : gset Z) (pre post : list line) (items : list (string * pyval)) :
  s !! src = Some (File (Text (pre ++ Json (PDict items) :: post))) ->
  src ≠ dst ->
  writable s dst = true ->
  forallb readable pre = true ->
  (assoc "concept_id" items = None ->
   _write_filtered_metadata src dst K s
   = (<[dst := File (Text (Json <$>
                             (List.filter (member K) (records pre)
                              ++ (if bool_decide ((-1)%Z ∈ K)
                                  then [PDict items] else [])
                              ++ (scan K post).1)))]>
        (mkdirs s (parent dst)),
      (scan K post).2))
  /\ (forall field e,
        assoc "concept_id" items = Some field -> int field = Raise e ->
        _write_filtered_metadata src dst K s
        = (<[dst := File (Text (Json <$>
                                  List.filter (member K) (records pre)))]>
             (mkdirs s (parent dst)),
           Raise e)).
Proof.
  intros Hsrc Hne Hw Hpre.
  rewrite (metadata_run_writable _ _ _ _ _ Hsrc Hne Hw).
  rewrite (scan_app_readable _ _ _ Hpre). cbn [scan concept_id_of]. split.
  - intros ->. destruct (scan K post) as [out r].
    by destruct (bool_decide ((-1)%Z ∈ K)).
  - intros field e -> ->. cbn. by rewrite app_nil_r.
Qed.

Lemma concept_id_absent_or_malformed_witness :
  let src := ["S"; "a"; "generate"; "metadata.jsonl"] in
  let dst := ["T"; "a"; "generate"; "metadata.jsonl"] in
  _write_filtered_metadata src dst Demo.K
    (<[src := File (Text ([Json (Demo.record 1)]
                          ++ Json (PDict [("text", PStr "t")])
                          :: [Json (Demo.record 0)]))]> Demo.tree)
  = (<[dst := File (Text (Json <$>
                            (List.filter (member Demo.K)
                               (records [Json (Demo.record 1)])
                             ++ (if bool_decide ((-1)%Z ∈ Demo.K)
                                 then [PDict [("text", PStr "t")]] else [])
                             ++ (scan Demo.K [Json (Demo.record 0)]).1)))]>
       (mkdirs (<[src := File (Text ([Json (Demo.record 1)]
                                     ++ Json (PDict [("text", PStr "t")])
                                     :: [Json (Demo.record 0)]))]> Demo.tree)
          (parent dst)),
     (scan Demo.K [Json (Demo.record 0)]).2).
Proof.
  intros src dst.
  refine (proj1 (concept_id_absent_or_malformed _ src dst Demo.K
                   [Json (Demo.record 1)] [Json (Demo.record 0)]
                   [("text", PStr "t")] _ _ _ _) _).
  - apply lookup_insert_eq.
  - discriminate.
  - vm_compute; reflexivity.
  - vm_compute; reflexivity.
  - reflexivity.
Defined.

(** C4, as the claim states it, fails: a [concept_id] that is not a number
    is not read as -1. With -1 outside the keep-set the record is not
    dropped; the filter raises [ValueError] on it and the record after it,
    whose concept id is in the keep-set, is never written. *)
Lemma malformed_concept_id_raises :
  let src := ["S"; "a"; "generate"; "metadata.jsonl"] in
  let dst := ["T"; "a"; "generate"; "metadata.jsonl"] in
  Demo.malformed !! src
  = Some (File (Text [Json (PDict [("concept_id", PStr "n/a")]);
                      Json (Demo.record 0)]))
  /\ bool_decide ((-1)%Z ∈ Demo.K) = false
  /\ snd (_write_filtered_metadata src dst Demo.K Demo.malformed)
     = Raise ValueError
  /\ fst (_write_filtered_metadata src dst Demo.K Demo.malformed) !! dst
     = Some (File (Text [])).
Proof. repeat split; vm_compute; reflexivity. Qed.

(** ** Footprints of the operations *)

Section footprints.
Implicit Types (D W : path -> Prop) (s : fs).

Lemma change_refl D W s : change D W s s.
Proof. intros q. by left. Qed.

Lemma change_trans D W s1 s2 s3 :
  change D W s1 s2 -> change D W s2 s3 -> change D W s1 s3.
Proof.
  intros H12 H23 q.
  destruct (H12 q) as [E1|[(HD & Hn & Hd)|(HW & Hn & c & Hc)]],
           (H23 q) as [E2|[(HD' & Hn' & Hd')|(HW' & Hn' & c' & Hc')]].
  - left. congruence.
  - right; left. rewrite <- E1. done.
  - right; right. rewrite <- E1. eauto.
  - right; left. rewrite E2. done.
  - congruence.
  - congruence.
  - right; right. rewrite E2. eauto.
  - congruence.
  - right; right. eauto.
Qed.

Lemma change_mono D W D' W' s s' :
  (forall q, D q -> D' q) -> (forall q, W q -> W' q) ->
  change D W s s' -> change D' W' s s'.
Proof.
  intros HD HW H q. destruct (H q) as [?|[(? & ? & ?)|(? & ? & ?)]];
    [by left|right; left|right; right]; eauto.
Qed.

Lemma footprint_mono {A} (m : M A) D W D' W' :
  (forall q, D q -> D' q) -> (forall q, W q -> W' q) ->
  footprint m D W -> footprint m D' W'.
Proof. intros HD HW H s s' r Hm. eapply change_mono; eauto. Qed.

Lemma footprint_ret {A} (a : A) D W : footprint (mret a) D W.
Proof. intros s s' r [= <- _]. apply change_refl. Qed.

Lemma footprint_raise {A} e D W : footprint (raise e : M A) D W.
Proof. intros s s' r [= <- _]. apply change_refl. Qed.

Lemma footprint_lift {A} (x : result A) D W : footprint (lift x) D W.
Proof. intros s s' r [= <- _]. apply change_refl. Qed.

Lemma footprint_bind {A B} (m : M A) (f : A -> M B) D W :
  footprint m D W -> (forall a, footprint (f a) D W) ->
  footprint (m ≫= f) D W.
Proof.
  intros Hm Hf s s' r. rewrite bind_unfold.
  destruct (m s) as [s1 [a|e]] eqn:E.
  - intros H. eapply change_trans; [by eapply Hm|by eapply Hf].
  - intros [= <- _]. by eapply Hm.
Qed.

Lemma footprint_for {A} (xs : list A) (body : A -> M unit) D W :
  (forall x, x ∈ xs -> footprint (body x) D W) ->
  footprint (for_ xs body) D W.
Proof.
  induction xs as [|x xs IH]; intros H; cbn [for_].
  - apply footprint_ret.
  - apply footprint_bind; [apply H; left|].
    intros _. apply IH. intros y Hy. apply H. by right.
Qed.

Lemma footprint_read {A} (m : M A) D W :
  (forall s, fst (m s) = s) -> footprint m D W.
Proof.
  intros H s s' r Hm. specialize (H s). rewrite Hm in H. cbn in H.
  subst. apply change_refl.
Qed.

Lemma footprint_exists p D W : footprint (exists_ p) D W.
Proof. by apply footprint_read. Qed.

Lemma footprint_is_file p D W : footprint (is_file p) D W.
Proof. by apply footprint_read. Qed.

Lemma footprint_iterdir p D W : footprint (iterdir p) D W.
Proof.
  apply footprint_read. intros s. unfold iterdir.
  by destruct (s !! p) as [[]|].
Qed.

Lemma footprint_open_r p D W : footprint (open_r p) D W.
Proof.
  apply footprint_read. intros s. unfold open_r.
  by destruct (s !! p) as [[]|].
Qed.

Lemma footprint_readlines p D W : footprint (readlines p) D W.
Proof.
  apply footprint_read. intros s. unfold readlines.
  by destruct (s !! p) as [[]|].
Qed.

Lemma footprint_read_parquet p D W : footprint (read_parquet p) D W.
Proof.
  apply footprint_read. intros s. unfold read_parquet.
  by destruct (s !! p) as [[[]|]|].
Qed.

Lemma footprint_json_loads l D W : footprint (json_loads l) D W.
Proof. apply footprint_read. by destruct l. Qed.

Lemma footprint_mkdir p W :
  footprint (mkdir p) (fun q => q `prefix_of` p) W.
Proof.
  intros s s' r. unfold mkdir.
  destruct (is_file_at s p); [intros [= <- _]; apply change_refl|].
  destruct (existsb (is_file_at s) (prefixes p)) eqn:E;
    intros [= <- _]; [apply change_refl|].
  intros q. rewrite lookup_mkdirs. case_decide as Hq; [|by left].
  pose proof (existsb_false_elem _ _ q E) as Hf.
  rewrite elem_of_prefixes in Hf. specialize (Hf Hq).
  unfold is_file_at in Hf. destruct (s !! q) as [[]|]; try done.
  - by left.
  - right; left. done.
Qed.

Lemma footprint_write_file p c D :
  footprint (write_file p c) D (fun q => q = p).
Proof.
  intros s s' r. unfold write_file.
  destruct (s !! p) as [[c0|]|] eqn:Hp;
    destruct (s !! parent p) as [[]|];
    intros [= <- _]; try apply change_refl.
  all: intros q; destruct (decide (q = p)) as [->|Hq];
    [right; right; rewrite lookup_insert_eq, Hp; eauto
    |left; by rewrite lookup_insert_ne].
Qed.

Lemma footprint_write p l D : footprint (write p l) D (fun q => q = p).
Proof.
  intros s s' r. unfold write.
  destruct (s !! p) as [[[]|]|] eqn:Hp;
    intros [= <- _]; try apply change_refl.
  intros q; destruct (decide (q = p)) as [->|Hq];
    [right; right; rewrite lookup_insert_eq, Hp; eauto
    |left; by rewrite lookup_insert_ne].
Qed.

Lemma footprint_copy2 src dst D :
  footprint (copy2 src dst) D
    (fun q => q = dst \/ q = dst ++ [name src]).
Proof.
  intros s s' r. unfold copy2.
  destruct (_ && _); [intros [= <- _]; apply change_refl|].
  destruct (s !! src) as [[c|]|];
    [|intros [= <- _]; apply change_refl..].
  intros H. eapply change_mono; [done| |by eapply footprint_write_file].
  cbv beta. intros q ->. destruct (is_dir s dst); auto.
Qed.
End footprints.

(** ** Footprints of the script *)

Ltac footprint_step :=
  first
    [ apply footprint_ret | apply footprint_raise | apply footprint_lift
    | apply footprint_exists | apply footprint_is_file
    | apply footprint_iterdir | apply footprint_open_r
    | apply footprint_readlines | apply footprint_read_parquet
    | apply footprint_json_loads ].

Lemma footprint_write_filtered_metadata (src dst : path) (K : gset Z) :
  footprint (_write_filtered_metadata src dst K)
    (fun q => q `prefix_of` (parent dst)) (fun q => q = dst).
Proof.
  unfold _write_filtered_metadata.
  apply footprint_bind; [apply footprint_mkdir|intros _].
  apply footprint_bind; [footprint_step|intros _].
  apply footprint_bind; [apply footprint_write_file|intros _].
  apply footprint_bind; [footprint_step|intros fin].
  apply footprint_bind; [|intros _; footprint_step].
  apply footprint_for. intros l _. destruct (is_blank l); [footprint_step|].
  apply footprint_bind; [footprint_step|intros record].
  apply footprint_bind; [footprint_step|intros field].
  apply footprint_bind; [footprint_step|intros cid].
  destruct (bool_decide _); [apply footprint_write|footprint_step].
Qed.

Lemma footprint_filter_parquet (src dst : path) (K : gset Z) (kn : bool) :
  footprint (_filter_parquet src dst K kn)
    (fun q => q `prefix_of` (parent dst)) (fun q => q = dst).
Proof.
  unfold _filter_parquet.
  apply footprint_bind; [apply footprint_mkdir|intros _].
  apply footprint_bind; [footprint_step|intros df].
  apply footprint_bind; [footprint_step|intros ids]. cbv zeta.
  apply footprint_bind; [|intros mask; apply footprint_write_file].
  destruct kn; [|footprint_step].
  apply footprint_bind; [footprint_step|intros ids'].
  destruct (any _); [|footprint_step].
  apply footprint_bind; [footprint_step|intros ids'']. footprint_step.
Qed.

Lemma footprint_mirror_misc_files (src_dir dst_dir : path)
    (handled : gset string) :
  footprint (_mirror_misc_files src_dir dst_dir handled)
    (fun q => q `prefix_of` dst_dir)
    (fun q => exists n, (n ∉ handled)
                        /\ (q = dst_dir ++ [n] \/ q = (dst_dir ++ [n]) ++ [n])).
Proof.
  unfold _mirror_misc_files.
  apply footprint_bind; [footprint_step|intros items].
  apply footprint_for. intros item _.
  case_bool_decide as Hh; [footprint_step|].
  apply footprint_bind; [footprint_step|intros [|]]; [|footprint_step].
  apply footprint_bind; [apply footprint_mkdir|intros _].
  eapply footprint_mono;
    [| |apply (footprint_copy2 _ _ (fun q => q `prefix_of` dst_dir))];
    [done|].
  cbv beta. intros q Hq. exists (name item). split; [done|]. done.
Qed.

Lemma prefix_snoc_under (d q : path) (n : string) :
  q = d ++ [n] \/ q = (d ++ [n]) ++ [n] -> d `prefix_of` q.
Proof.
  intros [->| ->]; [by apply prefix_app_r|].
  rewrite <- app_assoc. by apply prefix_app_r.
Qed.

Lemma footprint_subset_generate (sb db : path) (K : gset Z) (kn : bool) :
  footprint (subset_generate sb db K kn)
    (fun q => q `prefix_of` (db ++ ["generate"]))
    (fun q => db ++ ["generate"] `prefix_of` q).
Proof.
  unfold subset_generate. cbv zeta.
  apply footprint_bind; [footprint_step|intros [|]]; [|footprint_step].
  apply footprint_bind; [footprint_step|intros b1].
  apply footprint_bind.
  { destruct b1; [|footprint_step].
    apply footprint_bind; [|intros _; footprint_step].
    eapply footprint_mono; [| |apply footprint_write_filtered_metadata];
      cbv beta; intros q.
    - by rewrite parent_snoc.
    - intros ->. by apply prefix_app_r. }
  intros h1. apply footprint_bind; [footprint_step|intros b2].
  apply footprint_bind.
  { destruct b2; [|footprint_step].
    apply footprint_bind; [|intros _; footprint_step].
    eapply footprint_mono; [| |apply footprint_filter_parquet];
      cbv beta; intros q.
    - by rewrite parent_snoc.
    - intros ->. by apply prefix_app_r. }
  intros h2.
  eapply footprint_mono; [| |apply footprint_mirror_misc_files]; [done|].
  cbv beta. intros q (n & _ & Hq). by eapply prefix_snoc_under.
Qed.

Lemma footprint_subset_inference (sb db : path) (K : gset Z) :
  footprint (subset_inference sb db K)
    (fun q => q `prefix_of` (db ++ ["inference"]))
    (fun q => db ++ ["inference"] `prefix_of` q).
Proof.
  unfold subset_inference. cbv zeta.
  apply footprint_bind; [footprint_step|intros [|]]; [|footprint_step].
  apply footprint_bind; [footprint_step|intros b1].
  apply footprint_bind.
  { destruct b1; [|footprint_step].
    apply footprint_bind; [|intros _; footprint_step].
    eapply footprint_mono; [| |apply footprint_filter_parquet];
      cbv beta; intros q.
    - by rewrite parent_snoc.
    - intros ->. by apply prefix_app_r. }
  intros h1.
  eapply footprint_mono; [| |apply footprint_mirror_misc_files]; [done|].
  cbv beta. intros q (n & _ & Hq). by eapply prefix_snoc_under.
Qed.

Lemma footprint_subset_single_directory (sb db : path) (K : gset Z)
    (kn : bool) :
  footprint (subset_single_directory sb db K kn)
    (fun q => exists loc, q `prefix_of` (db ++ [loc]))
    (fun q => db `prefix_of` q).
Proof.
  unfold subset_single_directory. apply footprint_bind; [|intros _].
  - eapply footprint_mono; [| |apply footprint_subset_generate];
      cbv beta; intros q Hq; [eauto|].
    etrans; [|done]. by apply prefix_app_r.
  - eapply footprint_mono; [| |apply footprint_subset_inference];
      cbv beta; intros q Hq; [eauto|].
    etrans; [|done]. by apply prefix_app_r.
Qed.

Lemma footprint_main (a : args) :
  footprint (main a)
    (fun q => exists x loc, x ∈ subdirs a
                            /\ q `prefix_of` (target_root a ++ [x; loc]))
    (fun q => exists x, x ∈ subdirs a /\ (target_root a ++ [x]) `prefix_of` q).
Proof.
  unfold main. cbv zeta. apply footprint_for. intros x Hx.
  apply footprint_bind; [footprint_step|intros b].
  destruct (negb b); [footprint_step|].
  apply footprint_bind; [|intros _; footprint_step].
  eapply footprint_mono; [| |apply footprint_subset_single_directory];
    cbv beta; intros q.
  - intros [loc Hq]. exists x, loc. split; [done|].
    by rewrite <- app_assoc in Hq.
  - eauto.
Qed.

(** ** Paths that cannot meet *)

Lemma prefix_snoc_eq (p : path) (m n : string) :
  p ++ [m] `prefix_of` p ++ [n] -> m = n.
Proof.
  intros H. apply prefix_app_inv in H. by apply prefix_cons_inv_1 in H.
Qed.

Lemma apart_app (p q r r' : path) : apart p q -> apart (p ++ r) (q ++ r').
Proof.
  intros [H1 H2]. split; intros H.
  - destruct (prefix_weak_total p q (q ++ r')) as [?|?]; try done.
    + etrans; [|exact H]. by apply prefix_app_r.
    + by apply prefix_app_r.
  - destruct (prefix_weak_total p q (p ++ r)) as [?|?]; try done.
    + by apply prefix_app_r.
    + etrans; [|exact H]. by apply prefix_app_r.
Qed.

Lemma siblings_apart (p : path) (m n : string) :
  m ≠ n -> apart (p ++ [m]) (p ++ [n]).
Proof. intros Hne. split; intros H%prefix_snoc_eq; done. Qed.

Lemma change_outside (D W : path -> Prop) (s s' : fs) (q : path) :
  change D W s s' -> ¬ D q -> ¬ W q -> s' !! q = s !! q.
Proof. intros H HD HW. destruct (H q) as [?|[[? _]|[? _]]]; done. Qed.

(** A path strictly inside one subtree is left alone by a change made near
    a subtree apart from it. *)
Lemma change_apart (d : path) (D W : path -> Prop) (s s' : fs) (q d' : path) :
  change D W s s' ->
  (forall x, D x -> x `prefix_of` d) -> (forall x, W x -> d `prefix_of` x) ->
  apart d' d -> d' `prefix_of` q ->
  s' !! q = s !! q.
Proof.
  intros H HD HW [Ha1 Ha2] Hq. eapply change_outside; [done| |].
  - intros Hx%HD. apply Ha1. by etrans.
  - intros Hx%HW.
    destruct (prefix_weak_total d' d q) as [?|?]; done.
Qed.

(** ** Skipped sub-locations *)

Lemma subset_generate_absent (sb db : path) (K : gset Z) (kn : bool) (s : fs) :
  s !! (sb ++ ["generate"]) = None ->
  subset_generate sb db K kn s = (s, Ok tt).
Proof.
  intros H. unfold subset_generate. cbv zeta.
  rewrite bind_unfold. unfold exists_. rewrite H.
  by rewrite bool_decide_eq_false_2 by by intros [].
Qed.

Lemma subset_inference_absent (sb db : path) (K : gset Z) (s : fs) :
  s !! (sb ++ ["inference"]) = None ->
  subset_inference sb db K s = (s, Ok tt).
Proof.
  intros H. unfold subset_inference. cbv zeta.
  rewrite bind_unfold. unfold exists_. rewrite H.
  by rewrite bool_decide_eq_false_2 by by intros [].
Qed.

(** C9. When [src_base/generate] does not exist, the call is exactly the
    [inference] block: nothing is raised, filtered or mirrored for
    [generate], and no path at or below [dst_base/generate] changes. When
    [src_base/inference] does not exist, and source and destination
    directories are apart, the call is exactly the [generate] block and no
    path at or below [dst_base/inference] changes. When both are missing the
    call returns normally and changes nothing. *)
Theorem missing_sublocation_skipped (sb db : path) (K : gset Z) (kn : bool)
    (s : fs) :
  (s !! (sb ++ ["generate"]) = None ->
   subset_single_directory sb db K kn s = subset_inference sb db K s
   /\ (forall q, (db ++ ["generate"]) `prefix_of` q ->
                 (subset_single_directory sb db K kn s).1 !! q = s !! q))
  /\ (apart sb db -> s !! (sb ++ ["inference"]) = None ->
      subset_single_directory sb db K kn s = subset_generate sb db K kn s
      /\ (forall q, (db ++ ["inference"]) `prefix_of` q ->
                    (subset_single_directory sb db K kn s).1 !! q = s !! q))
  /\ (s !! (sb ++ ["generate"]) = None ->
      s !! (sb ++ ["inference"]) = None ->
      subset_single_directory sb db K kn s = (s, Ok tt)).
Proof.
  assert (s !! (sb ++ ["generate"]) = None ->
          subset_single_directory sb db K kn s = subset_inference sb db K s)
    as Hgen.
  { intros Hg. unfold subset_single_directory.
    by rewrite (bind_ok _ _ _ _ _ (subset_generate_absent _ db K kn _ Hg)). }
  split; [|split].
  - intros Hg. split; [by apply Hgen|]. intros q Hq. rewrite (Hgen Hg).
    destruct (subset_inference sb db K s) as [s' r] eqn:E.
    apply footprint_subset_inference in E. cbn [fst].
    eapply (change_apart (db ++ ["inference"])); [exact E| | | |exact Hq];
      [done|done|]. by apply siblings_apart.
  - intros Hap Hi.
    destruct (subset_generate sb db K kn s) as [s1 r] eqn:E.
    pose proof (footprint_subset_generate _ _ _ _ _ _ _ E) as Hch.
    assert (subset_single_directory sb db K kn s = (s1, r)) as Hrun.
    { unfold subset_single_directory. destruct r as [[]|e].
      - rewrite (bind_ok _ _ _ _ _ E). apply subset_inference_absent.
        rewrite <- Hi.
        eapply (change_apart (db ++ ["generate"])); [exact Hch| | | |done];
          [done|done|]. by apply apart_app.
      - by rewrite (bind_raise _ _ _ _ _ E). }
    split; [done|]. intros q Hq. rewrite Hrun. cbn [fst].
    eapply (change_apart (db ++ ["generate"])); [exact Hch| | | |exact Hq];
      [done|done|]. by apply siblings_apart.
  - intros Hg Hi. rewrite (Hgen Hg). by apply subset_inference_absent.
Qed.

Lemma missing_sublocation_skipped_witness :
  subset_single_directory ["S"; "b"] ["T"; "b"] Demo.K true Demo.tree
  = (Demo.tree, Ok tt).
Proof.
  refine (proj2 (proj2 (missing_sublocation_skipped ["S"; "b"] ["T"; "b"]
                          Demo.K true Demo.tree)) _ _);
    vm_compute; reflexivity.
Defined.

(** ** A missing subdirectory *)

Lemma for_app {A} (xs ys : list A) (body : A -> M unit) (s : fs) :
  for_ (xs ++ ys) body s
  = match for_ xs body s with
    | (s1, Ok _) => for_ ys body s1
    | (s1, Raise e) => (s1, Raise e)
    end.
Proof.
  revert s. induction xs as [|x xs IH]; intros s; [done|].
  cbn [app for_]. rewrite !bind_unfold.
  destruct (body x s) as [s1 [[]|e]]; [apply IH|done].
Qed.

Lemma prefix_two_snoc (p : path) (n x loc : string) :
  p ++ [n] `prefix_of` p ++ [x; loc] -> n = x.
Proof.
  intros H. apply prefix_app_inv in H. by apply prefix_cons_inv_1 in H.
Qed.

Lemma prefix_same_length_eq (p q r : path) :
  p `prefix_of` r -> q `prefix_of` r -> List.length p = List.length q ->
  p = q.
Proof.
  intros Hp Hq Hlen.
  destruct (prefix_weak_total _ _ _ Hp Hq) as [H|H];
    [|symmetry]; apply prefix_length_eq; try done; lia.
Qed.

(** C5. Let the requested names be [pre ++ name :: post], and let the run
    over [pre] alone end in state [s1] with result [r]. When
    [source_root/name] does not exist in [s1], the run over the whole list
    ends in that same state [s1]: with the error of [pre] when [pre] already
    failed, and otherwise with [FileNotFoundError] for [source_root/name].
    Nothing is done for [name] or for a name of [post]. The path is missing
    in [s1] whenever it is missing at the start and the two roots are apart;
    and when [name] is not in [pre], no path at or below [target_root/name]
    differs from the start. *)
Theorem main_source_not_found (a : args) (pre post : list string)
    (name : string) (s s1 : fs) (r : result unit) :
  subdirs a = pre ++ name :: post ->
  main (with_subdirs a pre) s = (s1, r) ->
  (s1 !! (source_root a ++ [name]) = None ->
   main a s
   = (s1, match r with
          | Ok _ => Raise (FileNotFoundError (source_root a ++ [name]))
          | Raise e => Raise e
          end))
  /\ (apart (source_root a) (target_root a) ->
      s !! (source_root a ++ [name]) = None ->
      s1 !! (source_root a ++ [name]) = None)
  /\ (name ∉ pre ->
      forall q, (target_root a ++ [name]) `prefix_of` q -> s1 !! q = s !! q).
Proof.
  intros Hsub Hpre.
  pose proof (footprint_main _ _ _ _ Hpre) as Hch. cbn [with_subdirs subdirs
    target_root] in Hch.
  split; [|split].
  - intros Hnone. revert Hpre. unfold main. cbv zeta.
    cbn [with_subdirs subdirs source_root target_root concept_ids
         drop_negative]. rewrite Hsub, for_app. intros ->.
    destruct r as [[]|e]; [|done]. cbn [for_].
    rewrite bind_unfold. rewrite (bind_unfold (exists_ _)).
    unfold exists_. rewrite Hnone.
    by rewrite bool_decide_eq_false_2 by by intros [].
  - intros Hap Hnone. rewrite <- Hnone.
    eapply change_outside; [exact Hch| |]; cbv beta.
    + intros (x & loc & _ & H).
      by apply (apart_app _ _ [name] [x; loc]) in Hap as [? _].
    + intros (x & _ & H).
      by apply (apart_app _ _ [name] [x]) in Hap as [_ ?].
  - intros Hnotin q Hq.
    eapply change_outside; [exact Hch| |]; cbv beta.
    + intros (x & loc & Hx & H). apply Hnotin.
      assert (target_root a ++ [name] `prefix_of` target_root a ++ [x; loc])
        as ->%prefix_two_snoc by by etrans. done.
    + intros (x & Hx & H). apply Hnotin.
      assert (target_root a ++ [x] = target_root a ++ [name]) as E.
      { eapply prefix_same_length_eq; [done|done|].
        rewrite !length_app. done. }
      by apply app_inv_head in E as [= <-].
Qed.

Lemma main_source_not_found_witness :
  let done_before := main (Demo.cli ["a"] false) Demo.tree in
  main (Demo.cli ["a"; "missing"; "b"] false) Demo.tree
  = (done_before.1,
     match done_before.2 with
     | Ok _ => Raise (FileNotFoundError ["S"; "missing"])
     | Raise e => Raise e
     end)
  /\ done_before.2 = Ok tt.
Proof.
  intros done_before. split.
  - refine (proj1 (main_source_not_found
                     (Demo.cli ["a"; "missing"; "b"] false) ["a"] ["b"]
                     "missing" Demo.tree done_before.1 done_before.2 _ _) _).
    + reflexivity.
    + apply surjective_pairing.
    + vm_compute; reflexivity.
  - vm_compute; reflexivity.
Defined.

(** ** The latent-eval table *)

Lemma mkdirs_lookup_child (s : fs) (p : path) :
  p ≠ [] -> mkdirs s (parent p) !! p = s !! p.
Proof.
  intros H. rewrite lookup_mkdirs.
  by rewrite decide_False by by apply not_prefix_parent.
Qed.

(** What a call of [_filter_parquet] on a source table leaves at [dst]:
    nothing new when it raises, the filtered table when it returns. *)
Lemma filter_parquet_outcome (s s' : fs) (src dst : path) (K : gset Z)
    (kn : bool) (df : DataFrame) (r : result unit) :
  s !! src = Some (File (Table df)) ->
  dst ≠ [] ->
  _filter_parquet src dst K kn s = (s', r) ->
  (s' !! dst = s !! dst /\ is_raise r = true)
  \/ (exists i, index_of "concept_id" (columns df) = Some i
        /\ s' !! dst
           = Some (File (Table {| columns := columns df;
                                  rows := List.filter (row_kept K kn i df)
                                            (rows df) |}))
        /\ r = Ok tt).
Proof.
  intros Hsrc Hne.
  destruct (existsb (is_file_at s) (prefixes (parent dst))) eqn:Hmk.
  - destruct (mkdir_fail _ _ Hmk) as [e He]. unfold _filter_parquet.
    rewrite (bind_raise _ _ _ _ _ He). intros [= <- <-]. by left.
  - rewrite (filter_parquet_run _ _ _ _ _ _ Hsrc Hmk). unfold getitem.
    destruct (index_of "concept_id" (columns df)) as [i|] eqn:Hi.
    + destruct (write_file dst _ (mkdirs s (parent dst)))
        as [s2 [[]|e]] eqn:Hw; intros [= <- <-].
      * right. exists i. split; [done|]. split; [|done].
        apply write_file_inv in Hw as ->. rewrite lookup_insert_eq.
        unfold loc. cbn [columns rows]. by rewrite mask_of_rows.
      * left. apply write_file_raise in Hw as ->.
        by rewrite mkdirs_lookup_child.
    + intros [= <- <-]. left. by rewrite mkdirs_lookup_child.
Qed.

Lemma kept_row_not_sentinel (K : gset Z) (i : nat) (df : DataFrame)
    (row : list cell) :
  (forall k, k ∈ K -> (0 <= k)%Z) ->
  row_kept K false i df row = true -> is_sentinel (cell_at i row) = false.
Proof.
  intros HK. unfold row_kept, cell_in, is_sentinel. cbn [andb].
  rewrite orb_false_r. destruct (cell_at i row) as [z| |]; try done.
  intros Hz%bool_decide_eq_true. apply HK in Hz.
  apply bool_decide_eq_false. lia.
Qed.

Lemma mirror_keeps_handled (src_dir dst_dir : path) (handled : gset string)
    (n : string) (s s' : fs) (r : result unit) :
  n ∈ handled ->
  _mirror_misc_files src_dir dst_dir handled s = (s', r) ->
  s' !! (dst_dir ++ [n]) = s !! (dst_dir ++ [n]).
Proof.
  intros Hn Hrun. apply footprint_mirror_misc_files in Hrun.
  eapply change_outside; [exact Hrun| |]; cbv beta.
  - intros H%prefix_length. rewrite length_app in H. cbn in H. lia.
  - intros (m & Hm & [E|E]).
    + by apply app_inv_head in E as [= ->].
    + apply (f_equal List.length) in E. rewrite !length_app in E.
      cbn in E. lia.
Qed.

(** C3. Let the source hold a table at [inference/latent_eval_data.parquet],
    let source and destination directories be apart and let the keep-set
    hold no negative number. Whatever [keep_negative] is, and whether the
    call returns or raises, the destination file
    [inference/latent_eval_data.parquet] is either as it was before the
    call, or it is the source table filtered by membership in the keep-set
    alone, and then no row of it has concept id -1. When the call returns
    normally it is the latter. *)
Theorem latent_eval_never_keeps_sentinel (sb db : path) (K : gset Z)
    (kn : bool) (s s' : fs) (r : result unit) (df : DataFrame) :
  (forall k, k ∈ K -> (0 <= k)%Z) ->
  apart sb db ->
  s !! (sb ++ ["inference"]) = Some Dir ->
  s !! ((sb ++ ["inference"]) ++ ["latent_eval_data.parquet"])
  = Some (File (Table df)) ->
  subset_single_directory sb db K kn s = (s', r) ->
  let dst := (db ++ ["inference"]) ++ ["latent_eval_data.parquet"] in
  let written :=
    exists i,
      index_of "concept_id" (columns df) = Some i
      /\ s' !! dst
         = Some (File (Table {| columns := columns df;
                                rows := List.filter (row_kept K false i df)
                                          (rows df) |}))
      /\ Forall (fun row => is_sentinel (cell_at i row) = false)
           (List.filter (row_kept K false i df) (rows df)) in
  (s' !! dst = s !! dst \/ written) /\ (r = Ok tt -> written).
Proof.
  intros HK Hap Hdir Hsrc Hrun dst written.
  unfold subset_single_directory in Hrun. rewrite bind_unfold in Hrun.
  destruct (subset_generate sb db K kn s) as [s1 r1] eqn:Hgen.
  pose proof (footprint_subset_generate _ _ _ _ _ _ _ Hgen) as Hch.
  assert (forall q, (db ++ ["inference"]) `prefix_of` q -> s1 !! q = s !! q)
    as Hdst1.
  { intros q Hq.
    eapply (change_apart (db ++ ["generate"])); [exact Hch| | | |exact Hq];
      [done|done|]. by apply siblings_apart. }
  assert (forall q, sb `prefix_of` q -> s1 !! q = s !! q) as Hsrc1.
  { intros q Hq.
    eapply (change_apart (db ++ ["generate"])); [exact Hch| | | |exact Hq];
      [done|done|]. rewrite <- (app_nil_r sb). by apply apart_app. }
  assert (s1 !! dst = s !! dst) as Hdst.
  { apply Hdst1. by apply prefix_app_r. }
  destruct r1 as [[]|e]; [|simplify_eq; by split; [left|]].
  revert Hrun. unfold subset_inference. cbv zeta.
  rewrite bind_unfold. unfold exists_ at 1.
  rewrite (Hsrc1 (sb ++ ["inference"])) by by apply prefix_app_r.
  rewrite Hdir, bool_decide_eq_true_2 by done.
  rewrite bind_unfold. unfold exists_ at 1.
  rewrite (Hsrc1 ((sb ++ ["inference"]) ++ ["latent_eval_data.parquet"]))
    by (rewrite <- app_assoc; by apply prefix_app_r).
  rewrite Hsrc, bool_decide_eq_true_2 by done.
  rewrite bind_unfold, (bind_unfold (_filter_parquet _ _ _ _)).
  destruct (_filter_parquet _ _ K false s1) as [s2 r2] eqn:Hfil.
  apply filter_parquet_outcome with (df := df) in Hfil;
    [|by rewrite Hsrc1 by (rewrite <- app_assoc; by apply prefix_app_r)
     |by destruct db].
  destruct Hfil as [[Hsame Hr]|(i & Hi & Hw & ->)].
  - destruct r2; [done|]. intros [= <- <-].
    split; [left|done]. fold dst in Hsame. congruence.
  - unfold mret, M_ret. intros Hmir.
    assert (written) as Hwritten.
    { exists i. split; [done|]. split.
      - unfold dst. erewrite mirror_keeps_handled; [exact Hw| |exact Hmir].
        set_solver.
      - apply Forall_forall. intros row [_ Hrow]%list_elem_of_In%filter_In.
        by eapply kept_row_not_sentinel. }
    by split; [right|].
Qed.

Lemma latent_eval_never_keeps_sentinel_witness :
  let run := subset_single_directory ["S"; "a"] ["T"; "a"] Demo.K true
               Demo.tree in
  (exists i,
     index_of "concept_id" (columns Demo.table) = Some i
     /\ run.1 !! ["T"; "a"; "inference"; "latent_eval_data.parquet"]
        = Some (File (Table {| columns := columns Demo.table;
                               rows := List.filter
                                         (row_kept Demo.K false i Demo.table)
                                         (rows Demo.table) |}))
     /\ Forall (fun row => is_sentinel (cell_at i row) = false)
          (List.filter (row_kept Demo.K false i Demo.table)
             (rows Demo.table)))
  /\ run.2 = Ok tt.
Proof.
  intros run.
  assert (run.2 = Ok tt) as Hok by (vm_compute; reflexivity).
  split; [|exact Hok].
  refine (proj2 (latent_eval_never_keeps_sentinel ["S"; "a"] ["T"; "a"]
                   Demo.K true Demo.tree run.1 run.2 Demo.table
                   _ _ _ _ _) Hok).
  - intros k Hk. unfold Demo.K in Hk.
    apply elem_of_union in Hk as [Hk|Hk]; apply elem_of_singleton in Hk; lia.
  - split; intros [k Hk]; discriminate.
  - vm_compute; reflexivity.
  - vm_compute; reflexivity.
  - apply surjective_pairing.
Defined.

(** ** Settling *)

Section settling.
Context (I : fs -> Prop).
Implicit Types (m : M unit) (P Q : fs -> Prop).

Lemma settles_ret : settles I (mret tt) (fun _ => True).
Proof.
  split.
  - done.
  - done.
  - intros s s' e _ [=].
  - intros s s' r Hs [= <- _]. done.
Qed.

Lemma settles_raise (e : exn) : settles I (raise e) (fun _ => False).
Proof.
  split.
  - intros s s' _ [=].
  - done.
  - intros s s' e' _ [= <- <-]. done.
  - intros s s' r Hs [= <- _]. done.
Qed.

Lemma settles_ext m m' P :
  (forall s, I s -> m s = m' s) -> settles I m' P -> settles I m P.
Proof.
  intros Heq [Hok Hfix Hfail Hinv]. split.
  - intros s s' Hs. rewrite (Heq s Hs). by apply Hok.
  - intros s Hs HP. rewrite (Heq s Hs). by apply Hfix.
  - intros s s' e Hs. rewrite (Heq s Hs). intros H.
    rewrite (Heq s') by by eapply Hinv. by eapply Hfail.
  - intros s s' r Hs. rewrite (Heq s Hs). by apply Hinv.
Qed.

Lemma settles_iff m P P' :
  (forall s, P s <-> P' s) -> settles I m P -> settles I m P'.
Proof.
  intros Heq [Hok Hfix Hfail Hinv]. split; try done.
  - intros s s' Hs H. apply Heq. by eapply Hok.
  - intros s Hs HP. apply Hfix; [done|]. by apply Heq.
Qed.

Lemma preserves_fix m P : settles I m P -> preserves I m P.
Proof.
  intros [_ Hfix _ _] s s' r Hs HP. rewrite (Hfix s Hs HP).
  by intros [= <- _].
Qed.

Lemma preserves_and m Q Q' :
  preserves I m Q -> preserves I m Q' ->
  preserves I m (fun s => Q s /\ Q' s).
Proof. intros H H' s s' r Hs [? ?] Hm. split; [eapply H|eapply H']; done. Qed.

Lemma preserves_seq m1 m2 Q :
  invariant I m1 -> preserves I m1 Q -> preserves I m2 Q ->
  preserves I (m1 ;; m2) Q.
Proof.
  intros Hinv H1 H2 s s' r Hs HQ. rewrite bind_unfold.
  destruct (m1 s) as [s1 [[]|e]] eqn:E1.
  - intros E2. eapply H2; [by eapply Hinv|by eapply H1|exact E2].
  - intros [= <- _]. by eapply H1.
Qed.

Lemma invariant_seq m1 m2 :
  invariant I m1 -> invariant I m2 -> invariant I (m1 ;; m2).
Proof.
  intros H1 H2 s s' r Hs. rewrite bind_unfold.
  destruct (m1 s) as [s1 [[]|e]] eqn:E1.
  - intros E2. eapply H2; [by eapply H1|exact E2].
  - intros [= <- _]. by eapply H1.
Qed.

Lemma settles_seq m1 m2 P1 P2 :
  settles I m1 P1 -> settles I m2 P2 -> preserves I m2 P1 ->
  settles I (m1 ;; m2) (fun s => P1 s /\ P2 s).
Proof.
  intros [Hok1 Hfix1 Hfail1 Hinv1] [Hok2 Hfix2 Hfail2 Hinv2] Hpres. split.
  - intros s s' Hs. rewrite bind_unfold.
    destruct (m1 s) as [s1 [[]|e]] eqn:E1; [|done]. intros E2.
    pose proof (Hinv1 _ _ _ Hs E1) as Hs1. split.
    + eapply Hpres; [exact Hs1|exact (Hok1 _ _ Hs E1)|exact E2].
    + exact (Hok2 _ _ Hs1 E2).
  - intros s Hs [HP1 HP2].
    rewrite (bind_ok _ _ _ _ _ (Hfix1 s Hs HP1)). by apply Hfix2.
  - intros s s' e Hs. rewrite bind_unfold.
    destruct (m1 s) as [s1 [[]|e1]] eqn:E1.
    + intros E2. pose proof (Hinv1 _ _ _ Hs E1) as Hs1.
      assert (P1 s') as HP1.
      { eapply Hpres; [exact Hs1|exact (Hok1 _ _ Hs E1)|exact E2]. }
      rewrite (bind_ok _ _ _ _ _ (Hfix1 s' (Hinv2 _ _ _ Hs1 E2) HP1)).
      exact (Hfail2 _ _ _ Hs1 E2).
    + intros [= <- <-]. by rewrite (bind_raise _ _ _ _ _ (Hfail1 _ _ _ Hs E1)).
  - by apply invariant_seq.
Qed.

Lemma invariant_for {A} (xs : list A) (body : A -> M unit) :
  (forall x, x ∈ xs -> invariant I (body x)) -> invariant I (for_ xs body).
Proof.
  induction xs as [|x xs IH]; intros H; cbn [for_].
  - intros s s' r Hs [= <- _]. done.
  - apply invariant_seq; [apply H; left|].
    apply IH. intros y Hy. apply H. by right.
Qed.

Lemma preserves_for {A} (xs : list A) (body : A -> M unit) Q :
  (forall x, x ∈ xs -> invariant I (body x)) ->
  (forall x, x ∈ xs -> preserves I (body x) Q) ->
  preserves I (for_ xs body) Q.
Proof.
  induction xs as [|x xs IH]; intros Hinv H; cbn [for_].
  - intros s s' r Hs HQ [= <- _]. done.
  - apply preserves_seq; [apply Hinv; left|apply H; left|].
    apply IH; intros y Hy; [apply Hinv|apply H]; by right.
Qed.

Lemma settles_for {A} (xs : list A) (body : A -> M unit)
    (P : A -> fs -> Prop) :
  (forall x, x ∈ xs -> settles I (body x) (P x)) ->
  (forall x y, x ∈ xs -> y ∈ xs -> preserves I (body y) (P x)) ->
  settles I (for_ xs body) (fun s => forall x, x ∈ xs -> P x s).
Proof.
  induction xs as [|x xs IH]; intros Hset Hpres; cbn [for_].
  - eapply settles_iff; [|apply settles_ret].
    intros s. split; [|done]. intros _ x Hx. by apply elem_of_nil in Hx.
  - apply (settles_iff _ (fun s => P x s /\ (forall y, y ∈ xs -> P y s)));
      [|apply settles_seq].
    + intros s. split.
      * intros [Hx Hxs] y [->|Hy]%elem_of_cons; [done|by apply Hxs].
      * intros H. split; [apply H; left|]. intros y Hy. apply H. by right.
    + apply Hset. left.
    + apply IH.
      * intros y Hy. apply Hset. by right.
      * intros y z Hy Hz. apply Hpres; by right.
    + apply preserves_for.
      * intros y Hy. apply (Hset y). by right.
      * intros y Hy. apply Hpres; [left|by right].
Qed.

Lemma preserves_footprint m D W Q :
  footprint m D W -> (forall s s', change D W s s' -> Q s -> Q s') ->
  preserves I m Q.
Proof. intros Hf H s s' r _ HQ Hm. eapply H; [by eapply Hf|done]. Qed.

End settling.

(** ** Writing one file, settled *)

Lemma all_dirs_no_file (s : fs) (d : path) :
  all_dirs s d -> existsb (is_file_at s) (prefixes d) = false.
Proof.
  intros H. destruct (existsb _ _) eqn:E; [|done].
  apply existsb_exists in E as (q & Hq%list_elem_of_In%elem_of_prefixes & Hf).
  unfold is_file_at in Hf. by rewrite (H q Hq) in Hf.
Qed.

Lemma all_dirs_mkdirs (s : fs) (d : path) : all_dirs s d -> mkdirs s d = s.
Proof.
  intros H. apply map_eq. intros q. rewrite lookup_mkdirs.
  case_decide as Hq; [|done]. by rewrite (H q Hq).
Qed.

Lemma mkdirs_all_dirs (s : fs) (d : path) : all_dirs (mkdirs s d) d.
Proof. intros q Hq. rewrite lookup_mkdirs. by rewrite decide_True. Qed.

Lemma mkdir_all_dirs (s : fs) (d : path) :
  all_dirs s d -> mkdir d s = (s, Ok tt).
Proof.
  intros H. rewrite (mkdir_ok _ _ (all_dirs_no_file _ _ H)).
  by rewrite (all_dirs_mkdirs _ _ H).
Qed.

Lemma mkdir_inv (s s' : fs) (d : path) (r : result unit) :
  mkdir d s = (s', r) ->
  (r = Ok tt /\ s' = mkdirs s d) \/ (is_raise r = true /\ s' = s).
Proof.
  unfold mkdir. destruct (is_file_at s d); [intros [= <- <-]; by right|].
  destruct (existsb _ _); intros [= <- <-]; [by right|by left].
Qed.

Lemma mkdir_ok_inv (s s' : fs) (d : path) :
  mkdir d s = (s', Ok tt) ->
  s' = mkdirs s d /\ existsb (is_file_at s) (prefixes d) = false.
Proof.
  unfold mkdir. destruct (is_file_at s d); [done|].
  destruct (existsb _ _); [done|]. by intros [= <-].
Qed.

Lemma all_dirs_insert (s : fs) (d p : path) (x : node) :
  ¬ p `prefix_of` d -> all_dirs s d -> all_dirs (<[p := x]> s) d.
Proof.
  intros Hp H q Hq. rewrite lookup_insert_ne; [by apply H|].
  by intros ->.
Qed.

Lemma not_prefix_snoc (d : path) (n : string) : ¬ (d ++ [n]) `prefix_of` d.
Proof.
  intros H%prefix_length. rewrite length_app in H. cbn in H. lia.
Qed.

Lemma write_file_fix (s : fs) (p : path) (c : content) :
  s !! p = Some (File c) -> s !! parent p = Some Dir ->
  write_file p c s = (s, Ok tt).
Proof.
  intros Hp Hd. unfold write_file. rewrite Hp, Hd. by rewrite insert_id.
Qed.

Lemma write_file_cases (s s' : fs) (p : path) (c : content)
    (r : result unit) :
  write_file p c s = (s', r) ->
  (r = Ok tt /\ s' = <[p := File c]> s /\ s !! parent p = Some Dir
   /\ is_dir s p = false)
  \/ (is_raise r = true /\ s' = s).
Proof.
  unfold write_file, is_dir.
  destruct (s !! p) as [[]|]; destruct (s !! parent p) as [[]|];
    intros [= <- <-]; auto.
Qed.

Lemma put_ok (dd : path) (n : string) (o : result content) (r : result unit)
    (s s' : fs) :
  put dd (dd ++ [n]) o r s = (s', Ok tt) -> put_done dd (dd ++ [n]) o r s'.
Proof.
  unfold put. rewrite bind_unfold.
  destruct (mkdir dd s) as [s1 [[]|e]] eqn:Hmk; [|done].
  apply mkdir_inv in Hmk as [[_ ->]|[[=] _]].
  destruct o as [c|e]; [|done]. rewrite bind_unfold.
  destruct (write_file _ c _) as [s2 [[]|e]] eqn:Hw; [|done].
  apply write_file_inv in Hw as ->. destruct r as [[]|e]; [|done].
  intros [= <-]. split; [|apply lookup_insert_eq].
  apply all_dirs_insert; [apply not_prefix_snoc|apply mkdirs_all_dirs].
Qed.

Lemma put_fix (dd : path) (n : string) (o : result content)
    (r : result unit) (s : fs) :
  put_done dd (dd ++ [n]) o r s -> put dd (dd ++ [n]) o r s = (s, Ok tt).
Proof.
  unfold put_done, put. destruct o as [c|e]; [|done].
  destruct r as [[]|e]; [|done]. intros [Hd Hp].
  rewrite (bind_ok _ _ _ _ _ (mkdir_all_dirs _ _ Hd)).
  rewrite (bind_ok _ _ s s tt); [done|].
  apply write_file_fix; [done|]. rewrite parent_snoc. by apply Hd.
Qed.

Lemma put_fail (dd : path) (n : string) (o : result content)
    (r : result unit) (s s' : fs) (e : exn) :
  put dd (dd ++ [n]) o r s = (s', Raise e) ->
  put dd (dd ++ [n]) o r s' = (s', Raise e).
Proof.
  intros Hrun. pose proof Hrun as Hrun'. revert Hrun'.
  unfold put. rewrite bind_unfold.
  destruct (mkdir dd s) as [s1 [[]|e1]] eqn:Hmk.
  2: { apply mkdir_inv in Hmk as [[[=] _]|[_ ->]]. intros [= <- <-].
       exact Hrun. }
  apply mkdir_inv in Hmk as [[_ ->]|[[=] _]].
  pose proof (mkdirs_all_dirs s dd) as Hd.
  destruct o as [c|e0].
  - rewrite bind_unfold.
    destruct (write_file _ c _) as [s2 [[]|e2]] eqn:Hw.
    + apply write_file_inv in Hw as ->. intros [= <- ->].
      assert (all_dirs (<[dd ++ [n] := File c]> (mkdirs s dd)) dd) as Hd'.
      { apply all_dirs_insert; [apply not_prefix_snoc|done]. }
      rewrite (bind_ok _ _ _ _ _ (mkdir_all_dirs _ _ Hd')).
      rewrite (bind_ok _ _ _ (<[dd ++ [n] := File c]> (mkdirs s dd)) tt);
        [done|].
      apply write_file_fix; [apply lookup_insert_eq|].
      rewrite parent_snoc. by apply Hd'.
    + pose proof Hw as Hw'. apply write_file_raise in Hw' as ->.
      intros [= <- <-].
      rewrite (bind_ok _ _ _ _ _ (mkdir_all_dirs _ _ Hd)).
      by rewrite (bind_raise _ _ _ _ _ Hw).
  - intros [= <- <-]. by rewrite (bind_ok _ _ _ _ _ (mkdir_all_dirs _ _ Hd)).
Qed.

Lemma footprint_put (dd p : path) (o : result content) (r : result unit) :
  footprint (put dd p o r) (fun q => q `prefix_of` dd) (fun q => q = p).
Proof.
  unfold put. apply footprint_bind; [apply footprint_mkdir|intros _].
  destruct o; [|footprint_step].
  apply footprint_bind; [apply footprint_write_file|intros _].
  footprint_step.
Qed.

Lemma settles_put (I : fs -> Prop) (dd : path) (n : string)
    (o : result content) (r : result unit) :
  invariant I (put dd (dd ++ [n]) o r) ->
  settles I (put dd (dd ++ [n]) o r) (put_done dd (dd ++ [n]) o r).
Proof.
  intros Hinv. split; [| | |done].
  - intros s s' _. apply put_ok.
  - intros s _. apply put_fix.
  - intros s s' e _. apply put_fail.
Qed.

Lemma not_prefix_snoc2 (d : path) (n m : string) :
  ¬ ((d ++ [n]) ++ [m]) `prefix_of` d.
Proof.
  intros H%prefix_length. rewrite !length_app in H. cbn in H. lia.
Qed.

Lemma snoc_ne_snoc2 (d : path) (n m k : string) :
  d ++ [n] ≠ (d ++ [m]) ++ [k].
Proof.
  intros H%(f_equal List.length). rewrite !length_app in H. cbn in H. lia.
Qed.

Lemma put_into_ok (dd : path) (n : string) (c : content) (s s' : fs) :
  put_into dd n c s = (s', Ok tt) -> put_into_done dd n c s'.
Proof.
  unfold put_into. rewrite bind_unfold.
  destruct (mkdir dd s) as [s1 [[]|e]] eqn:Hmk; [|done].
  apply mkdir_inv in Hmk as [[_ ->]|[[=] _]].
  unfold write_into, is_dir.
  destruct (mkdirs s dd !! (dd ++ [n])) as [[c0|]|] eqn:Hn;
    intros Hw; apply write_file_inv in Hw as ->.
  - split; [|right; apply lookup_insert_eq].
    apply all_dirs_insert; [apply not_prefix_snoc|apply mkdirs_all_dirs].
  - split.
    + apply all_dirs_insert; [apply not_prefix_snoc2|apply mkdirs_all_dirs].
    + left. rewrite lookup_insert_eq.
      by rewrite lookup_insert_ne by (symmetry; apply snoc_ne_snoc2).
  - split; [|right; apply lookup_insert_eq].
    apply all_dirs_insert; [apply not_prefix_snoc|apply mkdirs_all_dirs].
Qed.

Lemma put_into_fix (dd : path) (n : string) (c : content) (s : fs) :
  put_into_done dd n c s -> put_into dd n c s = (s, Ok tt).
Proof.
  intros [Hd H]. unfold put_into.
  rewrite (bind_ok _ _ _ _ _ (mkdir_all_dirs _ _ Hd)).
  unfold write_into, is_dir. destruct H as [[Hn Hnn]|Hn]; rewrite Hn.
  - apply write_file_fix; [done|]. by rewrite parent_snoc.
  - apply write_file_fix; [done|]. rewrite parent_snoc. by apply Hd.
Qed.

Lemma put_into_fail (dd : path) (n : string) (c : content) (s s' : fs)
    (e : exn) :
  put_into dd n c s = (s', Raise e) -> put_into dd n c s' = (s', Raise e).
Proof.
  intros Hrun. pose proof Hrun as Hrun'. revert Hrun'.
  unfold put_into. rewrite bind_unfold.
  destruct (mkdir dd s) as [s1 [[]|e1]] eqn:Hmk.
  2: { apply mkdir_inv in Hmk as [[[=] _]|[_ ->]]. intros [= <- <-].
       exact Hrun. }
  apply mkdir_inv in Hmk as [[_ ->]|[[=] _]].
  pose proof (mkdirs_all_dirs s dd) as Hd. intros Hw.
  assert (s' = mkdirs s dd) as ->.
  { unfold write_into in Hw. by apply write_file_raise in Hw. }
  by rewrite (bind_ok _ _ _ _ _ (mkdir_all_dirs _ _ Hd)).
Qed.

Lemma footprint_put_into (dd : path) (n : string) (c : content) :
  footprint (put_into dd n c) (fun q => q `prefix_of` dd)
    (fun q => q = dd ++ [n] \/ q = (dd ++ [n]) ++ [n]).
Proof.
  unfold put_into. apply footprint_bind; [apply footprint_mkdir|intros _].
  intros s s' r Hw. unfold write_into in Hw.
  eapply change_mono;
    [| |eapply (footprint_write_file _ _ (fun q => q `prefix_of` dd));
        exact Hw]; [done|].
  cbv beta. intros q ->. destruct (is_dir s (dd ++ [n])); auto.
Qed.

Lemma settles_put_into (I : fs -> Prop) (dd : path) (n : string)
    (c : content) :
  invariant I (put_into dd n c) ->
  settles I (put_into dd n c) (put_into_done dd n c).
Proof.
  intros Hinv. split; [| | |done].
  - intros s s' _. apply put_into_ok.
  - intros s _. apply put_into_fix.
  - intros s s' e _. apply put_into_fail.
Qed.

(** ** What a change cannot undo *)

Lemma change_dir (D W : path -> Prop) (s s' : fs) (q : path) :
  change D W s s' -> s !! q = Some Dir -> s' !! q = Some Dir.
Proof.
  intros H Hq. destruct (H q) as [E|[(_ & Hn & _)|(_ & Hn & _)]];
    congruence.
Qed.

Lemma change_file (D W : path -> Prop) (s s' : fs) (q : path) (c : content) :
  change D W s s' -> ¬ W q -> s !! q = Some (File c) ->
  s' !! q = Some (File c).
Proof.
  intros H HW Hq. destruct (H q) as [E|[(_ & Hn & _)|(? & _)]];
    [congruence|congruence|done].
Qed.

Lemma change_all_dirs (D W : path -> Prop) (s s' : fs) (d : path) :
  change D W s s' -> all_dirs s d -> all_dirs s' d.
Proof. intros H Hd q Hq. eapply change_dir; [done|by apply Hd]. Qed.

Lemma change_put_done (D W : path -> Prop) (s s' : fs) (dd p : path)
    (o : result content) (r : result unit) :
  change D W s s' -> ¬ W p ->
  put_done dd p o r s -> put_done dd p o r s'.
Proof.
  intros H HW. unfold put_done. destruct o as [c|]; [|done].
  destruct r; [|done]. intros [Hd Hp]. split.
  - by eapply change_all_dirs.
  - by eapply change_file.
Qed.

Lemma change_put_into_done (D W : path -> Prop) (s s' : fs) (dd : path)
    (n : string) (c : content) :
  change D W s s' -> ¬ W (dd ++ [n]) -> ¬ W ((dd ++ [n]) ++ [n]) ->
  put_into_done dd n c s -> put_into_done dd n c s'.
Proof.
  intros H HW1 HW2 [Hd Hp]. split; [by eapply change_all_dirs|].
  destruct Hp as [[Hn Hnn]|Hn].
  - left. split; [by eapply change_dir|by eapply change_file].
  - right. by eapply change_file.
Qed.

(** ** The script with source and destination apart *)

Lemma child_name_spec (p q : path) (n : string) :
  child_name p q = Some n <-> q = p ++ [n].
Proof.
  revert q. induction p as [|x p IH]; intros q.
  - destruct q as [|y [|z q]]; cbn; split; try done; by intros [= ->].
  - destruct q as [|y q]; cbn; [split; done|].
    case_decide as Hxy.
    + subst y. rewrite IH. split; [by intros ->|by intros [= ->]].
    + split; [done|]. by intros [= -> _].
Qed.

Lemma elem_of_listdir (s : fs) (p : path) (n : string) :
  n ∈ listdir s p <-> is_Some (s !! (p ++ [n])).
Proof.
  unfold listdir. rewrite elem_of_elements, elem_of_set_omap. split.
  - intros (q & Hq & ->%child_name_spec). by apply elem_of_dom.
  - intros H. exists (p ++ [n]). split; [by apply elem_of_dom|].
    by apply child_name_spec.
Qed.

Lemma listdir_agree (s t : fs) (p : path) :
  (forall n, s !! (p ++ [n]) = t !! (p ++ [n])) -> listdir s p = listdir t p.
Proof.
  intros H. unfold listdir. f_equal. apply set_eq. intros n.
  rewrite <- !elem_of_elements.
  change (n ∈ listdir s p <-> n ∈ listdir t p).
  by rewrite !elem_of_listdir, H.
Qed.

Lemma bind_ext_at {A : Type} (m : M A) (k k' : A -> M unit) (s : fs) :
  (forall s1 a, m s = (s1, Ok a) -> k a s1 = k' a s1) ->
  (m ≫= k) s = (m ≫= k') s.
Proof.
  intros H. rewrite !bind_unfold. destruct (m s) as [s1 [a|e]]; [|done].
  by apply H.
Qed.

Lemma for_ext_inv {A : Type} (I : fs -> Prop) (xs : list A)
    (body body' : A -> M unit) (s : fs) :
  (forall x s, x ∈ xs -> I s -> body x s = body' x s) ->
  (forall x, x ∈ xs -> invariant I (body' x)) ->
  I s -> for_ xs body s = for_ xs body' s.
Proof.
  revert s. induction xs as [|x xs IH]; intros s Heq Hinv Hs; [done|].
  cbn [for_]. rewrite !bind_unfold, (Heq x s) by (done || left).
  destruct (body' x s) as [s1 [[]|e]] eqn:E; [|done].
  apply IH.
  - intros y s' Hy. apply Heq. by right.
  - intros y Hy. apply Hinv. by right.
  - eapply (Hinv x); [left|exact Hs|exact E].
Qed.

Lemma bind_if_ret {A : Type} (b : bool) (m : M unit) (x y : A) (k : A -> M unit)
    (s : fs) :
  ((if b then m ;; mret x else mret y) ≫= k) s
  = (if b then m ;; k x else k y) s.
Proof.
  destruct b; [|done]. rewrite !bind_unfold.
  by destruct (m s) as [s1 [[]|e]].
Qed.

Lemma seq_lift_ok (m : M unit) (s : fs) : (m ;; lift (Ok tt)) s = m s.
Proof. rewrite bind_unfold. by destruct (m s) as [s1 [[]|e]]. Qed.

Lemma write_file_as (p : path) (c : content) (s : fs) :
  write_file p c s
  = match write_file p (Text []) s with
    | (_, Ok _) => (<[p := File c]> s, Ok tt)
    | (s2, Raise e) => (s2, Raise e)
    end.
Proof.
  unfold write_file.
  by destruct (s !! p) as [[]|]; destruct (s !! parent p) as [[]|].
Qed.

Lemma mkdirs_keeps (s : fs) (d q : path) (nd : node) :
  existsb (is_file_at s) (prefixes d) = false ->
  s !! q = Some nd -> mkdirs s d !! q = Some nd.
Proof.
  intros Hmk Hq. destruct nd as [c|]; [by apply mkdirs_file|].
  rewrite lookup_mkdirs. by case_decide.
Qed.

Lemma metadata_shape (s : fs) (K : gset Z) (src dd : path) (n : string)
    (nd : node) :
  s !! src = Some nd -> src ≠ dd ++ [n] ->
  _write_filtered_metadata src (dd ++ [n]) K s
  = put dd (dd ++ [n]) (metadata_plan K src nd).1 (metadata_plan K src nd).2 s.
Proof.
  intros Hsrc Hne.
  destruct (existsb (is_file_at s) (prefixes dd)) eqn:Hmk.
  - destruct (mkdir_fail _ _ Hmk) as [e He].
    unfold _write_filtered_metadata, put. rewrite parent_snoc.
    by rewrite !(bind_raise _ _ _ _ _ He).
  - destruct nd as [c|].
    + rewrite (metadata_run_file _ _ _ _ _ Hsrc Hne)
        by by rewrite parent_snoc.
      rewrite parent_snoc. unfold put. cbn [metadata_plan fst snd].
      rewrite (bind_ok _ _ _ _ _ (mkdir_ok _ _ Hmk)), bind_unfold.
      rewrite (write_file_as _ (Text (_ <$> _))).
      destruct (write_file (dd ++ [n]) (Text []) (mkdirs s dd))
        as [s2 [[]|e]] eqn:Hw; [|done].
      apply write_file_inv in Hw as ->. by rewrite insert_insert_eq.
    + unfold _write_filtered_metadata, put. rewrite parent_snoc.
      rewrite !(bind_ok _ _ _ _ _ (mkdir_ok _ _ Hmk)).
      cbn [metadata_plan fst]. rewrite bind_unfold. unfold open_r.
      by rewrite (mkdirs_keeps _ _ _ _ Hmk Hsrc).
Qed.

Lemma parquet_shape (s : fs) (K : gset Z) (kn : bool) (src dd : path)
    (n : string) (nd : node) :
  s !! src = Some nd ->
  _filter_parquet src (dd ++ [n]) K kn s
  = put dd (dd ++ [n]) (parquet_plan K kn src nd).1
      (parquet_plan K kn src nd).2 s.
Proof.
  intros Hsrc. cbn [parquet_plan fst snd].
  destruct (existsb (is_file_at s) (prefixes dd)) eqn:Hmk.
  - destruct (mkdir_fail _ _ Hmk) as [e He].
    unfold _filter_parquet, put. rewrite parent_snoc.
    by rewrite !(bind_raise _ _ _ _ _ He).
  - destruct nd as [[ls|df|b]|].
    2: { rewrite (filter_parquet_run _ _ _ _ _ _ Hsrc)
           by by rewrite parent_snoc.
         rewrite parent_snoc. unfold put.
         rewrite (bind_ok _ _ _ _ _ (mkdir_ok _ _ Hmk)).
         destruct (getitem df "concept_id"); [|done].
         by rewrite seq_lift_ok. }
    all: unfold _filter_parquet, put; rewrite parent_snoc;
      rewrite !(bind_ok _ _ _ _ _ (mkdir_ok _ _ Hmk));
      rewrite bind_unfold; unfold read_parquet;
      by rewrite (mkdirs_keeps _ _ _ _ Hmk Hsrc).
Qed.

Lemma for_map {A B : Type} (f : A -> B) (xs : list A) (body : B -> M unit) :
  for_ (map f xs) body = for_ xs (fun x => body (f x)).
Proof. induction xs as [|x xs IH]; [done|]. cbn. by rewrite IH. Qed.

Lemma closed_under_mono (dd dd' : path) (P : fs -> Prop) :
  dd' `prefix_of` dd -> closed_under dd P -> closed_under dd' P.
Proof.
  intros Hp H D W s s' Hch HW. eapply H; [done|].
  intros q Hq. apply HW. by etrans.
Qed.

Lemma closed_under_and (dd : path) (P Q : fs -> Prop) :
  closed_under dd P -> closed_under dd Q ->
  closed_under dd (fun s => P s /\ Q s).
Proof.
  intros HP HQ D W s s' Hch HW [? ?]. split; [eapply HP|eapply HQ]; done.
Qed.

Lemma closed_under_const (dd : path) (P : Prop) :
  closed_under dd (fun _ => P).
Proof. by intros D W s s' _ _. Qed.

Lemma closed_under_put_done (dd : path) (n : string) (o : result content)
    (r : result unit) :
  closed_under dd (put_done dd (dd ++ [n]) o r).
Proof.
  intros D W s s' Hch HW. eapply change_put_done; [done|].
  apply HW. by apply prefix_app_r.
Qed.

Lemma closed_under_put_into_done (dd : path) (n : string) (c : content) :
  closed_under dd (put_into_done dd n c).
Proof.
  intros D W s s' Hch HW. eapply change_put_into_done; [done| |];
    apply HW; [|rewrite <- app_assoc]; by apply prefix_app_r.
Qed.

Lemma closed_under_opt_put_done (src0 : fs) (sd dd : path) (n : string)
    (plan : path -> node -> result content * result unit) :
  closed_under dd (opt_put_done src0 sd dd n plan).
Proof.
  unfold opt_put_done. destruct (src0 !! (sd ++ [n]));
    [apply closed_under_put_done|apply closed_under_const].
Qed.

Lemma closed_under_mirror_item_done (src0 : fs) (sd dd : path)
    (handled : gset string) (n : string) :
  closed_under dd (mirror_item_done src0 sd dd handled n).
Proof.
  unfold mirror_item_done. destruct (bool_decide _);
    [apply closed_under_const|].
  destruct (src0 !! (sd ++ [n])) as [[c|]|];
    [apply closed_under_put_into_done|apply closed_under_const..].
Qed.

Lemma closed_under_mirror_done (src0 : fs) (sd dd : path)
    (handled : gset string) :
  closed_under dd (mirror_done src0 sd dd handled).
Proof.
  unfold mirror_done. destruct (src0 !! sd) as [[c|]|];
    [apply closed_under_const| |apply closed_under_const].
  intros D W s s' Hch HW H n Hn.
  eapply closed_under_mirror_item_done; [done|done|]. by apply H.
Qed.

Lemma footprint_mirror_item (src0 : fs) (sd dd : path)
    (handled : gset string) (n : string) :
  footprint (mirror_item src0 sd dd handled n) (fun q => q `prefix_of` dd)
    (fun q => q = dd ++ [n] \/ q = (dd ++ [n]) ++ [n]).
Proof.
  unfold mirror_item. destruct (bool_decide _); [footprint_step|].
  destruct (src0 !! (sd ++ [n])) as [[c|]|];
    [apply footprint_put_into|footprint_step..].
Qed.

Lemma footprint_opt_put (src0 : fs) (sd dd : path) (n : string)
    (plan : path -> node -> result content * result unit) :
  footprint (opt_put src0 sd dd n plan) (fun q => q `prefix_of` dd)
    (fun q => q = dd ++ [n]).
Proof.
  unfold opt_put. destruct (src0 !! (sd ++ [n]));
    [apply footprint_put|footprint_step].
Qed.

Section apart_roots.
Context (S T : path) (Hapart : apart S T) (src0 : fs).
Local Abbreviation I := (agree_under S src0).

Lemma lookup_under (s : fs) (p : path) :
  I s -> S `prefix_of` p -> s !! p = src0 !! p.
Proof. intros Hs Hp. symmetry. by apply Hs. Qed.

Lemma roots_differ (p q : path) :
  S `prefix_of` p -> T `prefix_of` q -> p ≠ q.
Proof.
  intros Hp Hq ->. destruct Hapart as [H1 H2].
  destruct (prefix_weak_total _ _ _ Hp Hq); done.
Qed.

Lemma invariant_near (m : M unit) (D W : path -> Prop) :
  footprint m D W ->
  (forall q, D q -> exists r, q `prefix_of` (T ++ r)) ->
  (forall q, W q -> T `prefix_of` q) ->
  invariant I m.
Proof.
  intros Hf HD HW s s' r Hs Hm q Hq. rewrite (Hs q Hq). symmetry.
  eapply change_outside; [by eapply Hf| |].
  - intros [r' Hr]%HD. destruct Hapart as [H1 H2].
    destruct (prefix_weak_total S T (T ++ r')); try done.
    + by etrans.
    + by apply prefix_app_r.
  - intros Hq'%HW. destruct Hapart as [H1 H2].
    destruct (prefix_weak_total S T q); done.
Qed.

Lemma near_prefix (dd q : path) :
  T `prefix_of` dd -> q `prefix_of` dd -> exists r, q `prefix_of` (T ++ r).
Proof. intros [r ->] Hq. by exists r. Qed.

Lemma invariant_put (dd : path) (n : string) (o : result content)
    (r : result unit) :
  T `prefix_of` dd -> invariant I (put dd (dd ++ [n]) o r).
Proof.
  intros HT. eapply invariant_near; [apply footprint_put| |]; cbv beta.
  - intros q. by apply near_prefix.
  - intros q ->. etrans; [done|]. by apply prefix_app_r.
Qed.

Lemma invariant_put_into (dd : path) (n : string) (c : content) :
  T `prefix_of` dd -> invariant I (put_into dd n c).
Proof.
  intros HT. eapply invariant_near; [apply footprint_put_into| |]; cbv beta.
  - intros q. by apply near_prefix.
  - intros q Hq%prefix_snoc_under. by etrans.
Qed.

Lemma settles_opt_put (sd dd : path) (n : string)
    (plan : path -> node -> result content * result unit) :
  T `prefix_of` dd ->
  settles I (opt_put src0 sd dd n plan) (opt_put_done src0 sd dd n plan).
Proof.
  intros HT. unfold opt_put, opt_put_done.
  destruct (src0 !! (sd ++ [n]));
    [by apply settles_put, invariant_put|apply settles_ret].
Qed.

Lemma settles_mirror_item (sd dd : path) (handled : gset string)
    (n : string) :
  T `prefix_of` dd ->
  settles I (mirror_item src0 sd dd handled n)
    (mirror_item_done src0 sd dd handled n).
Proof.
  intros HT. unfold mirror_item, mirror_item_done.
  destruct (bool_decide _); [apply settles_ret|].
  destruct (src0 !! (sd ++ [n])) as [[c|]|];
    [by apply settles_put_into, invariant_put_into|apply settles_ret..].
Qed.

Lemma mirror_item_shape (sd dd : path) (handled : gset string) (n : string)
    (s : fs) :
  S `prefix_of` sd -> T `prefix_of` dd -> I s ->
  (if bool_decide (name (sd ++ [n]) ∈ handled) then mret tt
   else
     f ← is_file (sd ++ [n]) ;
     if f : bool
     then mkdir dd ;; copy2 (sd ++ [n]) (dd ++ [name (sd ++ [n])])
     else mret tt) s
  = mirror_item src0 sd dd handled n s.
Proof.
  intros HS HT Hs. unfold mirror_item. rewrite name_snoc.
  destruct (bool_decide (n ∈ handled)); [done|].
  rewrite bind_unfold. unfold is_file, is_file_at.
  rewrite (lookup_under s (sd ++ [n])) by (done || by etrans;
    [|apply prefix_app_r]).
  destruct (src0 !! (sd ++ [n])) as [[c|]|] eqn:Hn; [|done..].
  unfold put_into. apply bind_ext_at. intros s1 [] [-> Hmk]%mkdir_ok_inv.
  unfold copy2, write_into. rewrite name_snoc.
  rewrite bool_decide_eq_false_2.
  2: { apply roots_differ; [by etrans; [|apply prefix_app_r]|].
       destruct (is_dir _ _); [rewrite <- app_assoc|];
         (etrans; [exact HT|by apply prefix_app_r]). }
  cbn [andb]. rewrite (mkdirs_file _ _ _ c Hmk); [done|].
  rewrite (lookup_under s (sd ++ [n])); [done|done|].
  etrans; [exact HS|by apply prefix_app_r].
Qed.

Lemma mirror_resolved (sd dd : path) (handled : gset string) (s : fs) :
  S `prefix_of` sd -> T `prefix_of` dd -> I s ->
  _mirror_misc_files sd dd handled s
  = match src0 !! sd with
    | Some Dir => for_ (listdir src0 sd) (mirror_item src0 sd dd handled) s
    | Some (File _) => (s, Raise (NotADirectoryError sd))
    | None => (s, Raise (FileNotFoundError sd))
    end.
Proof.
  intros HS HT Hs. unfold _mirror_misc_files. rewrite bind_unfold.
  unfold iterdir. rewrite (lookup_under s sd Hs HS).
  destruct (src0 !! sd) as [[c|]|]; [done| |done].
  rewrite (listdir_agree s src0).
  2: { intros n. apply lookup_under; [done|].
       etrans; [exact HS|by apply prefix_app_r]. }
  rewrite for_map. apply (for_ext_inv I); [| |done].
  - intros n s' _ Hs'. by apply mirror_item_shape.
  - intros n _. by apply settles_mirror_item.
Qed.

Lemma snoc_inj (d : path) (n m : string) : d ++ [n] = d ++ [m] -> n = m.
Proof. by intros [= ->]%app_inv_head. Qed.

Lemma snoc2_inj (d : path) (n m : string) :
  (d ++ [n]) ++ [n] = (d ++ [m]) ++ [m] -> n = m.
Proof. by intros [_ [= ->]]%app_inj_tail. Qed.

Lemma preserves_mirror_item_other (sd dd : path) (handled : gset string)
    (n n' : string) :
  n ≠ n' ->
  preserves I (mirror_item src0 sd dd handled n')
    (mirror_item_done src0 sd dd handled n).
Proof.
  intros Hne. eapply preserves_footprint; [apply footprint_mirror_item|].
  intros s s' Hch. unfold mirror_item_done.
  destruct (bool_decide _); [done|].
  destruct (src0 !! (sd ++ [n])) as [[c|]|]; [|done..].
  apply (change_put_into_done _ _ _ _ _ _ _ Hch); cbv beta.
  - intros [E%snoc_inj|E]; [done|]. by apply snoc_ne_snoc2 in E.
  - intros [E|E%snoc2_inj]; [|done]. symmetry in E.
    by apply snoc_ne_snoc2 in E.
Qed.

Lemma settles_mirror (sd dd : path) (handled : gset string) :
  S `prefix_of` sd -> T `prefix_of` dd ->
  settles I (_mirror_misc_files sd dd handled)
    (mirror_done src0 sd dd handled).
Proof.
  intros HS HT.
  apply (settles_ext _ _
           (fun s => match src0 !! sd with
                     | Some Dir =>
                         for_ (listdir src0 sd)
                           (mirror_item src0 sd dd handled) s
                     | Some (File _) => (s, Raise (NotADirectoryError sd))
                     | None => (s, Raise (FileNotFoundError sd))
                     end)).
  { intros s Hs. by apply mirror_resolved. }
  unfold mirror_done. destruct (src0 !! sd) as [[c|]|].
  - apply (settles_raise I (NotADirectoryError sd)).
  - apply settles_for.
    + intros n _. by apply settles_mirror_item.
    + intros n n' _ _. destruct (decide (n = n')) as [->|Hne].
      * by apply preserves_fix, settles_mirror_item.
      * by apply preserves_mirror_item_other.
  - apply (settles_raise I (FileNotFoundError sd)).
Qed.

Lemma preserves_mirror_handled (sd dd : path) (handled : gset string)
    (n : string) (plan : path -> node -> result content * result unit) :
  (is_Some (src0 !! (sd ++ [n])) -> n ∈ handled) ->
  preserves I (_mirror_misc_files sd dd handled)
    (opt_put_done src0 sd dd n plan).
Proof.
  intros Hn. eapply preserves_footprint; [apply footprint_mirror_misc_files|].
  intros s s' Hch. unfold opt_put_done.
  destruct (src0 !! (sd ++ [n])) as [nd|]; [|done].
  apply (change_put_done _ _ _ _ _ _ _ _ Hch). cbv beta.
  intros (m & Hm & [E%snoc_inj|E]).
  - subst m. apply Hm, Hn. done.
  - by apply snoc_ne_snoc2 in E.
Qed.

Lemma preserves_opt_put_other (sd dd : path) (n n' : string)
    (plan plan' : path -> node -> result content * result unit) :
  n ≠ n' ->
  preserves I (opt_put src0 sd dd n' plan')
    (opt_put_done src0 sd dd n plan).
Proof.
  intros Hne. eapply preserves_footprint; [apply footprint_opt_put|].
  intros s s' Hch. unfold opt_put_done.
  destruct (src0 !! (sd ++ [n])) as [nd|]; [|done].
  apply (change_put_done _ _ _ _ _ _ _ _ Hch). cbv beta.
  by intros E%snoc_inj.
Qed.

Lemma exists_under (s : fs) (p : path) :
  I s -> S `prefix_of` p ->
  exists_ p s = (s, Ok (bool_decide (is_Some (src0 !! p)))).
Proof. intros Hs Hp. unfold exists_. by rewrite (lookup_under s p). Qed.

(** The step of a block for one handled file [n]: test, filter, record the
    name. *)
Lemma handled_step (L : path -> path -> M unit)
    (plan : path -> node -> result content * result unit) (sd dd : path)
    (n : string) (h : gset string) (k : gset string -> M unit) (s : fs) :
  S `prefix_of` sd -> I s ->
  (forall nd, src0 !! (sd ++ [n]) = Some nd ->
              L (sd ++ [n]) (dd ++ [n]) s
              = put dd (dd ++ [n]) (plan (sd ++ [n]) nd).1
                  (plan (sd ++ [n]) nd).2 s) ->
  (b ← exists_ (sd ++ [n]) ;
   handled ← (if b : bool
              then L (sd ++ [n]) (dd ++ [n]) ;; mret (h ∪ {[n]})
              else mret h) ;
   k handled) s
  = (opt_put src0 sd dd n plan ;; k (handled_if src0 sd h n)) s.
Proof.
  intros HS Hs HL. rewrite bind_unfold, exists_under;
    [|done|etrans; [exact HS|by apply prefix_app_r]].
  rewrite bind_if_ret. unfold opt_put, handled_if.
  destruct (src0 !! (sd ++ [n])) as [nd|].
  - rewrite bool_decide_eq_true_2 by done.
    rewrite !bind_unfold. by rewrite (HL nd).
  - by rewrite bool_decide_eq_false_2 by by intros [].
Qed.

Lemma settles_generate (K : gset Z) (kn : bool) (sb db : path) :
  S `prefix_of` sb -> T `prefix_of` db ->
  settles I (subset_generate sb db K kn) (generate_done K kn src0 sb db).
Proof.
  intros HS HT.
  assert (S `prefix_of` sb ++ ["generate"]) as HSd
    by (etrans; [exact HS|by apply prefix_app_r]).
  assert (T `prefix_of` db ++ ["generate"]) as HTd
    by (etrans; [exact HT|by apply prefix_app_r]).
  set (sd := sb ++ ["generate"]) in *. set (dd := db ++ ["generate"]) in *.
  apply (settles_ext _ _
    (match src0 !! sd with
     | Some _ =>
         opt_put src0 sd dd "metadata.jsonl" (metadata_plan K) ;;
         (opt_put src0 sd dd "train_data.parquet" (parquet_plan K kn) ;;
          _mirror_misc_files sd dd (generate_handled src0 sd))
     | None => mret tt
     end)).
  { intros s Hs. unfold subset_generate. cbv zeta. fold sd dd.
    rewrite bind_unfold, (exists_under s sd Hs HSd).
    destruct (src0 !! sd) as [nd0|];
      [rewrite bool_decide_eq_true_2 by done
      |by rewrite bool_decide_eq_false_2 by by intros []].
    rewrite (handled_step (fun src dst => _write_filtered_metadata src dst K)
               (metadata_plan K) sd dd "metadata.jsonl" ∅ _ s HSd Hs).
    2: { intros nd Hnd. apply metadata_shape.
         - rewrite lookup_under; [done|done|].
           etrans; [exact HSd|by apply prefix_app_r].
         - apply roots_differ; (etrans; [|by apply prefix_app_r]); done. }
    apply bind_ext_at. intros s1 [] Hs1.
    assert (I s1) as HI1.
    { eapply (settles_inv _ _ _ (settles_opt_put sd dd _ _ HTd));
        [exact Hs|exact Hs1]. }
    apply (handled_step (fun src dst => _filter_parquet src dst K kn)
               (parquet_plan K kn) sd dd "train_data.parquet" _ _ s1 HSd HI1).
    intros nd Hnd. apply parquet_shape.
    rewrite lookup_under; [done|done|].
    etrans; [exact HSd|by apply prefix_app_r]. }
  unfold generate_done. fold sd dd.
  destruct (src0 !! sd) as [nd0|]; [|apply settles_ret].
  apply settles_seq; [by apply settles_opt_put| |].
  - apply settles_seq; [by apply settles_opt_put|by apply settles_mirror|].
    apply preserves_mirror_handled. intros Hn.
    unfold generate_handled, handled_if at 1.
    rewrite bool_decide_eq_true_2 by done. set_solver.
  - apply preserves_seq.
    + by apply settles_opt_put.
    + by apply preserves_opt_put_other.
    + apply preserves_mirror_handled. intros Hn.
      unfold generate_handled, handled_if.
      rewrite (bool_decide_eq_true_2 _ Hn). case_bool_decide; set_solver.
Qed.

Lemma settles_inference (K : gset Z) (sb db : path) :
  S `prefix_of` sb -> T `prefix_of` db ->
  settles I (subset_inference sb db K) (inference_done K src0 sb db).
Proof.
  intros HS HT.
  assert (S `prefix_of` sb ++ ["inference"]) as HSd
    by (etrans; [exact HS|by apply prefix_app_r]).
  assert (T `prefix_of` db ++ ["inference"]) as HTd
    by (etrans; [exact HT|by apply prefix_app_r]).
  set (sd := sb ++ ["inference"]) in *. set (dd := db ++ ["inference"]) in *.
  apply (settles_ext _ _
    (match src0 !! sd with
     | Some _ =>
         opt_put src0 sd dd "latent_eval_data.parquet"
           (parquet_plan K false) ;;
         _mirror_misc_files sd dd
           (handled_if src0 sd ∅ "latent_eval_data.parquet")
     | None => mret tt
     end)).
  { intros s Hs. unfold subset_inference. cbv zeta. fold sd dd.
    rewrite bind_unfold, (exists_under s sd Hs HSd).
    destruct (src0 !! sd) as [nd0|];
      [rewrite bool_decide_eq_true_2 by done
      |by rewrite bool_decide_eq_false_2 by by intros []].
    apply (handled_step (fun src dst => _filter_parquet src dst K false)
               (parquet_plan K false) sd dd "latent_eval_data.parquet" _ _ s
               HSd Hs).
    intros nd Hnd. apply parquet_shape.
    rewrite lookup_under; [done|done|].
    etrans; [exact HSd|by apply prefix_app_r]. }
  unfold inference_done. fold sd dd.
  destruct (src0 !! sd) as [nd0|]; [|apply settles_ret].
  apply settles_seq; [by apply settles_opt_put|by apply settles_mirror|].
  apply preserves_mirror_handled. intros Hn. unfold handled_if.
  rewrite bool_decide_eq_true_2 by done. set_solver.
Qed.

Lemma closed_under_generate_done (K : gset Z) (kn : bool) (sb db : path) :
  closed_under (db ++ ["generate"]) (generate_done K kn src0 sb db).
Proof.
  unfold generate_done. cbv zeta.
  destruct (src0 !! (sb ++ ["generate"])); [|apply closed_under_const].
  repeat apply closed_under_and;
    first [apply closed_under_opt_put_done|apply closed_under_mirror_done].
Qed.

Lemma closed_under_inference_done (K : gset Z) (sb db : path) :
  closed_under (db ++ ["inference"]) (inference_done K src0 sb db).
Proof.
  unfold inference_done. cbv zeta.
  destruct (src0 !! (sb ++ ["inference"])); [|apply closed_under_const].
  repeat apply closed_under_and;
    first [apply closed_under_opt_put_done|apply closed_under_mirror_done].
Qed.

Lemma siblings_no_common (d q : path) (n m : string) :
  n ≠ m -> (d ++ [n]) `prefix_of` q -> ¬ (d ++ [m]) `prefix_of` q.
Proof.
  intros Hne Hn Hm. apply Hne.
  assert (d ++ [n] = d ++ [m]) as E.
  { eapply prefix_same_length_eq; [done|done|]. by rewrite !length_app. }
  by apply snoc_inj in E.
Qed.

Lemma settles_subset_single_directory (K : gset Z) (kn : bool)
    (sb db : path) :
  S `prefix_of` sb -> T `prefix_of` db ->
  settles I (subset_single_directory sb db K kn)
    (fun s => generate_done K kn src0 sb db s
              /\ inference_done K src0 sb db s).
Proof.
  intros HS HT. unfold subset_single_directory.
  apply settles_seq;
    [by apply settles_generate|by apply settles_inference|].
  eapply preserves_footprint; [apply footprint_subset_inference|].
  intros s s' Hch. apply (closed_under_generate_done _ _ _ _ _ _ _ _ Hch).
  cbv beta. intros q Hq.
  by apply (siblings_no_common db q "generate" "inference").
Qed.

End apart_roots.

(** ** Running twice *)

Lemma main_as_loop (a : args) : main a = for_ (subdirs a) (main_body a).
Proof. reflexivity. Qed.

Lemma footprint_main_body (a : args) (x : string) :
  footprint (main_body a x)
    (fun q => exists loc, q `prefix_of` ((target_root a ++ [x]) ++ [loc]))
    (fun q => (target_root a ++ [x]) `prefix_of` q).
Proof.
  unfold main_body. cbv zeta.
  apply footprint_bind; [footprint_step|intros b].
  destruct (negb b); [footprint_step|].
  apply footprint_bind; [|intros _; footprint_step].
  apply footprint_subset_single_directory.
Qed.

Lemma closed_under_subdir_done (a : args) (src0 : fs) (x : string) :
  closed_under (target_root a ++ [x]) (subdir_done a src0 x).
Proof.
  unfold subdir_done. cbv zeta.
  destruct (src0 !! (source_root a ++ [x])); [|apply closed_under_const].
  apply closed_under_and.
  - eapply closed_under_mono; [|apply closed_under_generate_done].
    by apply prefix_app_r.
  - eapply closed_under_mono; [|apply closed_under_inference_done].
    by apply prefix_app_r.
Qed.

Lemma seq_ret (m : M unit) (s : fs) : (m ;; mret tt) s = m s.
Proof. rewrite bind_unfold. by destruct (m s) as [s1 [[]|e]]. Qed.

Lemma settles_main_body (a : args) (src0 : fs) (x : string) :
  apart (source_root a) (target_root a) ->
  settles (agree_under (source_root a) src0) (main_body a x)
    (subdir_done a src0 x).
Proof.
  intros Hap.
  apply (settles_ext _ _
    (match src0 !! (source_root a ++ [x]) with
     | Some _ =>
         subset_single_directory (source_root a ++ [x]) (target_root a ++ [x])
           (list_to_set (concept_ids a)) (negb (drop_negative a))
     | None => raise (FileNotFoundError (source_root a ++ [x]))
     end)).
  { intros s Hs. unfold main_body. cbv zeta.
    rewrite bind_unfold, (exists_under _ src0 s _ Hs)
      by by apply prefix_app_r.
    destruct (src0 !! (source_root a ++ [x])).
    - rewrite bool_decide_eq_true_2 by done. cbn [negb]. unfold print.
      apply seq_ret.
    - by rewrite bool_decide_eq_false_2 by by intros []. }
  unfold subdir_done. cbv zeta.
  destruct (src0 !! (source_root a ++ [x])); [|apply settles_raise].
  apply (settles_subset_single_directory _ _ Hap); by apply prefix_app_r.
Qed.

Lemma settles_main (a : args) (src0 : fs) :
  apart (source_root a) (target_root a) ->
  settles (agree_under (source_root a) src0) (main a)
    (fun s => forall x, x ∈ subdirs a -> subdir_done a src0 x s).
Proof.
  intros Hap. rewrite main_as_loop. apply settles_for.
  - intros x _. by apply settles_main_body.
  - intros x y _ _. destruct (decide (x = y)) as [->|Hne].
    + by apply preserves_fix, settles_main_body.
    + eapply preserves_footprint; [apply footprint_main_body|].
      intros s s' Hch.
      apply (closed_under_subdir_done _ _ _ _ _ _ _ Hch). cbv beta.
      intros q Hq. by apply (siblings_no_common _ q x y).
Qed.



(** X19. For a run of [main] that returns, with the roots apart and no
    negative id requested: the latent-eval table written for a requested
    subdirectory [x] is the source table filtered by the keep-set alone,
    and none of its rows has concept id -1, for either value of
    [--drop-negative]. *)
Lemma main_latent_eval_no_sentinel (a : args) (x : string) (s s1 : fs)
    (df : DataFrame) :
  apart (source_root a) (target_root a) ->
  Forall (fun k => (0 <= k)%Z) (concept_ids a) ->
  x ∈ subdirs a ->
  s !! ((source_root a ++ [x]) ++ ["inference"]) = Some Dir ->
  s !! (((source_root a ++ [x]) ++ ["inference"])
        ++ ["latent_eval_data.parquet"]) = Some (File (Table df)) ->
  main a s = (s1, Ok tt) ->
  exists i,
    index_of "concept_id" (columns df) = Some i
    /\ s1 !! (((target_root a ++ [x]) ++ ["inference"])
              ++ ["latent_eval_data.parquet"])
       = Some (File (Table {| columns := columns df;
                              rows := List.filter
                                        (row_kept (list_to_set (concept_ids a))
                                           false i df)
                                        (rows df) |}))
    /\ Forall (fun row => is_sentinel (cell_at i row) = false)
         (List.filter (row_kept (list_to_set (concept_ids a)) false i df)
            (rows df)).
Proof.
  intros Hap HK Hx Hdir Hsrc Hrun.
  destruct (settles_main a s Hap) as [Hok _ _ _].
  assert (agree_under (source_root a) s s) as Hs by done.
  pose proof (Hok _ _ Hs Hrun x Hx) as Hdone.
  unfold subdir_done in Hdone. cbv zeta in Hdone.
  destruct (s !! (source_root a ++ [x])); [|done].
  destruct Hdone as [_ Hinf]. unfold inference_done in Hinf.
  cbv zeta in Hinf. rewrite Hdir in Hinf. destruct Hinf as [Hput _].
  unfold opt_put_done in Hput. rewrite Hsrc in Hput.
  cbn [parquet_plan fst snd] in Hput. unfold getitem in Hput.
  destruct (index_of "concept_id" (columns df)) as [i|]; [|done].
  destruct Hput as [_ Hput]. exists i. split; [done|].
  unfold loc in Hput. cbn [columns rows] in Hput.
  rewrite mask_of_rows in Hput. split; [done|].
  apply Forall_forall. intros row [_ Hrow]%list_elem_of_In%filter_In.
  eapply kept_row_not_sentinel; [|exact Hrow].
  intros k Hk%elem_of_list_to_set. rewrite Forall_forall in HK. by apply HK.
Qed.

(** * Further properties of the code *)

(** ** Well-formed filesystems: facts *)

Lemma is_dir_true (s : fs) (p : path) :
  is_dir s p = true <-> s !! p = Some Dir.
Proof. unfold is_dir. destruct (s !! p) as [[]|]; split; done. Qed.

Lemma well_formed_lookup (s : fs) (p : path) (nd : node) :
  well_formed s -> p ≠ [] -> s !! p = Some nd -> s !! parent p = Some Dir.
Proof. intros H Hp Hnd. apply is_dir_true. by apply (H p nd). Qed.

Lemma well_formed_intro (s : fs) :
  (forall p nd, p ≠ [] -> s !! p = Some nd -> s !! parent p = Some Dir) ->
  well_formed s.
Proof. intros H p nd Hnd Hp. apply is_dir_true. by eapply H. Qed.

Lemma well_formed_insert_file (s : fs) (p : path) (c : content) :
  well_formed s -> is_dir s p = false -> s !! parent p = Some Dir ->
  well_formed (<[p := File c]> s).
Proof.
  intros H Hnd Hpar. apply well_formed_intro. intros q nd Hq.
  assert (forall q', s !! q' = Some Dir -> q' ≠ p) as Hne.
  { intros q' Hq' ->. unfold is_dir in Hnd. by rewrite Hq' in Hnd. }
  destruct (decide (q = p)) as [->|Hqp].
  - intros _. rewrite lookup_insert_ne; [done|]. intros E.
    by apply (Hne (parent p)).
  - rewrite lookup_insert_ne by done. intros Hs.
    pose proof (well_formed_lookup _ _ _ H Hq Hs) as Hd.
    rewrite lookup_insert_ne; [done|]. intros E. by apply (Hne (parent q)).
Qed.

(** ** Where [main] writes *)

Lemma footprint_sublocation_fine (dd : path) (m : M unit) (n : string) :
  footprint m (fun q => q `prefix_of` (parent (dd ++ [n])))
    (fun q => q = dd ++ [n]) ->
  footprint m (fun q => q `prefix_of` dd)
    (fun q => exists n, q = dd ++ [n] \/ q = (dd ++ [n]) ++ [n]).
Proof.
  intros H. eapply footprint_mono; [| |exact H]; cbv beta; intros q.
  - by rewrite parent_snoc.
  - intros ->. eauto.
Qed.

Lemma footprint_mirror_fine (sd dd : path) (handled : gset string) :
  footprint (_mirror_misc_files sd dd handled) (fun q => q `prefix_of` dd)
    (fun q => exists n, q = dd ++ [n] \/ q = (dd ++ [n]) ++ [n]).
Proof.
  eapply footprint_mono; [| |apply footprint_mirror_misc_files]; [done|].
  cbv beta. intros q (n & _ & Hq). eauto.
Qed.

Lemma footprint_subset_generate_fine (sb db : path) (K : gset Z) (kn : bool) :
  footprint (subset_generate sb db K kn)
    (fun q => q `prefix_of` (db ++ ["generate"]))
    (fun q => exists n, q = (db ++ ["generate"]) ++ [n]
                        \/ q = ((db ++ ["generate"]) ++ [n]) ++ [n]).
Proof.
  unfold subset_generate. cbv zeta.
  apply footprint_bind; [footprint_step|intros [|]]; [|footprint_step].
  apply footprint_bind; [footprint_step|intros b1].
  apply footprint_bind.
  { destruct b1; [|footprint_step].
    apply footprint_bind; [|intros _; footprint_step].
    eapply footprint_sublocation_fine, footprint_write_filtered_metadata. }
  intros h1. apply footprint_bind; [footprint_step|intros b2].
  apply footprint_bind; [|intros h2; apply footprint_mirror_fine].
  destruct b2; [|footprint_step].
  apply footprint_bind; [|intros _; footprint_step].
  eapply footprint_sublocation_fine, footprint_filter_parquet.
Qed.

Lemma footprint_subset_inference_fine (sb db : path) (K : gset Z) :
  footprint (subset_inference sb db K)
    (fun q => q `prefix_of` (db ++ ["inference"]))
    (fun q => exists n, q = (db ++ ["inference"]) ++ [n]
                        \/ q = ((db ++ ["inference"]) ++ [n]) ++ [n]).
Proof.
  unfold subset_inference. cbv zeta.
  apply footprint_bind; [footprint_step|intros [|]]; [|footprint_step].
  apply footprint_bind; [footprint_step|intros b1].
  apply footprint_bind; [|intros h2; apply footprint_mirror_fine].
  destruct b1; [|footprint_step].
  apply footprint_bind; [|intros _; footprint_step].
  eapply footprint_sublocation_fine, footprint_filter_parquet.
Qed.

(** X2. Whatever the command line and the filesystem, and whether the run
    returns or raises, [main] changes the filesystem in two ways only: it
    creates a directory at a path that did not exist and is an output
    directory [target_root/x/generate] or [target_root/x/inference] or one
    of its ancestors; and it writes a file, over a file or at a free path,
    at [d/n] or [d/n/n] for an output directory [d]. Every other path keeps
    its node; in particular nothing is removed and no directory is
    replaced. *)
Theorem main_writes_outputs_only (a : args) (s s' : fs) (r : result unit) :
  main a s = (s', r) ->
  change (fun q => exists d, output_dir a d /\ q `prefix_of` d)
    (fun q => exists d n, output_dir a d
                          /\ (q = d ++ [n] \/ q = (d ++ [n]) ++ [n])) s s'
  /\ (forall q, is_Some (s !! q) -> is_Some (s' !! q))
  /\ (forall q, s !! q = Some Dir -> s' !! q = Some Dir).
Proof.
  intros Hrun.
  assert (footprint (main a)
            (fun q => exists d, output_dir a d /\ q `prefix_of` d)
            (fun q => exists d n, output_dir a d
                                  /\ (q = d ++ [n] \/ q = (d ++ [n]) ++ [n])))
    as Hfp.
  { unfold main. cbv zeta. apply footprint_for. intros x Hx.
    apply footprint_bind; [footprint_step|intros b].
    destruct (negb b); [footprint_step|].
    apply footprint_bind; [|intros _; footprint_step].
    unfold subset_single_directory. apply footprint_bind; [|intros _].
    - eapply footprint_mono; [| |apply footprint_subset_generate_fine];
        cbv beta; intros q Hq.
      + exists ((target_root a ++ [x]) ++ ["generate"]). split; [|done].
        exists x, "generate". split; [done|]. split; [|done]. repeat constructor.
      + destruct Hq as [n Hq].
        exists ((target_root a ++ [x]) ++ ["generate"]), n. split; [|done].
        exists x, "generate". split; [done|]. split; [|done]. repeat constructor.
    - eapply footprint_mono; [| |apply footprint_subset_inference_fine];
        cbv beta; intros q Hq.
      + exists ((target_root a ++ [x]) ++ ["inference"]). split; [|done].
        exists x, "inference". split; [done|]. split; [|done]. repeat constructor.
      + destruct Hq as [n Hq].
        exists ((target_root a ++ [x]) ++ ["inference"]), n. split; [|done].
        exists x, "inference". split; [done|]. split; [|done]. repeat constructor. }
  pose proof (Hfp _ _ _ Hrun) as Hch. split; [done|]. split.
  - intros q [nd Hq].
    destruct (Hch q) as [E|[(_ & Hn & _)|(_ & _ & c & Hc)]].
    + rewrite E, Hq. eauto.
    + congruence.
    + rewrite Hc. eauto.
  - intros q Hq. by eapply change_dir.
Qed.

Lemma main_writes_outputs_only_witness :
  let run := main (Demo.cli ["a"; "b"] false) Demo.tree in
  (forall q, is_Some (Demo.tree !! q) -> is_Some (run.1 !! q))
  /\ (forall q, Demo.tree !! q = Some Dir -> run.1 !! q = Some Dir).
Proof.
  intros run.
  apply (main_writes_outputs_only (Demo.cli ["a"; "b"] false) Demo.tree
           run.1 run.2).
  apply surjective_pairing.
Defined.

(** ** The tree mirror *)

Lemma for_skip {A} (xs : list A) (body : A -> M unit) (s : fs) :
  (forall x, x ∈ xs -> body x s = (s, Ok tt)) -> for_ xs body s = (s, Ok tt).
Proof.
  induction xs as [|x xs IH]; intros H; [done|]. cbn [for_].
  rewrite (bind_ok _ _ s s tt) by (apply H; left).
  apply IH. intros y Hy. apply H. by right.
Qed.

(** X3. When the source directory holds no regular file outside the handled
    names (only handled names and subdirectories, or nothing at all),
    [_mirror_misc_files] returns normally and changes nothing: the
    destination directory is not created. *)
Theorem mirror_creates_directory_lazily (sd dd : path)
    (handled : gset string) (s : fs) :
  s !! sd = Some Dir ->
  (forall n, n ∈ listdir s sd ->
             n ∈ handled \/ is_file_at s (sd ++ [n]) = false) ->
  _mirror_misc_files sd dd handled s = (s, Ok tt).
Proof.
  intros Hsd Hall. unfold _mirror_misc_files. rewrite bind_unfold.
  unfold iterdir. rewrite Hsd. rewrite for_map. apply for_skip.
  intros n Hn. rewrite name_snoc. destruct (Hall n Hn) as [Hh|Hf].
  - by rewrite bool_decide_eq_true_2.
  - case_bool_decide; [done|]. rewrite bind_unfold. unfold is_file.
    by rewrite Hf.
Qed.

Lemma mirror_creates_directory_lazily_witness :
  _mirror_misc_files ["S"; "a"; "generate"] ["T"; "a"; "generate"]
    {["metadata.jsonl"; "train_data.parquet"; "config.json"]} Demo.tree
  = (Demo.tree, Ok tt)
  /\ listdir Demo.tree ["S"; "a"; "generate"]
     = ["config.json"; "cache"; "metadata.jsonl"; "train_data.parquet"].
Proof.
  assert (listdir Demo.tree ["S"; "a"; "generate"]
          = ["config.json"; "cache"; "metadata.jsonl"; "train_data.parquet"])
    as Hls by (vm_compute; reflexivity).
  split; [|exact Hls].
  apply mirror_creates_directory_lazily.
  - vm_compute; reflexivity.
  - intros n Hn. rewrite Hls in Hn.
    apply elem_of_cons in Hn as [->|Hn];
      [left; apply (bool_decide_unpack _); vm_compute; exact I|].
    apply elem_of_cons in Hn as [->|Hn]; [right; vm_compute; reflexivity|].
    apply elem_of_cons in Hn as [->|Hn];
      [left; apply (bool_decide_unpack _); vm_compute; exact I|].
    apply list_elem_of_singleton in Hn as ->.
    left; apply (bool_decide_unpack _); vm_compute; exact I.
Defined.

Lemma for_change_inv {A : Type} (Q : fs -> Prop) (D W : path -> Prop)
    (xs : list A) (body : A -> M unit) :
  (forall x s s' r, x ∈ xs -> Q s -> body x s = (s', r) ->
                    change D W s s' /\ Q s') ->
  forall s s' r, Q s -> for_ xs body s = (s', r) -> change D W s s'.
Proof.
  induction xs as [|x xs IH]; intros H s s' r HQ; cbn [for_].
  - intros [= <- _]. apply change_refl.
  - rewrite bind_unfold. destruct (body x s) as [s1 [[]|e]] eqn:E.
    + destruct (H x s s1 _ ltac:(left) HQ E) as [Hch HQ1]. intros Hrest.
      eapply change_trans; [exact Hch|].
      eapply IH; [|exact HQ1|exact Hrest].
      intros y t t' r' Hy. apply H. by right.
    + intros [= <- _]. by destruct (H x s s1 _ ltac:(left) HQ E).
Qed.

(** X4. [_mirror_misc_files] leaves alone every name it is told is handled
    and every subdirectory of the source: when [n] is handled, or
    [src_dir/n] is a directory, no path at or below [dst_dir/n] changes,
    whether the call returns or raises. Subdirectories are not recursed
    into. *)
Theorem mirror_skips_handled_and_directories (sd dd : path)
    (handled : gset string) (n : string) (s s' : fs) (r : result unit) :
  n ∈ handled \/ s !! (sd ++ [n]) = Some Dir ->
  _mirror_misc_files sd dd handled s = (s', r) ->
  forall q, (dd ++ [n]) `prefix_of` q -> s' !! q = s !! q.
Proof.
  intros Hn Hrun q Hq.
  assert (change (fun x => x `prefix_of` dd)
            (fun x => exists m, m ≠ n
                                /\ (x = dd ++ [m] \/ x = (dd ++ [m]) ++ [m]))
            s s') as Hch.
  { revert Hrun. unfold _mirror_misc_files. rewrite bind_unfold.
    unfold iterdir.
    destruct (s !! sd) as [[c|]|];
      [intros [= <- _]; apply change_refl| |intros [= <- _]; apply change_refl].
    rewrite for_map.
    apply (for_change_inv
             (fun t => n ∈ handled \/ t !! (sd ++ [n]) = Some Dir));
      [|done].
    intros m t t' r' _ HQ. rewrite name_snoc.
    case_bool_decide as Hm; [intros [= <- _]; split; [apply change_refl|done]|].
    rewrite bind_unfold. unfold is_file.
    destruct (is_file_at t (sd ++ [m])) eqn:Hf;
      [|intros [= <- _]; split; [apply change_refl|done]].
    intros Hbody.
    assert (m ≠ n) as Hne.
    { intros ->. destruct HQ as [?|HQ]; [done|].
      unfold is_file_at in Hf. by rewrite HQ in Hf. }
    assert (footprint (mkdir dd ;; copy2 (sd ++ [m]) (dd ++ [m]))
              (fun x => x `prefix_of` dd)
              (fun x => x = dd ++ [m] \/ x = (dd ++ [m]) ++ [m])) as Hfp.
    { apply footprint_bind; [apply footprint_mkdir|intros _].
      eapply footprint_mono;
        [| |apply (footprint_copy2 _ _ (fun x => x `prefix_of` dd))];
        [done|]. cbv beta. intros x. by rewrite name_snoc. }
    pose proof (Hfp _ _ _ Hbody) as Hch. split.
    - eapply change_mono; [| |exact Hch]; [done|]. cbv beta. eauto.
    - destruct HQ as [?|HQ]; [by left|]. right. by eapply change_dir. }
  eapply change_outside; [exact Hch| |]; cbv beta.
  - intros Hp. apply prefix_length in Hq, Hp. rewrite length_app in Hq.
    cbn in Hq. lia.
  - intros (m & Hne & [->| ->]).
    + by apply prefix_snoc_eq in Hq.
    + apply Hne. symmetry. rewrite <- app_assoc in Hq.
      apply prefix_app_inv in Hq. by apply prefix_cons_inv_1 in Hq.
Qed.

Lemma mirror_skips_handled_and_directories_witness :
  let run := _mirror_misc_files ["S"; "a"; "generate"] ["T"; "a"; "generate"]
               {["metadata.jsonl"]} Demo.tree in
  run.1 !! ["T"; "a"; "generate"; "cache"] = Demo.tree !! ["T"; "a"; "generate"; "cache"]
  /\ run.1 !! ["T"; "a"; "generate"; "config.json"]
     = Some (File Demo.config).
Proof.
  intros run. split; [|vm_compute; reflexivity].
  apply (mirror_skips_handled_and_directories ["S"; "a"; "generate"]
           ["T"; "a"; "generate"] {["metadata.jsonl"]} "cache" Demo.tree
           run.1 run.2).
  - right. vm_compute; reflexivity.
  - apply surjective_pairing.
  - by exists [].
Defined.

Lemma for_ok_inv {A : Type} (J : fs -> Prop) (xs : list A)
    (body : A -> M unit) (s : fs) :
  (forall x t, J t -> exists t', body x t = (t', Ok tt) /\ J t') ->
  J s -> exists s', for_ xs body s = (s', Ok tt) /\ J s'.
Proof.
  intros H. revert s. induction xs as [|x xs IH]; intros s HJ.
  - by exists s.
  - destruct (H x s HJ) as (t & Hx & HJt).
    destruct (IH t HJt) as (s' & Hxs & HJs'). exists s'. split; [|done].
    cbn [for_]. by rewrite (bind_ok _ _ _ _ _ Hx).
Qed.

Lemma no_file_prefix_intro (s : fs) (d : path) :
  (forall q, q `prefix_of` d -> is_file_at s q = false) ->
  existsb (is_file_at s) (prefixes d) = false.
Proof.
  intros H. destruct (existsb _ _) eqn:E; [|done].
  apply existsb_exists in E as (q & Hq%list_elem_of_In%elem_of_prefixes & Hf).
  by rewrite (H q Hq) in Hf.
Qed.

Lemma put_into_plain (dd : path) (n : string) (c : content) (t : fs) :
  existsb (is_file_at t) (prefixes dd) = false ->
  (forall m, is_dir t (dd ++ [m]) = false) ->
  let t' := <[dd ++ [n] := File c]> (mkdirs t dd) in
  put_into dd n c t = (t', Ok tt)
  /\ existsb (is_file_at t') (prefixes dd) = false
  /\ (forall m, is_dir t' (dd ++ [m]) = false).
Proof.
  intros Hmk Hnd t'. split; [|split].
  - unfold put_into. rewrite (bind_ok _ _ _ _ _ (mkdir_ok _ _ Hmk)).
    unfold write_into.
    assert (is_dir (mkdirs t dd) (dd ++ [n]) = false) as Hd.
    { unfold is_dir. rewrite lookup_mkdirs.
      rewrite decide_False by apply not_prefix_snoc. apply Hnd. }
    rewrite Hd. apply write_file_ok; [done|].
    rewrite parent_snoc. by apply mkdirs_all_dirs.
  - apply no_file_prefix_intro. intros q Hq. unfold is_file_at, t'.
    rewrite lookup_insert_ne by (intros <-; by apply not_prefix_snoc in Hq).
    by rewrite (mkdirs_all_dirs t dd q Hq).
  - intros m. unfold is_dir, t'. destruct (decide (n = m)) as [->|Hne].
    + by rewrite lookup_insert_eq.
    + rewrite lookup_insert_ne by by intros E%snoc_inj.
      rewrite lookup_mkdirs. rewrite decide_False by apply not_prefix_snoc.
      apply Hnd.
Qed.

(** X5. Let source and destination directories be apart, let the source be
    a directory, let the destination directory be creatable (no file stands
    in place of it or of an ancestor) and hold no subdirectory. Then
    [_mirror_misc_files] returns normally; afterwards every regular file of
    the source whose name is not handled is at the same name in the
    destination with the same content, whatever was there before; and the
    source is as it was. *)
Theorem mirror_copies_files (sd dd : path) (handled : gset string) (s : fs) :
  apart sd dd ->
  s !! sd = Some Dir ->
  existsb (is_file_at s) (prefixes dd) = false ->
  (forall n, is_dir s (dd ++ [n]) = false) ->
  exists s',
    _mirror_misc_files sd dd handled s = (s', Ok tt)
    /\ (forall n c, s !! (sd ++ [n]) = Some (File c) -> n ∉ handled ->
                    s' !! (dd ++ [n]) = Some (File c))
    /\ agree_under sd s s'.
Proof.
  intros Hap Hsd Hmk Hnd.
  assert (agree_under sd s s) as Hs by done.
  pose proof (mirror_resolved sd dd Hap s sd dd handled s
                ltac:(done) ltac:(done) Hs) as Hres.
  rewrite Hsd in Hres.
  destruct (for_ok_inv
              (fun t => existsb (is_file_at t) (prefixes dd) = false
                        /\ forall m, is_dir t (dd ++ [m]) = false)
              (listdir s sd) (mirror_item s sd dd handled) s)
    as (s' & Hrun & _ & Hnd'); [|done|].
  { intros n t [Ht1 Ht2]. unfold mirror_item.
    destruct (bool_decide _); [by exists t|].
    destruct (s !! (sd ++ [n])) as [[c|]|]; [|by exists t..].
    destruct (put_into_plain dd n c t Ht1 Ht2) as (? & ? & ?). eauto. }
  rewrite Hrun in Hres. exists s'. split; [done|].
  destruct (settles_mirror sd dd Hap s sd dd handled ltac:(done) ltac:(done))
    as [Hok _ _ Hinv].
  split; [|by eapply Hinv].
  intros n c Hn Hh. pose proof (Hok _ _ Hs Hres) as Hdone.
  unfold mirror_done in Hdone. rewrite Hsd in Hdone.
  assert (n ∈ listdir s sd) as Hin by (apply elem_of_listdir; by rewrite Hn).
  specialize (Hdone n Hin). unfold mirror_item_done in Hdone.
  rewrite bool_decide_eq_false_2, Hn in Hdone by done.
  destruct Hdone as [_ [[Hd _]|Hf]]; [|done].
  specialize (Hnd' n). unfold is_dir in Hnd'. by rewrite Hd in Hnd'.
Qed.

Lemma mirror_copies_files_witness :
  exists s',
    _mirror_misc_files ["S"; "a"; "inference"] ["T"; "a"; "inference"]
      {["latent_eval_data.parquet"]} Demo.tree = (s', Ok tt)
    /\ s' !! ["T"; "a"; "inference"; "notes.txt"] = Some (File Demo.notes).
Proof.
  destruct (mirror_copies_files ["S"; "a"; "inference"]
              ["T"; "a"; "inference"] {["latent_eval_data.parquet"]}
              Demo.tree) as (s' & Hrun & Hcopy & _).
  - split; intros [k Hk]; discriminate.
  - vm_compute; reflexivity.
  - vm_compute; reflexivity.
  - intros n. unfold is_dir.
    assert (Demo.tree !! (["T"; "a"; "inference"] ++ [n]) = None) as ->;
      [|done].
    apply eq_None_not_Some. intros Hn%elem_of_dom.
    assert (forall q, q ∈ dom Demo.tree -> head q = Some "S" \/ q = [])
      as Hdom.
    { apply (bool_decide_unpack _). vm_compute. exact I. }
    destruct (Hdom _ Hn) as [[=]|[=]].
  - exists s'. split; [done|]. apply (Hcopy "notes.txt").
    + vm_compute; reflexivity.
    + apply (bool_decide_unpack _). vm_compute. exact I.
Defined.

Lemma well_formed_all_dirs (s : fs) (d : path) :
  well_formed s -> s !! d = Some Dir -> all_dirs s d.
Proof.
  intros Hwf. induction d as [|n d IH] using rev_ind; intros Hd q Hq.
  - apply prefix_nil_inv in Hq. by subst.
  - destruct (decide (q = d ++ [n])) as [->|Hne]; [done|].
    apply IH.
    + rewrite <- (parent_snoc d n).
      apply (well_formed_lookup s (d ++ [n]) Dir); [done| |done].
      by destruct d.
    + destruct Hq as [k Hk]. destruct k as [|x k _] using rev_ind.
      { rewrite app_nil_r in Hk. by subst. }
      rewrite app_assoc in Hk. apply app_inj_tail in Hk as [-> _].
      by exists k.
Qed.

Lemma for_first_raise {A : Type} (P : A -> bool) (E : A -> exn) (xs : list A)
    (body : A -> M unit) (s : fs) (x : A) :
  (forall y, P y = false -> body y s = (s, Ok tt)) ->
  (forall y, P y = true -> body y s = (s, Raise (E y))) ->
  x ∈ xs -> P x = true ->
  exists y, y ∈ xs /\ P y = true /\ for_ xs body s = (s, Raise (E y)).
Proof.
  intros Hskip Hstop. induction xs as [|z xs IH]; intros Hx HP.
  - by apply elem_of_nil in Hx.
  - cbn [for_]. destruct (P z) eqn:Hz.
    + exists z. split; [left|split; [done|]].
      by rewrite (bind_raise _ _ _ _ _ (Hstop z Hz)).
    + rewrite (bind_ok _ _ _ _ _ (Hskip z Hz)).
      apply elem_of_cons in Hx as [->|Hx]; [congruence|].
      destruct (IH Hx HP) as (y & Hy & HPy & Hrun).
      exists y. split; [by right|done].
Qed.

(** X6. Mirroring a directory onto itself copies nothing: in a well-formed
    tree, when the directory holds a regular file whose name is not
    handled, [_mirror_misc_files d d handled] raises [SameFileError] at
    such a file and leaves the tree as it was. *)
Theorem mirror_onto_itself_raises (d : path) (handled : gset string)
    (n : string) (s : fs) :
  well_formed s -> s !! d = Some Dir ->
  n ∉ handled -> is_file_at s (d ++ [n]) = true ->
  exists m, (m ∉ handled) /\ is_file_at s (d ++ [m]) = true
            /\ _mirror_misc_files d d handled s
               = (s, Raise (SameFileError (d ++ [m]))).
Proof.
  intros Hwf Hd Hn Hf.
  pose proof (well_formed_all_dirs s d Hwf Hd) as Hall.
  unfold _mirror_misc_files. rewrite bind_unfold. unfold iterdir.
  rewrite Hd, for_map.
  destruct (for_first_raise
              (fun m => negb (bool_decide (m ∈ handled))
                        && is_file_at s (d ++ [m]))
              (fun m => SameFileError (d ++ [m])) (listdir s d)
              (fun x =>
                 if bool_decide (name (d ++ [x]) ∈ handled) then mret tt
                 else f ← is_file (d ++ [x]) ;
                      if f : bool
                      then mkdir d ;; copy2 (d ++ [x]) (d ++ [name (d ++ [x])])
                      else mret tt) s n)
    as (m & _ & [Hm1 Hm2]%andb_prop & Hrun).
  - intros y Hy. rewrite name_snoc. destruct (bool_decide (y ∈ handled)); [done|].
    cbn [negb andb] in Hy. rewrite bind_unfold. unfold is_file.
    by rewrite Hy.
  - intros y [Hy1 Hy2]%andb_prop. rewrite name_snoc.
    apply negb_true_iff in Hy1. rewrite Hy1, bind_unfold. unfold is_file.
    rewrite Hy2, (bind_ok _ _ _ _ _ (mkdir_all_dirs s d Hall)).
    assert (exists c, s !! (d ++ [y]) = Some (File c)) as [c E].
    { revert Hy2. unfold is_file_at.
      destruct (s !! (d ++ [y])) as [[c|]|]; [eauto|done..]. }
    unfold copy2, is_dir. rewrite E.
    rewrite bool_decide_eq_true_2 by done.
    by rewrite bool_decide_eq_true_2 by eauto.
  - apply elem_of_listdir. unfold is_file_at in Hf.
    destruct (s !! (d ++ [n])); [eauto|done].
  - by rewrite bool_decide_eq_false_2, Hf by done.
  - exists m. split; [|done].
    apply negb_true_iff in Hm1. by apply bool_decide_eq_false in Hm1.
Qed.

Lemma mirror_onto_itself_raises_witness :
  exists m, _mirror_misc_files ["S"; "a"; "inference"]
              ["S"; "a"; "inference"] ∅ Demo.tree
            = (Demo.tree, Raise (SameFileError (["S"; "a"; "inference"] ++ [m]))).
Proof.
  destruct (mirror_onto_itself_raises ["S"; "a"; "inference"] ∅ "notes.txt"
              Demo.tree) as (m & _ & _ & Hrun).
  - unfold well_formed. apply (bool_decide_unpack _). vm_compute. exact I.
  - vm_compute; reflexivity.
  - apply not_elem_of_empty.
  - vm_compute; reflexivity.
  - by exists m.
Defined.

Lemma well_formed_no_child_of_file (s : fs) (p : path) (c : content)
    (n : string) :
  well_formed s -> s !! p = Some (File c) -> s !! (p ++ [n]) = None.
Proof.
  intros Hwf Hp. destruct (s !! (p ++ [n])) as [nd|] eqn:E; [|done].
  apply (well_formed_lookup s _ _ Hwf) in E; [|by destruct p].
  rewrite parent_snoc in E. congruence.
Qed.

(** X7. [subset_single_directory] tests a sub-location with [exists()], not
    [is_dir()]: in a well-formed tree where [src_base/generate] is a regular
    file, the call raises [NotADirectoryError] for that path (from the
    listing in the mirror step) and nothing is written; the [inference]
    block is not reached. *)
Theorem generate_regular_file_raises (src_base dst_base : path)
    (keep_ids : gset Z) (keep_negative : bool) (c : content) (s : fs) :
  well_formed s ->
  s !! (src_base ++ ["generate"]) = Some (File c) ->
  subset_single_directory src_base dst_base keep_ids keep_negative s
  = (s, Raise (NotADirectoryError (src_base ++ ["generate"]))).
Proof.
  intros Hwf Hg. unfold subset_single_directory.
  apply bind_raise. unfold subset_generate. cbv zeta.
  rewrite bind_unfold. unfold exists_ at 1.
  rewrite bool_decide_eq_true_2 by (rewrite Hg; eauto).
  rewrite bind_unfold. unfold exists_ at 1.
  rewrite (well_formed_no_child_of_file s _ c "metadata.jsonl" Hwf Hg).
  rewrite bool_decide_eq_false_2 by (by intros [? ?]).
  rewrite bind_ret, bind_unfold. unfold exists_ at 1.
  rewrite (well_formed_no_child_of_file s _ c "train_data.parquet" Hwf Hg).
  rewrite bool_decide_eq_false_2 by (by intros [? ?]).
  rewrite bind_ret. unfold _mirror_misc_files. apply bind_raise.
  unfold iterdir. by rewrite Hg.
Qed.

Lemma generate_regular_file_raises_witness :
  subset_single_directory ["S"; "a"; "inference"] ["T"; "x"] Demo.K true
    (<[["S"; "a"; "inference"; "generate"] := File (Text [])]> Demo.tree)
  = (<[["S"; "a"; "inference"; "generate"] := File (Text [])]> Demo.tree,
     Raise (NotADirectoryError (["S"; "a"; "inference"] ++ ["generate"]))).
Proof.
  apply (generate_regular_file_raises _ _ _ _ (Text [])).
  - apply well_formed_insert_file; [|vm_compute; reflexivity..].
    unfold well_formed. apply (bool_decide_unpack _). vm_compute. exact I.
  - apply lookup_insert_eq.
Defined.

(** ** Filtering in place and failing runs *)

Lemma metadata_in_place (p : path) (K : gset Z) (c : content) (s : fs) :
  well_formed s -> p ≠ [] -> s !! p = Some (File c) ->
  _write_filtered_metadata p p K s = (<[p := File (Text [])]> s, Ok tt).
Proof.
  intros Hwf Hne Hp.
  pose proof (well_formed_lookup s p _ Hwf Hne Hp) as Hpar.
  pose proof (well_formed_all_dirs s _ Hwf Hpar) as Hall.
  unfold _write_filtered_metadata.
  rewrite (bind_ok _ _ _ _ _ (mkdir_all_dirs s _ Hall)).
  rewrite (bind_ok _ _ s s tt) by (unfold open_r; by rewrite Hp).
  rewrite (bind_ok _ _ s (<[p := File (Text [])]> s) tt).
  2: { apply write_file_ok; [|done]. unfold is_dir. by rewrite Hp. }
  rewrite (bind_ok _ _ _ (<[p := File (Text [])]> s) ([], Ok tt)); [done|].
  unfold readlines. by rewrite lookup_insert_eq.
Qed.

(** X8. Filtering a record file onto itself empties it: with [src = dst] the
    file is opened for writing, and so truncated, before the first line is
    read. In a well-formed tree, [_write_filtered_metadata p p K] on a
    regular file [p] returns normally and leaves [p] a text file with no
    line, whatever it held and whatever the keep-set. *)
Theorem write_filtered_metadata_in_place_truncates (p : path) (K : gset Z)
    (c : content) (s : fs) :
  well_formed s -> p ≠ [] -> s !! p = Some (File c) ->
  _write_filtered_metadata p p K s = (<[p := File (Text [])]> s, Ok tt).
Proof. apply metadata_in_place. Qed.

Lemma write_filtered_metadata_in_place_truncates_witness :
  (_write_filtered_metadata ["S"; "a"; "generate"; "metadata.jsonl"]
     ["S"; "a"; "generate"; "metadata.jsonl"] Demo.K Demo.tree).1
    !! ["S"; "a"; "generate"; "metadata.jsonl"] = Some (File (Text [])).
Proof.
  rewrite (write_filtered_metadata_in_place_truncates
             ["S"; "a"; "generate"; "metadata.jsonl"] Demo.K
             (Text Demo.metadata) Demo.tree).
  - apply lookup_insert_eq.
  - unfold well_formed. apply (bool_decide_unpack _). vm_compute. exact I.
  - done.
  - vm_compute; reflexivity.
Defined.

Lemma filter_parquet_cases (src dst : path) (K : gset Z) (kn : bool)
    (s s' : fs) (r : result unit) :
  _filter_parquet src dst K kn s = (s', r) ->
  (is_raise r = true /\ (s' = s \/ s' = mkdirs s (parent dst)))
  \/ (r = Ok tt
      /\ exists df i,
           s !! src = Some (File (Table df))
           /\ index_of "concept_id" (columns df) = Some i
           /\ is_dir (mkdirs s (parent dst)) dst = false
           /\ s' = <[dst := File (Table
                       {| columns := columns df;
                          rows := List.filter (row_kept K kn i df) (rows df) |})]>
                     (mkdirs s (parent dst))).
Proof.
  destruct (existsb (is_file_at s) (prefixes (parent dst))) eqn:Hmk.
  { destruct (mkdir_fail _ _ Hmk) as [e He]. unfold _filter_parquet.
    rewrite (bind_raise _ _ _ _ _ He). intros [= <- <-]. left. auto. }
  destruct (s !! src) as [[[ls|df|b]|]|] eqn:Hsrc.
  2: { rewrite (filter_parquet_run _ _ _ _ _ _ Hsrc Hmk). unfold getitem.
       destruct (index_of "concept_id" (columns df)) as [i|] eqn:Hi.
       - intros Hw. destruct (write_file_cases _ _ _ _ _ Hw)
           as [(-> & -> & _ & Hd)|[Hr ->]]; [|left; auto].
         right. split; [done|]. exists df, i.
         unfold loc. cbn [columns rows]. by rewrite mask_of_rows.
       - intros [= <- <-]. left. auto. }
  all: unfold _filter_parquet;
    rewrite (bind_ok _ _ _ _ _ (mkdir_ok _ _ Hmk)), bind_unfold;
    unfold read_parquet; rewrite lookup_mkdirs; case_decide as Hpre;
    rewrite ?Hsrc; intros [= <- <-]; left; auto.
Qed.

(** X9. The columnar filter writes all of its table or none of it: when
    [_filter_parquet] raises (unreadable source, no [concept_id] column,
    destination not writable), no file has been written or changed; at
    most the parent directories of the destination have been created. *)
Theorem filter_parquet_raise_writes_nothing (src dst : path) (K : gset Z)
    (kn : bool) (s s' : fs) (e : exn) :
  _filter_parquet src dst K kn s = (s', Raise e) ->
  change (fun q => q `prefix_of` (parent dst)) (fun _ => False) s s'.
Proof.
  intros Hrun.
  destruct (filter_parquet_cases _ _ _ _ _ _ _ Hrun)
    as [[_ [->| ->]]|[[=] _]]; [apply change_refl|].
  destruct (existsb (is_file_at s) (prefixes (parent dst))) eqn:Hmk.
  - destruct (mkdir_fail _ _ Hmk) as [e' He]. revert Hrun.
    unfold _filter_parquet. rewrite (bind_raise _ _ _ _ _ He).
    intros [= <- _]. apply change_refl.
  - exact (footprint_mkdir _ _ _ _ _ (mkdir_ok _ _ Hmk)).
Qed.

Lemma filter_parquet_raise_writes_nothing_witness :
  let run := _filter_parquet ["S"; "a"; "generate"; "metadata.jsonl"]
               ["T"; "a"; "generate"; "train_data.parquet"] Demo.K true
               Demo.tree in
  change (fun q => q `prefix_of` (parent ["T"; "a"; "generate"; "train_data.parquet"]))
    (fun _ => False) Demo.tree run.1
  /\ run.2 = Raise (ArrowInvalid ["S"; "a"; "generate"; "metadata.jsonl"]).
Proof.
  intros run.
  assert (run.2 = Raise (ArrowInvalid ["S"; "a"; "generate"; "metadata.jsonl"]))
    as Hr by (vm_compute; reflexivity).
  split; [|done].
  apply (filter_parquet_raise_writes_nothing
           ["S"; "a"; "generate"; "metadata.jsonl"]
           ["T"; "a"; "generate"; "train_data.parquet"] Demo.K true
           Demo.tree run.1
           (ArrowInvalid ["S"; "a"; "generate"; "metadata.jsonl"])).
  rewrite <- Hr. apply surjective_pairing.
Defined.

Lemma filter_all_true {A : Type} (f : A -> bool) (xs : list A) :
  (forall x, In x xs -> f x = true) -> List.filter f xs = xs.
Proof.
  induction xs as [|x xs IH]; intros H; [done|]. cbn.
  rewrite (H x) by by left. f_equal. apply IH. intros y Hy. apply H. by right.
Qed.

Lemma row_kept_idem (K : gset Z) (kn : bool) (i : nat) (df : DataFrame) :
  let out := {| columns := columns df;
                rows := List.filter (row_kept K kn i df) (rows df) |} in
  List.filter (row_kept K kn i out) (rows out) = rows out.
Proof.
  intros out. apply filter_all_true. intros row Hrow.
  pose proof Hrow as [_ Hk]%filter_In.
  unfold row_kept in Hk |- *.
  destruct (cell_in K (cell_at i row)); [done|]. cbn [orb] in Hk |- *.
  apply andb_prop in Hk as [[-> _]%andb_prop Hsen]. rewrite Hsen.
  cbn [andb]. rewrite andb_true_r. unfold has_sentinel.
  apply existsb_exists. by exists row.
Qed.

(** X10. The columnar filter is idempotent: after [_filter_parquet] has
    written its output and returned, filtering that output in place with the
    same keep-set and flag returns normally and changes nothing. The rows
    kept satisfy the filter again: the sentinel rows that were kept are
    still there to be kept. *)
Theorem filter_parquet_again_in_place (src dst : path) (K : gset Z)
    (kn : bool) (s s' : fs) :
  _filter_parquet src dst K kn s = (s', Ok tt) ->
  _filter_parquet dst dst K kn s' = (s', Ok tt).
Proof.
  intros Hrun.
  destruct (filter_parquet_cases _ _ _ _ _ _ _ Hrun)
    as [[[=] _]|[_ (df & i & Hsrc & Hi & Hd & ->)]].
  set (out := {| columns := columns df;
                 rows := List.filter (row_kept K kn i df) (rows df) |}).
  set (s1 := mkdirs s (parent dst)).
  assert (dst ≠ []) as Hne.
  { intros ->. unfold is_dir in Hd. cbn in Hd.
    by rewrite lookup_insert_eq in Hd. }
  assert (all_dirs (<[dst := File (Table out)]> s1) (parent dst)) as Hall.
  { apply all_dirs_insert; [by apply not_prefix_parent|].
    apply mkdirs_all_dirs. }
  rewrite (filter_parquet_run _ dst dst K kn out)
    by (by rewrite ?lookup_insert_eq; try apply all_dirs_no_file).
  unfold getitem. subst out. cbn [columns]. rewrite Hi.
  rewrite (all_dirs_mkdirs _ _ Hall). unfold loc.
  rewrite mask_of_rows.
  pose proof (row_kept_idem K kn i df) as Hid. cbv zeta in Hid.
  rewrite Hid. cbn [columns rows]. apply write_file_fix.
  - by rewrite lookup_insert_eq.
  - apply Hall. done.
Qed.

Lemma filter_parquet_again_in_place_witness :
  let first := _filter_parquet ["S"; "a"; "generate"; "train_data.parquet"]
                 ["T"; "a"; "generate"; "train_data.parquet"] Demo.K true
                 Demo.tree in
  _filter_parquet ["T"; "a"; "generate"; "train_data.parquet"]
    ["T"; "a"; "generate"; "train_data.parquet"] Demo.K true first.1
  = (first.1, Ok tt).
Proof.
  intros first.
  assert (first.2 = Ok tt) as Hr by (vm_compute; reflexivity).
  apply (filter_parquet_again_in_place
           ["S"; "a"; "generate"; "train_data.parquet"]
           ["T"; "a"; "generate"; "train_data.parquet"] Demo.K true
           Demo.tree first.1).
  rewrite <- Hr. apply surjective_pairing.
Defined.

(** X11. Both filters create the destination's parent directories before
    they open the source: called on a source path that does not exist (and
    is not one of the directories to create), each raises
    [FileNotFoundError] for the source, writes no file, and leaves the
    parent directories of the destination created. *)
Theorem filters_missing_source (src dst : path) (K : gset Z) (kn : bool)
    (s : fs) :
  s !! src = None ->
  ¬ src `prefix_of` (parent dst) ->
  existsb (is_file_at s) (prefixes (parent dst)) = false ->
  _write_filtered_metadata src dst K s
  = (mkdirs s (parent dst), Raise (FileNotFoundError src))
  /\ _filter_parquet src dst K kn s
     = (mkdirs s (parent dst), Raise (FileNotFoundError src)).
Proof.
  intros Hsrc Hpre Hmk.
  assert (mkdirs s (parent dst) !! src = None) as Hnone.
  { rewrite lookup_mkdirs. by rewrite decide_False. }
  split.
  - unfold _write_filtered_metadata.
    rewrite (bind_ok _ _ _ _ _ (mkdir_ok _ _ Hmk)). apply bind_raise.
    unfold open_r. by rewrite Hnone.
  - unfold _filter_parquet.
    rewrite (bind_ok _ _ _ _ _ (mkdir_ok _ _ Hmk)). apply bind_raise.
    unfold read_parquet. by rewrite Hnone.
Qed.

Lemma filters_missing_source_witness :
  let run := _write_filtered_metadata ["S"; "nowhere"] ["T"; "a"; "out"]
               Demo.K Demo.tree in
  run.2 = Raise (FileNotFoundError ["S"; "nowhere"])
  /\ run.1 !! ["T"; "a"] = Some Dir
  /\ run.1 !! ["T"; "a"; "out"] = None.
Proof.
  intros run.
  destruct (filters_missing_source ["S"; "nowhere"] ["T"; "a"; "out"]
              Demo.K true Demo.tree) as [Hrun _].
  - vm_compute; reflexivity.
  - intros [k Hk]. discriminate.
  - vm_compute; reflexivity.
  - unfold run. rewrite Hrun. cbn [fst snd]. split; [done|].
    split; vm_compute; reflexivity.
Defined.

(** ** What a returning run of [main] has written *)

Lemma main_subdir_done (a : args) (x : string) (s s1 : fs) :
  apart (source_root a) (target_root a) ->
  x ∈ subdirs a -> main a s = (s1, Ok tt) -> subdir_done a s x s1.
Proof.
  intros Hap Hx Hrun. destruct (settles_main a s Hap) as [Hok _ _ _].
  assert (agree_under (source_root a) s s) as Hs by done.
  exact (Hok _ _ Hs Hrun x Hx).
Qed.

Lemma well_formed_parent_dir (s : fs) (d : path) (n : string) (nd : node) :
  well_formed s -> s !! (d ++ [n]) = Some nd -> s !! d = Some Dir.
Proof.
  intros Hwf Hn. rewrite <- (parent_snoc d n).
  apply (well_formed_lookup s _ nd Hwf); [by destruct d|done].
Qed.

Lemma scan_ok_readable (K : gset Z) (ls : list line) :
  (scan K ls).2 = Ok tt -> forallb readable ls = true.
Proof.
  induction ls as [|l ls IH]; [done|].
  destruct l as [|v|]; cbn [scan forallb readable]; [done| |done].
  destruct (concept_id_of v) as [z|e]; [|done].
  destruct (scan K ls) as [out r]. cbn [snd is_ok andb] in *. done.
Qed.

(** X12. For a run of [main] that returns, with the roots apart and the
    source tree well formed: when a requested subdirectory has a text file
    [generate/metadata.jsonl], every line of it is blank or an object with
    an integer concept id, and the target file holds exactly its records
    whose concept id is requested, in their order. The [-1] records are
    kept only when [-1] is requested: [--drop-negative] plays no part. *)
Theorem main_writes_filtered_metadata (a : args) (x : string)
    (ls : list line) (s s1 : fs) :
  apart (source_root a) (target_root a) ->
  well_formed s ->
  x ∈ subdirs a ->
  s !! (((source_root a ++ [x]) ++ ["generate"]) ++ ["metadata.jsonl"])
    = Some (File (Text ls)) ->
  main a s = (s1, Ok tt) ->
  forallb readable ls = true
  /\ s1 !! (((target_root a ++ [x]) ++ ["generate"]) ++ ["metadata.jsonl"])
     = Some (File (Text (Json <$> List.filter
                                    (member (list_to_set (concept_ids a)))
                                    (records ls)))).
Proof.
  intros Hap Hwf Hx Hsrc Hrun.
  pose proof (main_subdir_done a x s s1 Hap Hx Hrun) as Hdone.
  pose proof (well_formed_parent_dir _ _ _ _ Hwf Hsrc) as Hgen.
  unfold subdir_done in Hdone. cbv zeta in Hdone.
  destruct (s !! (source_root a ++ [x])); [|done].
  destruct Hdone as [Hg _]. unfold generate_done in Hg. cbv zeta in Hg.
  rewrite Hgen in Hg. destruct Hg as (Hput & _ & _).
  unfold opt_put_done in Hput. rewrite Hsrc in Hput.
  cbn [metadata_plan fst snd] in Hput. rewrite scan_file_text in Hput.
  unfold put_done in Hput.
  destruct (scan _ ls).2 as [[]|e] eqn:Hscan; [|done].
  pose proof (scan_ok_readable _ _ Hscan) as Hread. split; [done|].
  destruct Hput as [_ Hput]. by rewrite (scan_readable _ _ Hread) in Hput.
Qed.

Lemma main_writes_filtered_metadata_witness :
  (main (Demo.cli ["a"; "b"] true) Demo.tree).1
    !! (((["T"] ++ ["a"]) ++ ["generate"]) ++ ["metadata.jsonl"])
  = Some (File (Text (Json <$> List.filter (member (list_to_set [0; 1]%Z))
                                 (records Demo.metadata)))).
Proof.
  apply (main_writes_filtered_metadata (Demo.cli ["a"; "b"] true) "a"
           Demo.metadata Demo.tree).
  - split; intros [k Hk]; discriminate.
  - unfold well_formed. apply (bool_decide_unpack _). vm_compute. exact I.
  - left.
  - vm_compute; reflexivity.
  - assert ((main (Demo.cli ["a"; "b"] true) Demo.tree).2 = Ok tt) as Hr
      by (vm_compute; reflexivity).
    rewrite <- Hr. apply surjective_pairing.
Defined.

(** X13. For a run of [main] that returns, with the roots apart and the
    source tree well formed: when a requested subdirectory has a table
    [generate/train_data.parquet], that table has a [concept_id] column and
    the target table has its columns and exactly its rows that the filter
    keeps with [keep_negative] set to the negation of [--drop-negative]:
    the rows with a requested id and, unless the flag is given, the [-1]
    rows. *)
Theorem main_writes_filtered_train_table (a : args) (x : string)
    (df : DataFrame) (s s1 : fs) :
  apart (source_root a) (target_root a) ->
  well_formed s ->
  x ∈ subdirs a ->
  s !! (((source_root a ++ [x]) ++ ["generate"]) ++ ["train_data.parquet"])
    = Some (File (Table df)) ->
  main a s = (s1, Ok tt) ->
  exists i,
    index_of "concept_id" (columns df) = Some i
    /\ s1 !! (((target_root a ++ [x]) ++ ["generate"])
              ++ ["train_data.parquet"])
       = Some (File (Table
           {| columns := columns df;
              rows := List.filter
                        (fun row =>
                           cell_in (list_to_set (concept_ids a)) (cell_at i row)
                           || (negb (drop_negative a)
                               && is_sentinel (cell_at i row)))
                        (rows df) |})).
Proof.
  intros Hap Hwf Hx Hsrc Hrun.
  pose proof (main_subdir_done a x s s1 Hap Hx Hrun) as Hdone.
  pose proof (well_formed_parent_dir _ _ _ _ Hwf Hsrc) as Hgen.
  unfold subdir_done in Hdone. cbv zeta in Hdone.
  destruct (s !! (source_root a ++ [x])); [|done].
  destruct Hdone as [Hg _]. unfold generate_done in Hg. cbv zeta in Hg.
  rewrite Hgen in Hg. destruct Hg as (_ & Hput & _).
  unfold opt_put_done in Hput. rewrite Hsrc in Hput.
  cbn [parquet_plan fst snd] in Hput. unfold getitem in Hput.
  destruct (index_of "concept_id" (columns df)) as [i|]; [|done].
  destruct Hput as [_ Hput]. exists i. split; [done|].
  unfold loc in Hput. cbn [columns rows] in Hput.
  rewrite mask_of_rows in Hput. rewrite Hput. do 4 f_equal.
  apply filter_ext_in. intros row Hrow. unfold row_kept.
  destruct (negb (drop_negative a)); [|done]. cbn [andb].
  destruct (is_sentinel (cell_at i row)) eqn:Hsen;
    [|by rewrite andb_false_r].
  rewrite andb_true_r. f_equal. unfold has_sentinel.
  apply existsb_exists. by exists row.
Qed.

Lemma main_writes_filtered_train_table_witness :
  exists i,
    index_of "concept_id" (columns Demo.table) = Some i
    /\ (main (Demo.cli ["a"; "b"] false) Demo.tree).1
         !! (((["T"] ++ ["a"]) ++ ["generate"]) ++ ["train_data.parquet"])
       = Some (File (Table
           {| columns := columns Demo.table;
              rows := List.filter
                        (fun row =>
                           cell_in (list_to_set [0; 1]%Z) (cell_at i row)
                           || (negb false && is_sentinel (cell_at i row)))
                        (rows Demo.table) |})).
Proof.
  apply (main_writes_filtered_train_table (Demo.cli ["a"; "b"] false) "a"
           Demo.table Demo.tree).
  - split; intros [k Hk]; discriminate.
  - unfold well_formed. apply (bool_decide_unpack _). vm_compute. exact I.
  - left.
  - vm_compute; reflexivity.
  - assert ((main (Demo.cli ["a"; "b"] false) Demo.tree).2 = Ok tt) as Hr
      by (vm_compute; reflexivity).
    rewrite <- Hr. apply surjective_pairing.
Defined.

Lemma main_latent_eval_no_sentinel_witness :
  exists i,
    index_of "concept_id" (columns Demo.table) = Some i
    /\ Forall (fun row => is_sentinel (cell_at i row) = false)
         (List.filter (row_kept (list_to_set [0; 1]%Z) false i Demo.table)
            (rows Demo.table)).
Proof.
  destruct (main_latent_eval_no_sentinel (Demo.cli ["a"; "b"] false) "a"
              Demo.tree (main (Demo.cli ["a"; "b"] false) Demo.tree).1
              Demo.table) as (i & Hi & _ & Hall).
  - split; intros [k Hk]; discriminate.
  - repeat constructor; done.
  - left.
  - vm_compute; reflexivity.
  - vm_compute; reflexivity.
  - assert ((main (Demo.cli ["a"; "b"] false) Demo.tree).2 = Ok tt) as Hr
      by (vm_compute; reflexivity).
    rewrite <- Hr. apply surjective_pairing.
  - by exists i.
Defined.

Lemma handled_if_subseteq (src0 : fs) (sd : path) (h : gset string)
    (n m : string) :
  m ∈ handled_if src0 sd h n -> m ∈ h \/ m = n.
Proof.
  unfold handled_if. destruct (bool_decide _); [|by left].
  intros [?|?%elem_of_singleton]%elem_of_union; auto.
Qed.

(** X14. For a run of [main] that returns, with the roots apart and the
    source tree well formed: every regular file directly in [generate] or
    [inference] of a requested subdirectory, other than the files filtered
    there, is in the target with its content unchanged. It is at the same
    relative path [p], unless the target had a directory at [p] before the
    run: then it is inside that directory, under its own name. *)
Theorem main_mirrors_other_files (a : args) (x loc n : string) (c : content)
    (s s1 : fs) :
  apart (source_root a) (target_root a) ->
  well_formed s ->
  x ∈ subdirs a ->
  (loc = "generate" /\ n ≠ "metadata.jsonl" /\ n ≠ "train_data.parquet")
  \/ (loc = "inference" /\ n ≠ "latent_eval_data.parquet") ->
  s !! (((source_root a ++ [x]) ++ [loc]) ++ [n]) = Some (File c) ->
  main a s = (s1, Ok tt) ->
  let p := ((target_root a ++ [x]) ++ [loc]) ++ [n] in
  s1 !! (if is_dir s p then p ++ [n] else p) = Some (File c).
Proof.
  intros Hap Hwf Hx Hloc Hsrc Hrun p.
  pose proof (main_subdir_done a x s s1 Hap Hx Hrun) as Hdone.
  pose proof (well_formed_parent_dir _ _ _ _ Hwf Hsrc) as Hdir.
  assert (n ∈ listdir s ((source_root a ++ [x]) ++ [loc])) as Hin
    by (apply elem_of_listdir; by rewrite Hsrc).
  assert (put_into_done ((target_root a ++ [x]) ++ [loc]) n c s1) as Hput.
  { unfold subdir_done in Hdone. cbv zeta in Hdone.
    destruct (s !! (source_root a ++ [x])); [|done].
    destruct Hdone as [Hg Hi].
    destruct Hloc as [(-> & Hn1 & Hn2)|[-> Hn1]].
    - unfold generate_done in Hg. cbv zeta in Hg. rewrite Hdir in Hg.
      destruct Hg as (_ & _ & Hm). unfold mirror_done in Hm.
      rewrite Hdir in Hm. specialize (Hm n Hin).
      unfold mirror_item_done in Hm. rewrite Hsrc in Hm.
      rewrite bool_decide_eq_false_2 in Hm; [done|].
      unfold generate_handled.
      intros [[[]%elem_of_empty| ->]%handled_if_subseteq| ->]%handled_if_subseteq;
        done.
    - unfold inference_done in Hi. cbv zeta in Hi. rewrite Hdir in Hi.
      destruct Hi as (_ & Hm). unfold mirror_done in Hm.
      rewrite Hdir in Hm. specialize (Hm n Hin).
      unfold mirror_item_done in Hm. rewrite Hsrc in Hm.
      rewrite bool_decide_eq_false_2 in Hm; [done|].
      intros [[]%elem_of_empty| ->]%handled_if_subseteq; done. }
  pose proof (footprint_main a _ _ _ Hrun) as Hch.
  destruct Hput as [_ Hput]. fold p in Hput.
  destruct (is_dir s p) eqn:Hd.
  - apply is_dir_true in Hd. pose proof (change_dir _ _ _ _ _ Hch Hd) as Hd1.
    destruct Hput as [[_ Hf]|Hf]; [done|congruence].
  - destruct Hput as [[Hd1 _]|Hf]; [|done]. exfalso.
    destruct (Hch p) as [E|[([y [l [_ Hpre%prefix_length]]] & _)|(_ & _ & c' & Hc)]].
    + unfold is_dir in Hd. by rewrite <- E, Hd1 in Hd.
    + unfold p in Hpre. rewrite !length_app in Hpre. cbn in Hpre. lia.
    + congruence.
Qed.

Lemma main_mirrors_other_files_witness :
  (main (Demo.cli ["a"; "b"] false) Demo.tree).1
    !! (((["T"] ++ ["a"]) ++ ["inference"]) ++ ["notes.txt"])
  = Some (File Demo.notes).
Proof.
  apply (main_mirrors_other_files (Demo.cli ["a"; "b"] false) "a"
           "inference" "notes.txt" Demo.notes Demo.tree).
  - split; intros [k Hk]; discriminate.
  - unfold well_formed. apply (bool_decide_unpack _). vm_compute. exact I.
  - left.
  - right. split; [done|]. intros [=].
  - vm_compute; reflexivity.
  - assert ((main (Demo.cli ["a"; "b"] false) Demo.tree).2 = Ok tt) as Hr
      by (vm_compute; reflexivity).
    rewrite <- Hr. apply surjective_pairing.
Defined.

Lemma bind_seq_ret {A : Type} (m : M unit) (x : A) (k : A -> M unit) (s : fs) :
  ((m ;; mret x) ≫= k) s = (m ;; k x) s.
Proof. exact (bind_if_ret true m x x k s). Qed.

(** X15. Subsetting a directory onto itself loses its records: in a
    well-formed tree, when [src_base/generate/metadata.jsonl] is a regular
    file and [subset_single_directory] is called with the destination equal
    to the source, that file is left a text file with no line, whether the
    call then returns or raises (as it does, with [SameFileError], at the
    first file to mirror). *)
Theorem subset_in_place_empties_metadata (sb : path) (K : gset Z) (kn : bool)
    (c : content) (s s' : fs) (r : result unit) :
  well_formed s ->
  s !! ((sb ++ ["generate"]) ++ ["metadata.jsonl"]) = Some (File c) ->
  subset_single_directory sb sb K kn s = (s', r) ->
  s' !! ((sb ++ ["generate"]) ++ ["metadata.jsonl"]) = Some (File (Text [])).
Proof.
  intros Hwf Hp.
  pose proof (well_formed_parent_dir _ _ _ _ Hwf Hp) as Hgen.
  set (gen := sb ++ ["generate"]) in *.
  set (p := gen ++ ["metadata.jsonl"]) in *.
  set (s1 := <[p := File (Text [])]> s).
  assert (s1 !! p = Some (File (Text []))) as Hp1 by apply lookup_insert_eq.
  assert (forall h t t' r', "metadata.jsonl" ∈ h -> t !! p = Some (File (Text [])) ->
            _mirror_misc_files gen gen h t = (t', r') ->
            t' !! p = Some (File (Text []))) as Hmirror.
  { intros h t t' r' Hh Ht Hm.
    pose proof (mirror_keeps_handled _ _ _ _ _ _ _ Hh Hm) as E.
    fold p in E. congruence. }
  assert (forall s2 r2, subset_generate sb sb K kn s = (s2, r2) ->
            s2 !! p = Some (File (Text []))) as Hg.
  { intros s2 r2. unfold subset_generate. cbv zeta. fold gen. fold p.
    rewrite bind_unfold. unfold exists_ at 1.
    rewrite bool_decide_eq_true_2 by (rewrite Hgen; eauto).
    rewrite bind_unfold. unfold exists_ at 1.
    rewrite bool_decide_eq_true_2 by (rewrite Hp; eauto).
    rewrite bind_seq_ret.
    rewrite (bind_ok _ _ _ _ _ (metadata_in_place p K c s Hwf
                                  ltac:(by destruct gen) Hp)).
    fold s1. rewrite bind_unfold. unfold exists_ at 1.
    destruct (bool_decide _).
    - rewrite bind_seq_ret. rewrite bind_unfold.
      destruct (_filter_parquet _ _ K kn s1) as [s3 [[]|e]] eqn:Hf.
      + intros Hm. eapply Hmirror; [|.. |exact Hm]; [set_solver|].
        eapply change_file; [exact (footprint_filter_parquet _ _ _ _ _ _ _ Hf)| |done].
        cbv beta. by intros ?%snoc_inj.
      + intros [= <- _].
        eapply change_file; [exact (footprint_filter_parquet _ _ _ _ _ _ _ Hf)| |done].
        cbv beta. by intros ?%snoc_inj.
    - intros Hm. eapply Hmirror; [|exact Hp1|exact Hm]. set_solver. }
  unfold subset_single_directory. rewrite bind_unfold.
  destruct (subset_generate sb sb K kn s) as [s2 [[]|e]] eqn:Hgrun.
  - intros Hi. apply footprint_subset_inference_fine in Hi.
    eapply change_file; [exact Hi| |by eapply Hg]. cbv beta.
    intros [n [E|E]].
    + unfold p, gen in E. by apply app_inj_tail in E as [[_ [=]]%app_inj_tail _].
    + unfold p, gen in E. apply app_inj_tail in E as [E _].
      apply (f_equal List.length) in E. rewrite !length_app in E.
      cbn in E. lia.
  - intros [= <- _]. by eapply Hg.
Qed.

Lemma subset_in_place_empties_metadata_witness :
  (subset_single_directory ["S"; "a"] ["S"; "a"] Demo.K true Demo.tree).1
    !! ((["S"; "a"] ++ ["generate"]) ++ ["metadata.jsonl"])
  = Some (File (Text []))
  /\ is_raise (subset_single_directory ["S"; "a"] ["S"; "a"] Demo.K true
                 Demo.tree).2 = true.
Proof.
  split; [|vm_compute; reflexivity].
  apply (subset_in_place_empties_metadata ["S"; "a"] Demo.K true
           (Text Demo.metadata) Demo.tree _
           (subset_single_directory ["S"; "a"] ["S"; "a"] Demo.K true
              Demo.tree).2).
  - unfold well_formed. apply (bool_decide_unpack _). vm_compute. exact I.
  - vm_compute; reflexivity.
  - apply surjective_pairing.
Defined.

(** ** Running a component again *)

Lemma member_intersection (K K' : gset Z) (v : pyval) :
  member (K ∩ K') v = member K v && member K' v.
Proof.
  unfold member. destruct (concept_id_of v) as [z|e]; [|done].
  apply eq_true_iff_eq.
  rewrite andb_true_iff, !bool_decide_eq_true. apply elem_of_intersection.
Qed.

Lemma filter_member_twice (K K' : gset Z) (vs : list pyval) :
  List.filter (member K') (List.filter (member K) vs)
  = List.filter (member (K ∩ K')) vs.
Proof.
  induction vs as [|v vs IH]; [done|]. cbn. rewrite member_intersection.
  destruct (member K v); cbn; by rewrite IH.
Qed.

Lemma scan_kept (K K' : gset Z) (vs : list pyval) :
  Forall (fun v => member K v = true) vs ->
  scan K' (Json <$> vs) = (List.filter (member K') vs, Ok tt).
Proof.
  induction 1 as [|v vs Hv _ IH]; [done|]. cbn [fmap list_fmap scan].
  change (list_fmap _ _ Json vs) with (Json <$> vs). rewrite IH.
  unfold member in Hv |- *. cbn [List.filter].
  unfold member. by destruct (concept_id_of v).
Qed.

Lemma filter_Forall {A : Type} (f : A -> bool) (xs : list A) :
  Forall (fun x => f x = true) (List.filter f xs).
Proof. apply Forall_forall. by intros x [_ ?]%list_elem_of_In%filter_In. Qed.

(** X16. The record filter composes: when [_write_filtered_metadata] has
    filtered a text file [src] into [mid] by [K] and returned, filtering
    [mid] into a writable [dst] by [K'] returns as well, and [dst] then
    holds exactly the records of [src] whose concept id is in both
    keep-sets, in their order. With [K' = K] the second pass copies the
    first one's output. *)
Theorem write_filtered_metadata_composes (src mid dst : path)
    (K K' : gset Z) (ls : list line) (s s1 : fs) :
  s !! src = Some (File (Text ls)) ->
  src ≠ mid -> mid ≠ dst ->
  _write_filtered_metadata src mid K s = (s1, Ok tt) ->
  writable s1 dst = true ->
  _write_filtered_metadata mid dst K' s1
  = (<[dst := File (Text (Json <$> List.filter (member (K ∩ K'))
                                     (records ls)))]>
       (mkdirs s1 (parent dst)), Ok tt).
Proof.
  intros Hsrc Hne Hne' Hrun Hw.
  assert (s1 !! mid
          = Some (File (Text (Json <$> List.filter (member K) (records ls)))))
    as Hmid.
  { destruct (existsb (is_file_at s) (prefixes (parent mid))) eqn:Hmk.
    { destruct (mkdir_fail _ _ Hmk) as [e He]. revert Hrun.
      unfold _write_filtered_metadata. by rewrite (bind_raise _ _ _ _ _ He). }
    rewrite (metadata_run _ _ _ _ _ Hsrc Hne Hmk) in Hrun.
    destruct (write_file mid _ _) as [s2 [[]|e]]; [|done].
    injection Hrun as <- Hr.
    rewrite (scan_readable _ _ (scan_ok_readable _ _ Hr)).
    apply lookup_insert_eq. }
  rewrite (metadata_run_writable _ _ _ _ _ Hmid Hne' Hw).
  rewrite (scan_kept K K') by apply filter_Forall.
  cbn [fst snd]. by rewrite filter_member_twice.
Qed.

Lemma write_filtered_metadata_composes_witness :
  let s1 := (_write_filtered_metadata ["S"; "a"; "generate"; "metadata.jsonl"]
               ["T"; "m"] {[0%Z; 1%Z; 3%Z]} Demo.tree).1 in
  (_write_filtered_metadata ["T"; "m"] ["T"; "d"] {[1%Z; 3%Z; 5%Z]} s1).1
    !! ["T"; "d"]
  = Some (File (Text [Json (Demo.record 3); Json (Demo.record 1)])).
Proof.
  intros s1.
  rewrite (write_filtered_metadata_composes
             ["S"; "a"; "generate"; "metadata.jsonl"] ["T"; "m"] ["T"; "d"]
             {[0%Z; 1%Z; 3%Z]} {[1%Z; 3%Z; 5%Z]} Demo.metadata Demo.tree s1).
  - cbn [fst]. rewrite lookup_insert_eq. vm_compute; reflexivity.
  - vm_compute; reflexivity.
  - done.
  - done.
  - assert ((_write_filtered_metadata
               ["S"; "a"; "generate"; "metadata.jsonl"] ["T"; "m"]
               {[0%Z; 1%Z; 3%Z]} Demo.tree).2 = Ok tt) as Hr
      by (vm_compute; reflexivity).
    rewrite <- Hr. apply surjective_pairing.
  - vm_compute; reflexivity.
Defined.



Lemma put_again (dd : path) (n : string) (o : result content)
    (r r' : result unit) (s s' : fs) :
  put dd (dd ++ [n]) o r s = (s', r') ->
  put dd (dd ++ [n]) o r s' = (s', r').
Proof.
  destruct r' as [[]|e]; [|apply put_fail].
  intros H. apply put_fix. by apply (put_ok _ _ _ _ s).
Qed.

Lemma change_keeps_node (D W : path -> Prop) (s s' : fs) (q : path)
    (nd : node) :
  change D W s s' -> ¬ W q -> s !! q = Some nd -> s' !! q = Some nd.
Proof.
  intros Hch HW Hq. destruct nd as [c|].
  - by eapply change_file.
  - by eapply change_dir.
Qed.

(** X18. The record filter can be run again: for a destination other than
    the source and other than the root, the same call of
    [_write_filtered_metadata] made in the state the first call left ends
    in that state with the same result. After a call that stopped at a
    malformed line, the second call rewrites the same partial output and
    raises the same exception. *)
Theorem write_filtered_metadata_again (src dst : path) (K : gset Z)
    (s s' : fs) (r : result unit) :
  src ≠ dst -> dst ≠ [] ->
  _write_filtered_metadata src dst K s = (s', r) ->
  _write_filtered_metadata src dst K s' = (s', r).
Proof.
  intros Hne Hnil. destruct dst as [|n dd _] using rev_ind; [done|].
  destruct (s !! src) as [nd|] eqn:Hsrc.
  - rewrite (metadata_shape _ _ _ _ _ _ Hsrc Hne). intros Hrun.
    assert (s' !! src = Some nd) as Hsrc'.
    { eapply change_keeps_node; [exact (footprint_put _ _ _ _ _ _ _ Hrun)| |done].
      done. }
    rewrite (metadata_shape _ _ _ _ _ _ Hsrc' Hne).
    by apply (put_again _ _ _ _ _ s).
  - unfold _write_filtered_metadata. rewrite parent_snoc.
    destruct (mkdir dd s) as [s1 [[]|e]] eqn:Hmk.
    + rewrite (bind_ok _ _ _ _ _ Hmk). apply mkdir_ok_inv in Hmk as [-> _].
      assert (exists e, open_r src (mkdirs s dd) = (mkdirs s dd, Raise e))
        as [e Ho].
      { unfold open_r. rewrite lookup_mkdirs, Hsrc. case_decide; eauto. }
      rewrite (bind_raise _ _ _ _ _ Ho). intros [= <- <-].
      rewrite (bind_ok _ _ _ _ _ (mkdir_all_dirs _ _ (mkdirs_all_dirs s dd))).
      apply (bind_raise _ _ _ _ _ Ho).
    + rewrite (bind_raise _ _ _ _ _ Hmk). intros [= <- <-].
      pose proof Hmk as [[[=] _]|[_ ->]]%mkdir_inv.
      apply (bind_raise _ _ _ _ _ Hmk).
Qed.

Lemma write_filtered_metadata_again_witness :
  let first := _write_filtered_metadata
                 ["S"; "a"; "generate"; "metadata.jsonl"] ["T"; "out"]
                 Demo.K Demo.malformed in
  _write_filtered_metadata ["S"; "a"; "generate"; "metadata.jsonl"]
    ["T"; "out"] Demo.K first.1 = (first.1, first.2)
  /\ first.2 = Raise ValueError.
Proof.
  intros first. split; [|vm_compute; reflexivity].
  apply (write_filtered_metadata_again
           ["S"; "a"; "generate"; "metadata.jsonl"] ["T"; "out"] Demo.K
           Demo.malformed first.1 first.2); [done|done|].
  apply surjective_pairing.
Defined.

(** ** What [main] raises *)

Section ends.
Context {A B : Type}.
Implicit Types (P : fs -> Prop) (Q : exn -> fs -> Prop).

Lemma ends_bind (m : M A) (f : A -> M B) P (R : A -> fs -> Prop)
    (R' : B -> fs -> Prop) Q :
  ends P m R Q -> (forall a, ends (R a) (f a) R' Q) -> ends P (m ≫= f) R' Q.
Proof.
  intros Hm Hf s s' r HP. rewrite bind_unfold.
  destruct (m s) as [s1 [a|e]] eqn:E.
  - apply (Hf a). exact (Hm _ _ _ HP E).
  - intros [= <- <-]. exact (Hm _ _ _ HP E).
Qed.

Lemma ends_weaken (m : M A) P P' (R R' : A -> fs -> Prop) Q Q' :
  (forall s, P' s -> P s) -> (forall a s, R a s -> R' a s) ->
  (forall e s, Q e s -> Q' e s) ->
  ends P m R Q -> ends P' m R' Q'.
Proof.
  intros HP HR HQ H s s' r Hs Hm. specialize (H s s' r (HP _ Hs) Hm).
  destruct r; auto.
Qed.

Lemma ends_ret (a : A) P Q : ends P (mret a) (fun _ => P) Q.
Proof. by intros s s' r HP [= <- <-]. Qed.

Lemma ends_lift (x : result A) P :
  (forall e, x = Raise e -> is_not_found e = false) ->
  ends P (lift x) (fun _ => P) found.
Proof.
  intros Hx s s' r HP [= <- <-]. destruct x as [a|e]; [done|].
  by apply Hx.
Qed.

(** What [m] leaves in place stays in place. *)
Lemma ends_frame (m : M A) (D W : path -> Prop) P (R : A -> fs -> Prop) Q
    (q : path) :
  footprint m D W -> ends P m R Q ->
  ends (fun s => P s /\ is_Some (s !! q)) m
    (fun a s => R a s /\ is_Some (s !! q)) Q.
Proof.
  intros Hf H s s' r [HP Hq] Hm. specialize (H s s' r HP Hm).
  destruct r as [a|e]; [|done]. split; [done|].
  destruct (Hf _ _ _ Hm q) as [E|[(_ & _ & E)|(_ & _ & c & E)]];
    rewrite E; eauto.
Qed.
End ends.

Lemma ends_for {A : Type} (xs : list A) (body : A -> M unit)
    (I : fs -> Prop) (Q : exn -> fs -> Prop) :
  (forall x, x ∈ xs -> ends I (body x) (fun _ => I) Q) ->
  ends I (for_ xs body) (fun _ => I) Q.
Proof.
  induction xs as [|x xs IH]; intros H; cbn [for_].
  - apply ends_ret.
  - apply (ends_bind _ _ I (fun _ => I)); [apply H; left|]. intros [].
    apply IH. intros y Hy. apply H. by right.
Qed.

Lemma ends_exists (p : path) (P : fs -> Prop) :
  ends P (exists_ p)
    (fun b s => P s /\ (b = true -> is_Some (s !! p))
                /\ (b = false -> s !! p = None)) found.
Proof.
  intros s s' r HP [= <- <-]. split; [done|].
  split; [by intros ?%bool_decide_eq_true|].
  intros H%bool_decide_eq_false. by apply eq_None_not_Some.
Qed.

Lemma ends_mkdir (d q : path) (nd : node) :
  ends (fun s => s !! q = Some nd) (mkdir d)
    (fun _ s => s !! q = Some nd /\ s !! d = Some Dir) found.
Proof.
  intros s s' r Hq. unfold mkdir. destruct (is_file_at s d).
  { by intros [= <- <-]. }
  destruct (existsb _ _) eqn:Hmk; intros [= <- <-]; [done|].
  split; [by apply mkdirs_keeps|by apply mkdirs_all_dirs].
Qed.

Lemma ends_write_file (p : path) (c : content) :
  ends (fun s => s !! parent p = Some Dir) (write_file p c)
    (fun _ _ => True) found.
Proof.
  intros s s' r Hp. unfold write_file. rewrite Hp.
  by destruct (s !! p) as [[]|]; intros [= <- <-].
Qed.

Lemma int_found (v : pyval) (e : exn) :
  int v = Raise e -> is_not_found e = false.
Proof.
  destruct v as [|b|z|[m x|neg|]|str|xs|items]; cbn; try by intros [= <-].
  by destruct (int_of_str str); intros [= <-].
Qed.

Lemma ends_record_loop (dst : path) (K : gset Z) (ls : list line) :
  ends (fun _ => True)
    (for_ ls (fun line =>
       if is_blank line then mret tt
       else
         record ← json_loads line ;
         field ← lift (get record "concept_id" (PInt (-1))) ;
         concept_id ← lift (int field) ;
         if bool_decide (concept_id ∈ K)
         then write dst (json_dumps record)
         else mret tt))
    (fun _ _ => True) found.
Proof.
  apply ends_for. intros l _.
  destruct (is_blank l); [apply ends_ret|].
  eapply ends_bind.
  { instantiate (1 := fun _ _ => True). intros s s' r _.
    destruct l as [|v|[]]; by intros [= <- <-]. }
  intros record. eapply ends_bind.
  { apply ends_lift. intros e. by destruct record; intros [= <-]. }
  intros field. cbv beta. eapply ends_bind.
  { apply ends_lift. apply int_found. }
  intros cid. cbv beta. destruct (bool_decide _); [|apply ends_ret].
  intros s s' r _. unfold write.
  by destruct (s !! dst) as [[[]|]|]; intros [= <- <-].
Qed.

Lemma ends_write_filtered_metadata (src dst : path) (K : gset Z) :
  ends (fun s => is_Some (s !! src)) (_write_filtered_metadata src dst K)
    (fun _ _ => True) found.
Proof.
  intros s s' r [nd Hsrc]. revert s s' r Hsrc.
  change (ends (fun s => s !! src = Some nd)
            (_write_filtered_metadata src dst K) (fun _ _ => True) found).
  unfold _write_filtered_metadata.
  eapply ends_bind; [apply ends_mkdir|intros []].
  eapply ends_bind.
  { instantiate (1 := fun _ s => s !! parent dst = Some Dir).
    intros s s' r [Hsrc Hd]. unfold open_r. rewrite Hsrc.
    by destruct nd; intros [= <- <-]. }
  intros []. eapply ends_bind; [apply ends_write_file|intros []].
  eapply ends_bind.
  { instantiate (1 := fun fin _ =>
                        forall e, fin.2 = Raise e -> is_not_found e = false).
    intros s s' r _. unfold readlines.
    destruct (s !! src) as [[[]|]|]; intros [= <- <-]; cbn;
      intros e He; by simplify_eq. }
  intros fin s0 s0' r0 Hfin.
  refine (ends_bind _ _ (fun _ => True) (fun _ _ => True) _ _ _ _
            s0 s0' r0 I).
  - apply ends_record_loop.
  - intros _ s s' r _ [= <- <-]. destruct fin.2 as [[]|e] eqn:E; [done|].
    by apply Hfin.
Qed.

Lemma ends_filter_parquet (src dst : path) (K : gset Z) (kn : bool) :
  ends (fun s => is_Some (s !! src)) (_filter_parquet src dst K kn)
    (fun _ _ => True) found.
Proof.
  intros s s' r [nd Hsrc]. revert s s' r Hsrc.
  change (ends (fun s => s !! src = Some nd)
            (_filter_parquet src dst K kn) (fun _ _ => True) found).
  unfold _filter_parquet, to_parquet.
  eapply ends_bind; [apply ends_mkdir|intros []].
  eapply ends_bind.
  { instantiate (1 := fun _ s => s !! parent dst = Some Dir).
    intros s s' r [Hsrc Hd]. unfold read_parquet. rewrite Hsrc.
    by destruct nd as [[]|]; intros [= <- <-]. }
  intros df. cbv beta.
  assert (forall e, getitem df "concept_id" = Raise e ->
                    is_not_found e = false) as Hget.
  { intros e. unfold getitem. by destruct (index_of _ _); intros [= <-]. }
  eapply ends_bind; [by apply ends_lift|intros ids]. cbv beta zeta.
  eapply ends_bind; [|intros mask; apply ends_write_file].
  destruct kn; [|apply ends_ret].
  eapply ends_bind; [by apply ends_lift|intros ids'']. cbv beta.
  destruct (any _); [|apply ends_ret].
  eapply ends_bind; [by apply ends_lift|intros ids3]. apply ends_ret.
Qed.

Lemma ends_copy2 (src dd : path) (n : string) :
  ends (fun s => is_Some (s !! src) /\ s !! dd = Some Dir)
    (copy2 src (dd ++ [n])) (fun _ _ => True) found.
Proof.
  intros s s' r [[nd Hsrc] Hdd]. unfold copy2.
  destruct (_ && _); [by intros [= <- <-]|]. rewrite Hsrc.
  destruct nd as [c|]; [|by intros [= <- <-]].
  apply ends_write_file. destruct (is_dir s (dd ++ [n])) eqn:Hd.
  - rewrite parent_snoc. by apply is_dir_true.
  - by rewrite parent_snoc.
Qed.

Lemma ends_mirror_misc_files (sd dd : path) (handled : gset string) :
  ends (fun s => is_Some (s !! sd)) (_mirror_misc_files sd dd handled)
    (fun _ _ => True) found.
Proof.
  unfold _mirror_misc_files. eapply ends_bind.
  { instantiate (1 := fun _ _ => True). intros s s' r [nd Hsd].
    unfold iterdir. rewrite Hsd. by destruct nd; intros [= <- <-]. }
  intros items. apply (ends_for _ _ (fun _ => True)). intros item _.
  destruct (bool_decide _); [apply ends_ret|].
  eapply ends_bind.
  { instantiate (1 := fun f s => f = true -> exists c,
                                   s !! item = Some (File c)).
    intros s s' r _ [= <- <-]. unfold is_file_at.
    destruct (s !! item) as [[c|]|]; [eauto|done..]. }
  intros [|]; [|by intros s s' r _ [= <- <-]].
  intros s s' r Hf. destruct (Hf eq_refl) as [c Hc].
  refine (ends_bind _ _ (fun s => s !! item = Some (File c)) _ _ _ _ _
            s s' r Hc); [apply ends_mkdir|intros []].
  eapply ends_weaken; [| | |apply ends_copy2]; cbv beta; [|done..].
  intros t [Ht Hd]. rewrite Ht. eauto.
Qed.

(** The step of [subset_single_directory] for a file it filters: when the
    file exists it is filtered and its name is added to the handled set. *)
Lemma ends_handled (p g : path) (m : M unit)
    (h0 h1 : gset string) (k : gset string -> M unit) :
  ends (fun s => is_Some (s !! p) /\ is_Some (s !! g)) m
    (fun _ s => is_Some (s !! g)) found ->
  (forall h, ends (fun s => is_Some (s !! g)) (k h) (fun _ _ => True)
               found) ->
  ends (fun s => is_Some (s !! g))
    (b ← exists_ p ;
     handled ← (if b : bool then m ;; mret h1 else mret h0) ;
     k handled)
    (fun _ _ => True) found.
Proof.
  intros Hm Hk s s' r Hg. rewrite bind_unfold. unfold exists_.
  destruct (bool_decide (is_Some (s !! p))) eqn:Hb; cbv beta iota.
  - apply bool_decide_eq_true in Hb. rewrite bind_seq_ret.
    exact (ends_bind m (fun _ => k h1) _ _ _ _ Hm (fun _ => Hk h1)
             s s' r (conj Hb Hg)).
  - exact (Hk h0 s s' r Hg).
Qed.

Lemma ends_exists_if {B : Type} (p : path) (f : bool -> M B)
    (R : B -> fs -> Prop) :
  ends (fun s => is_Some (s !! p)) (f true) R found ->
  ends (fun _ => True) (f false) R found ->
  ends (fun _ => True) (exists_ p ≫= f) R found.
Proof.
  intros Ht Hf s s' r _. rewrite bind_unfold. unfold exists_.
  case_bool_decide as Hp; [by apply Ht|by apply Hf].
Qed.

Lemma ends_subset_generate (sb db : path) (K : gset Z) (kn : bool) :
  ends (fun _ => True) (subset_generate sb db K kn) (fun _ _ => True) found.
Proof.
  unfold subset_generate. cbv zeta.
  apply ends_exists_if; [|apply (ends_ret tt (fun _ => True))].
  apply ends_handled.
  { eapply ends_weaken;
      [| | |apply (ends_frame _ _ _ _ _ _ (sb ++ ["generate"])
                      (footprint_write_filtered_metadata _ _ _)
                      (ends_write_filtered_metadata _ _ _))];
      cbv beta; [done| |done]. by intros _ s [_ ?]. }
  intros h1. apply ends_handled.
  { eapply ends_weaken;
      [| | |apply (ends_frame _ _ _ _ _ _ (sb ++ ["generate"])
                      (footprint_filter_parquet _ _ _ _)
                      (ends_filter_parquet _ _ _ _))];
      cbv beta; [done| |done]. by intros _ s [_ ?]. }
  intros h2. apply ends_mirror_misc_files.
Qed.

Lemma ends_subset_inference (sb db : path) (K : gset Z) :
  ends (fun _ => True) (subset_inference sb db K) (fun _ _ => True) found.
Proof.
  unfold subset_inference. cbv zeta.
  apply ends_exists_if; [|apply (ends_ret tt (fun _ => True))].
  apply ends_handled.
  { eapply ends_weaken;
      [| | |apply (ends_frame _ _ _ _ _ _ (sb ++ ["inference"])
                      (footprint_filter_parquet _ _ _ _)
                      (ends_filter_parquet _ _ _ _))];
      cbv beta; [done| |done]. by intros _ s [_ ?]. }
  intros h. apply ends_mirror_misc_files.
Qed.

Lemma ends_subset_single_directory (sb db : path) (K : gset Z) (kn : bool) :
  ends (fun _ => True) (subset_single_directory sb db K kn)
    (fun _ _ => True) found.
Proof.
  unfold subset_single_directory.
  eapply ends_bind; [apply ends_subset_generate|intros []].
  apply ends_subset_inference.
Qed.

(** X1. The one [FileNotFoundError] of [main] is its own: whatever the
    command line and the filesystem, when a run of [main] raises
    [FileNotFoundError] for a path, the path is [source_root/x] for a
    requested [x] and it does not exist. No write fails for want of a
    directory, since each writer creates the directories it writes into,
    and no read is attempted of a file that [exists()] has not found. *)
Theorem main_not_found_is_missing_source (a : args) (s s' : fs) (p : path) :
  main a s = (s', Raise (FileNotFoundError p)) ->
  exists x, x ∈ subdirs a /\ p = source_root a ++ [x] /\ s' !! p = None.
Proof.
  assert (ends (fun _ => True) (main a) (fun _ _ => True)
            (fun e t => forall q, e = FileNotFoundError q ->
               exists x, x ∈ subdirs a /\ q = source_root a ++ [x]
                         /\ t !! q = None)) as H.
  { unfold main. cbv zeta. apply (ends_for _ _ (fun _ => True)).
    intros x Hx t t' r _. rewrite bind_unfold. unfold exists_.
    case_bool_decide as Hsrc; cbv beta iota; cbn [negb].
    - intros Hrun.
      pose proof (ends_bind _ (fun _ => print x (target_root a ++ [x]))
                    (fun _ => True) (fun _ _ => True) (fun _ _ => True)
                    found
                    (ends_subset_single_directory _ _ _ _)
                    (fun _ => ends_ret tt (fun _ => True) found)
                    t t' r I Hrun) as Hr.
      destruct r as [[]|e]; [done|]. by intros q ->.
    - intros [= <- <-] q [= <-]. exists x. split; [done|]. split; [done|].
      by apply eq_None_not_Some. }
  intros Hrun. exact (H s s' _ I Hrun p eq_refl).
Qed.

Lemma main_not_found_is_missing_source_witness :
  exists x, x ∈ ["a"; "missing"; "b"]
            /\ ["S"; "missing"] = ["S"] ++ [x]
            /\ (main (Demo.cli ["a"; "missing"; "b"] false) Demo.tree).1
                 !! ["S"; "missing"] = None.
Proof.
  apply (main_not_found_is_missing_source
           (Demo.cli ["a"; "missing"; "b"] false) Demo.tree
           (main (Demo.cli ["a"; "missing"; "b"] false) Demo.tree).1
           ["S"; "missing"]).
  assert ((main (Demo.cli ["a"; "missing"; "b"] false) Demo.tree).2
          = Raise (FileNotFoundError ["S"; "missing"])) as Hr
    by (vm_compute; reflexivity).
  rewrite <- Hr. apply surjective_pairing.
Defined.
